(** * DEFLATE_QPL codec: hardware job pool, engines and fallback orchestration

    A shallow embedding of [src/Compression/CompressionCodecDeflateQpl.cpp].

    The QPL library (job execution, statuses) and the accelerator are external
    to the file: they appear here as an [Environment] of oracles that every
    theorem quantifies over.  Everything the C++ file itself does (the slot
    pool, the three hardware entry points, the drain loop, the software
    engine and the orchestrating codec) is translated function by function. *)

From Stdlib Require Import ZArith List Lia Bool.
From stdpp Require Import base list.
Import ListNotations.

Local Open Scope Z_scope.

(** ** Machine integers *)

Definition to_UInt32 (z : Z) : Z := z mod 2 ^ 32.
Definition to_Int32 (z : Z) : Z := (z + 2 ^ 31) mod 2 ^ 32 - 2 ^ 31.

(** ** The QPL interface, as far as the codec touches it *)

(** Status space of the job-execution library.  The codec distinguishes only
    success, "still being processed" and everything else. *)
Inductive qpl_status :=
| QPL_STS_OK
| QPL_STS_BEING_PROCESSED
| QPL_STS_ERROR (code : Z).

Definition status_is_ok (s : qpl_status) : bool :=
  match s with QPL_STS_OK => true | _ => false end.

Definition status_in_progress (s : qpl_status) : bool :=
  match s with QPL_STS_BEING_PROCESSED => true | _ => false end.

Inductive qpl_operation := qpl_op_none | qpl_op_decompress | qpl_op_compress.

Inductive qpl_flag :=
| QPL_FLAG_FIRST | QPL_FLAG_LAST | QPL_FLAG_DYNAMIC_HUFFMAN | QPL_FLAG_OMIT_VERIFY.

Inductive qpl_compression_levels := qpl_default_level.

(** The fields of [qpl_job] that the codec reads or writes.  Pointers are
    addresses in [Z]; sizes are [UInt32]. *)
Record qpl_job := {
  op : qpl_operation;
  next_in_ptr : Z;
  next_out_ptr : Z;
  available_in : Z;
  available_out : Z;
  level : option qpl_compression_levels;
  flags : list qpl_flag;
  total_out : Z
}.

Definition blank_job : qpl_job :=
  {| op := qpl_op_none; next_in_ptr := 0; next_out_ptr := 0; available_in := 0;
     available_out := 0; level := None; flags := []; total_out := 0 |}.

Definition set_total_out (n : Z) (j : qpl_job) : qpl_job :=
  {| op := op j; next_in_ptr := next_in_ptr j; next_out_ptr := next_out_ptr j;
     available_in := available_in j; available_out := available_out j;
     level := level j; flags := flags j; total_out := n |}.

(** The configuration block shared by the compress entry points
    (lines 178-184 and 356-362). *)
Definition configure_compress (source source_size dest dest_size : Z) (j : qpl_job) : qpl_job :=
  {| op := qpl_op_compress; next_in_ptr := source; next_out_ptr := dest;
     available_in := source_size; available_out := dest_size;
     level := Some qpl_default_level;
     flags := [QPL_FLAG_FIRST; QPL_FLAG_DYNAMIC_HUFFMAN; QPL_FLAG_LAST; QPL_FLAG_OMIT_VERIFY];
     total_out := total_out j |}.

(** The configuration block shared by the decompress entry points
    (lines 215-220, 259-264 and 379-384); [level] is left as it was. *)
Definition configure_decompress (source source_size dest uncompressed_size : Z) (j : qpl_job) : qpl_job :=
  {| op := qpl_op_decompress; next_in_ptr := source; next_out_ptr := dest;
     available_in := source_size; available_out := uncompressed_size;
     level := level j;
     flags := [QPL_FLAG_FIRST; QPL_FLAG_LAST];
     total_out := total_out j |}.

(** ** Exceptions *)

Inductive ErrorCode := CANNOT_COMPRESS | CANNOT_DECOMPRESS.

Inductive SwFailure := SwInitFailed | SwExecutionFailed.

(** [Exception(code, "... software fallback codec failed ...", status)].
    The only [throw] sites of the file are in the software engine. *)
Record Exception := {
  exn_code : ErrorCode;
  exn_site : SwFailure;
  exn_status : qpl_status
}.

(** ** Memory *)

Definition Mem := Z -> Z.

Fixpoint load (m : Mem) (p : Z) (n : nat) : list Z :=
  match n with
  | O => []
  | S n' => m p :: load m (p + 1) n'
  end.

Fixpoint store (m : Mem) (p : Z) (bs : list Z) : Mem :=
  match bs with
  | [] => m
  | b :: bs' => store (fun a => if a =? p then b else m a) (p + 1) bs'
  end.

(** ** The environment: randomness, the accelerator and the QPL software path *)

Record Environment := {
  (** raw output of the random engine at its [n]-th draw *)
  rng_raw : nat -> Z;
  (** status of [qpl_submit_job] on the pool job at [index], at time [t] *)
  hw_submit_status : nat -> Z -> qpl_status;
  (** what the device reports for the pool job at [index], configured as
      [job], when observed at time [t] (by [qpl_execute_job] or
      [qpl_check_job]): a status and, once the job has left the in-progress
      state, the bytes it has written *)
  hw_reply : nat -> Z -> qpl_job -> qpl_status * list Z;
  (** status of [qpl_init_job(qpl_path_software, _)] *)
  sw_init_status : qpl_status;
  (** the software path of [qpl_execute_job]: a function of the configured
      job and of the input bytes *)
  sw_engine : qpl_job -> list Z -> qpl_status * list Z;
  (** [::getPageSize()] *)
  page_size : positive
}.

(** ** Observable events

    Calls into the external library and operations on the slot flags are
    logged, most recent first, so that statements such as "the software
    engine did not run" or "the slot was released" can be made. *)
Inductive Event :=
| EvTryLock (index : Z) (locked : bool)
| EvUnLock (index : Z)
| EvHwExecute (index : Z) (job : qpl_job) (status : qpl_status)
| EvHwSubmit (index : Z) (job : qpl_job) (status : qpl_status)
| EvHwCheck (index : Z) (status : qpl_status)
| EvPause
| EvSwInit (status : qpl_status)
| EvSwExecute (job : qpl_job) (status : qpl_status)
| EvFini (job : option qpl_job).

(** ** State *)

(** [DeflateQplJobHWPool]: the process-wide pool.  A [qpl_job *] into
    [hw_jobs_buffer] is represented by the index of the job. *)
Record DeflateQplJobHWPool := {
  max_hw_jobs : Z;
  job_pool_ready : bool;
  hw_job_ptr_locks : list bool;
  hw_jobs_buffer : list qpl_job;
  random_engine : nat
}.

(** Modelled from the spec: the enumeration [CodecMode] is declared in
    CompressionCodecDeflateQpl.h, which is not among the sources; the spec
    lists its values as Synchronous, Asynchronous and SoftwareFallback. *)
Inductive CodecMode := Synchronous | Asynchronous | SoftwareFallback.

(** The pool, one codec instance (its software engine's [sw_job], its
    hardware engine's [decomp_async_job_map], its mode), memory, time and
    the log.  [decomp_async_job_map] is a [std::map<UInt32, qpl_job *>]:
    an association list kept sorted by key, which is the iteration order. *)
Record State := {
  st_mem : Mem;
  st_pool : DeflateQplJobHWPool;
  sw_job : option qpl_job;
  decomp_async_job_map : list (Z * Z);
  decompress_mode : CodecMode;
  st_clock : nat;
  st_env : Environment;
  st_trace : list Event
}.

Definition with_mem (m : Mem) (s : State) : State :=
  {| st_mem := m; st_pool := st_pool s; sw_job := sw_job s;
     decomp_async_job_map := decomp_async_job_map s; decompress_mode := decompress_mode s;
     st_clock := st_clock s; st_env := st_env s; st_trace := st_trace s |}.

Definition with_pool (p : DeflateQplJobHWPool) (s : State) : State :=
  {| st_mem := st_mem s; st_pool := p; sw_job := sw_job s;
     decomp_async_job_map := decomp_async_job_map s; decompress_mode := decompress_mode s;
     st_clock := st_clock s; st_env := st_env s; st_trace := st_trace s |}.

Definition with_sw_job (j : option qpl_job) (s : State) : State :=
  {| st_mem := st_mem s; st_pool := st_pool s; sw_job := j;
     decomp_async_job_map := decomp_async_job_map s; decompress_mode := decompress_mode s;
     st_clock := st_clock s; st_env := st_env s; st_trace := st_trace s |}.

Definition with_map (m : list (Z * Z)) (s : State) : State :=
  {| st_mem := st_mem s; st_pool := st_pool s; sw_job := sw_job s;
     decomp_async_job_map := m; decompress_mode := decompress_mode s;
     st_clock := st_clock s; st_env := st_env s; st_trace := st_trace s |}.

Definition with_mode (c : CodecMode) (s : State) : State :=
  {| st_mem := st_mem s; st_pool := st_pool s; sw_job := sw_job s;
     decomp_async_job_map := decomp_async_job_map s; decompress_mode := c;
     st_clock := st_clock s; st_env := st_env s; st_trace := st_trace s |}.

Definition tick (s : State) : State :=
  {| st_mem := st_mem s; st_pool := st_pool s; sw_job := sw_job s;
     decomp_async_job_map := decomp_async_job_map s; decompress_mode := decompress_mode s;
     st_clock := S (st_clock s); st_env := st_env s; st_trace := st_trace s |}.

Definition log (e : Event) (s : State) : State :=
  {| st_mem := st_mem s; st_pool := st_pool s; sw_job := sw_job s;
     decomp_async_job_map := decomp_async_job_map s; decompress_mode := decompress_mode s;
     st_clock := st_clock s; st_env := st_env s; st_trace := e :: st_trace s |}.

Definition with_locks (l : list bool) (p : DeflateQplJobHWPool) : DeflateQplJobHWPool :=
  {| max_hw_jobs := max_hw_jobs p; job_pool_ready := job_pool_ready p;
     hw_job_ptr_locks := l; hw_jobs_buffer := hw_jobs_buffer p;
     random_engine := random_engine p |}.

Definition with_jobs (l : list qpl_job) (p : DeflateQplJobHWPool) : DeflateQplJobHWPool :=
  {| max_hw_jobs := max_hw_jobs p; job_pool_ready := job_pool_ready p;
     hw_job_ptr_locks := hw_job_ptr_locks p; hw_jobs_buffer := l;
     random_engine := random_engine p |}.

Definition with_engine (n : nat) (p : DeflateQplJobHWPool) : DeflateQplJobHWPool :=
  {| max_hw_jobs := max_hw_jobs p; job_pool_ready := job_pool_ready p;
     hw_job_ptr_locks := hw_job_ptr_locks p; hw_jobs_buffer := hw_jobs_buffer p;
     random_engine := n |}.

(** ** A state monad with exceptions and fuel *)

Inductive Outcome (A : Type) :=
| Ret (a : A)
| Throw (e : Exception)
| NoResult.
Arguments Ret {A} a.
Arguments Throw {A} e.
Arguments NoResult {A}.

Definition M (A : Type) := State -> Outcome A * State.

Definition ret {A} (a : A) : M A := fun s => (Ret a, s).
Definition throw {A} (e : Exception) : M A := fun s => (Throw e, s).
Definition no_result {A} : M A := fun s => (NoResult, s).

Definition bind {A B} (m : M A) (f : A -> M B) : M B :=
  fun s =>
    match m s with
    | (Ret a, s') => f a s'
    | (Throw e, s') => (Throw e, s')
    | (NoResult, s') => (NoResult, s')
    end.

Definition gets {A} (f : State -> A) : M A := fun s => (Ret (f s), s).
Definition modify (f : State -> State) : M unit := fun s => (Ret tt, f s).

Declare Scope codec_scope.
Delimit Scope codec_scope with codec.
Notation "x <- m ; k" := (bind m (fun x => k))
  (at level 20, m at level 100, k at level 200, right associativity) : codec_scope.
Notation "m ;; k" := (bind m (fun _ => k))
  (at level 100, k at level 200, right associativity) : codec_scope.
Local Open Scope codec_scope.

(** Modelled from the spec: the FAIL sentinel [HardwareCodecDeflateQpl::RET_ERROR]
    is declared in CompressionCodecDeflateQpl.h, which is not among the
    sources; an [Int32] outside the range of sizes and handles. *)
Definition RET_ERROR : Z := -1.

(** ** DeflateQplJobHWPool *)

Definition isJobPoolReady : M bool := gets (fun s => job_pool_ready (st_pool s)).

(** [distribution(random_engine)]: the next draw of a uniform distribution
    over [[0, max_hw_jobs - 1]] (line 68). *)
Definition distribution : M Z :=
  fun s =>
    let p := st_pool s in
    let index := rng_raw (st_env s) (random_engine p) mod max_hw_jobs p in
    (Ret index, with_pool (with_engine (S (random_engine p)) p) s).

(** [hw_job_ptr_locks[index].compare_exchange_strong(expected = false, true)].
    An index outside the array is excluded by the assertion; the embedding
    then reports failure and changes nothing. *)
Definition tryLockJob (index : Z) : M bool :=
  fun s =>
    let p := st_pool s in
    match hw_job_ptr_locks p !! Z.to_nat index with
    | Some false =>
        (Ret true,
         log (EvTryLock index true)
           (with_pool (with_locks (<[Z.to_nat index := true]> (hw_job_ptr_locks p)) p) s))
    | _ => (Ret false, log (EvTryLock index false) s)
    end.

(** [hw_job_ptr_locks[index].store(false)] *)
Definition unLockJob (index : Z) : M unit :=
  fun s =>
    let p := st_pool s in
    (Ret tt,
     log (EvUnLock index)
       (with_pool (with_locks (<[Z.to_nat index := false]> (hw_job_ptr_locks p)) p) s)).

(** The [while (!tryLockJob(index))] loop of [acquireJob]; [Some index] is
    the slot that was locked, [None] the [return nullptr] inside the loop. *)
Fixpoint acquire_loop (fuel : nat) (index retry : Z) : M (option Z) :=
  match fuel with
  | O => no_result
  | S fuel' =>
      locked <- tryLockJob index;
      if locked : bool then ret (Some index)
      else
        index' <- distribution;
        let retry' := to_UInt32 (retry + 1) in
        max <- gets (fun s => max_hw_jobs (st_pool s));
        if retry' >? max then ret None
        else acquire_loop fuel' index' retry'
  end.

(** [acquireJob(job_id)]: the job pointer (as a slot index) and the value
    written to [job_id], or [None] for [nullptr]. *)
Definition acquireJob (fuel : nat) : M (option (Z * Z)) :=
  ready <- isJobPoolReady;
  if ready : bool then
    index <- distribution;
    r <- acquire_loop fuel index 0;
    match r with
    | Some index =>
        max <- gets (fun s => max_hw_jobs (st_pool s));
        ret (Some (index, to_UInt32 (max - index)))
    | None => ret None
    end
  else ret None.

Definition releaseJob (job_id : Z) : M unit :=
  ready <- isJobPoolReady;
  if ready : bool then
    max <- gets (fun s => max_hw_jobs (st_pool s));
    unLockJob (to_UInt32 (max - job_id))
  else ret tt.

(** ** QPL primitives on pool jobs (hardware path) *)

Definition hw_job (index : Z) (s : State) : qpl_job :=
  default blank_job (hw_jobs_buffer (st_pool s) !! Z.to_nat index).

Definition update_hw_job (index : Z) (f : qpl_job -> qpl_job) : M unit :=
  modify (fun s =>
    let p := st_pool s in
    with_pool (with_jobs (<[Z.to_nat index := f (hw_job index s)]> (hw_jobs_buffer p)) p) s).

(** What one observation of the device does to the program state: time
    passes; unless the job is still in progress, the bytes the device has
    produced are at [next_out_ptr] and their number is in [total_out]. *)
Definition device_observe (index : Z) : M qpl_status :=
  fun s =>
    let r := hw_reply (st_env s) (st_clock s) index (hw_job index s) in
    let s1 := tick s in
    if status_in_progress (fst r) then (Ret (fst r), s1)
    else
      let j := hw_job index s1 in
      let s2 := with_mem (store (st_mem s1) (next_out_ptr j) (snd r)) s1 in
      match update_hw_job index (set_total_out (to_UInt32 (Z.of_nat (length (snd r))))) s2 with
      | (_, s3) => (Ret (fst r), s3)
      end.

Definition hw_execute_job (index : Z) : M qpl_status :=
  job <- gets (hw_job index);
  status <- device_observe index;
  modify (log (EvHwExecute index job status));;
  ret status.

Definition hw_check_job (index : Z) : M qpl_status :=
  status <- device_observe index;
  modify (log (EvHwCheck index status));;
  ret status.

Definition hw_submit_job (index : Z) : M qpl_status :=
  fun s =>
    let status := hw_submit_status (st_env s) (st_clock s) index in
    (Ret status, log (EvHwSubmit index (hw_job index s) status) (tick s)).

(** [_tpause(1, __rdtsc() + 1000)] *)
Definition tpause : M unit := modify (log EvPause).

(** ** std::map<UInt32, qpl_job *> *)

(** [insert]: keeps the keys sorted and leaves an existing key alone. *)
Fixpoint map_insert (k v : Z) (m : list (Z * Z)) : list (Z * Z) :=
  match m with
  | [] => [(k, v)]
  | (k', v') :: m' =>
      if k <? k' then (k, v) :: m
      else if k =? k' then m
      else (k', v') :: map_insert k v m'
  end.

(** ** SoftwareCodecDeflateQpl *)

Definition sw_destructor : M unit :=
  j <- gets sw_job;
  match j with
  | None => modify (log (EvFini None))
  | Some _ => ret tt
  end.

Definition getJobCodecPtr : M unit :=
  j <- gets sw_job;
  match j with
  | None =>
      modify (with_sw_job (Some blank_job));;
      status <- gets (fun s => sw_init_status (st_env s));
      modify (log (EvSwInit status));;
      if status_is_ok status then ret tt
      else throw {| exn_code := CANNOT_COMPRESS; exn_site := SwInitFailed; exn_status := status |}
  | Some _ => ret tt
  end.

Definition the_sw_job (s : State) : qpl_job := default blank_job (sw_job s).

Definition update_sw_job (f : qpl_job -> qpl_job) : M unit :=
  modify (fun s => with_sw_job (Some (f (the_sw_job s))) s).

(** [qpl_execute_job(sw_job)] on the software path. *)
Definition sw_execute_job : M qpl_status :=
  fun s =>
    let j := the_sw_job s in
    let input := load (st_mem s) (next_in_ptr j) (Z.to_nat (available_in j)) in
    let r := sw_engine (st_env s) j input in
    let s1 := with_mem (store (st_mem s) (next_out_ptr j) (snd r)) s in
    let s2 := with_sw_job (Some (set_total_out (to_UInt32 (Z.of_nat (length (snd r)))) j)) s1 in
    (Ret (fst r), log (EvSwExecute j (fst r)) s2).

Definition sw_doCompressData (source source_size dest dest_size : Z) : M Z :=
  getJobCodecPtr;;
  update_sw_job (configure_compress source source_size dest dest_size);;
  status <- sw_execute_job;
  if status_is_ok status then gets (fun s => total_out (the_sw_job s))
  else throw {| exn_code := CANNOT_COMPRESS; exn_site := SwExecutionFailed; exn_status := status |}.

Definition sw_doDecompressData (source source_size dest uncompressed_size : Z) : M unit :=
  getJobCodecPtr;;
  update_sw_job (configure_decompress source source_size dest uncompressed_size);;
  status <- sw_execute_job;
  if status_is_ok status then ret tt
  else throw {| exn_code := CANNOT_DECOMPRESS; exn_site := SwExecutionFailed; exn_status := status |}.

(** ** HardwareCodecDeflateQpl *)

Definition hw_doCompressData (fuel : nat) (source source_size dest dest_size : Z) : M Z :=
  r <- acquireJob fuel;
  match r with
  | None => ret RET_ERROR
  | Some (job_ptr, job_id) =>
      update_hw_job job_ptr (configure_compress source source_size dest dest_size);;
      status <- hw_execute_job job_ptr;
      if status_is_ok status then
        compressed_size <- gets (fun s => total_out (hw_job job_ptr s));
        releaseJob job_id;;
        ret (to_Int32 compressed_size)
      else
        releaseJob job_id;;
        ret RET_ERROR
  end.

(** [do { _tpause(..); status = qpl_check_job(job_ptr); } while (status == QPL_STS_BEING_PROCESSED)] *)
Fixpoint poll_loop (fuel : nat) (job_ptr : Z) : M qpl_status :=
  match fuel with
  | O => no_result
  | S fuel' =>
      tpause;;
      status <- hw_check_job job_ptr;
      if status_in_progress status then poll_loop fuel' job_ptr
      else ret status
  end.

Definition hw_doDecompressDataSynchronous (fuel : nat)
    (source source_size dest uncompressed_size : Z) : M Z :=
  r <- acquireJob fuel;
  match r with
  | None => ret RET_ERROR
  | Some (job_ptr, job_id) =>
      update_hw_job job_ptr (configure_decompress source source_size dest uncompressed_size);;
      status <- hw_submit_job job_ptr;
      if negb (status_is_ok status) then
        releaseJob job_id;;
        ret RET_ERROR
      else
        status <- poll_loop fuel job_ptr;
        if negb (status_is_ok status) then
          releaseJob job_id;;
          ret RET_ERROR
        else
          decompressed_size <- gets (fun s => total_out (hw_job job_ptr s));
          releaseJob job_id;;
          ret (to_Int32 decompressed_size)
  end.

Definition hw_doDecompressDataAsynchronous (fuel : nat)
    (source source_size dest uncompressed_size : Z) : M Z :=
  r <- acquireJob fuel;
  match r with
  | None => ret RET_ERROR
  | Some (job_ptr, job_id) =>
      update_hw_job job_ptr (configure_decompress source source_size dest uncompressed_size);;
      status <- hw_submit_job job_ptr;
      if status_is_ok status then
        modify (fun s => with_map (map_insert job_id job_ptr (decomp_async_job_map s)) s);;
        ret (to_Int32 job_id)
      else
        releaseJob job_id;;
        ret RET_ERROR
  end.

(** The tail of the loop body of the drain (lines 317-321): wrap the
    iterator from [end()] to [begin()], pausing once. *)
Definition wrap_iterator (it : nat) : M nat :=
  m <- gets decomp_async_job_map;
  if (it =? length m)%nat then tpause;; ret O
  else ret it.

(** The [while (n_jobs_processing)] loop of
    [HardwareCodecDeflateQpl::flushAsynchronousDecompressRequests]; the
    iterator [it] is a position in the sorted map.  Dereferencing [end()]
    has no defined result. *)
Fixpoint flush_loop (fuel : nat) (n_jobs_processing : nat) (it : nat) : M unit :=
  match n_jobs_processing with
  | O => ret tt
  | S n_rest =>
      match fuel with
      | O => no_result
      | S fuel' =>
          m <- gets decomp_async_job_map;
          match m !! it with
          | None => no_result
          | Some (job_id, job_ptr) =>
              status <- hw_check_job job_ptr;
              if status_in_progress status then
                it' <- wrap_iterator (S it);
                flush_loop fuel' n_jobs_processing it'
              else
                (if negb (status_is_ok status) then
                   j <- gets (hw_job job_ptr);
                   sw_doDecompressData (next_in_ptr j) (available_in j)
                                       (next_out_ptr j) (available_out j)
                 else ret tt);;
                modify (fun s => with_map (delete it (decomp_async_job_map s)) s);;
                releaseJob job_id;;
                match n_rest with
                | O => ret tt
                | S _ =>
                    it' <- wrap_iterator it;
                    flush_loop fuel' n_rest it'
                end
          end
      end
  end.

Definition hw_flushAsynchronousDecompressRequests (fuel : nat) : M unit :=
  n_jobs_processing <- gets (fun s => length (decomp_async_job_map s));
  flush_loop fuel n_jobs_processing O.

(** ** CompressionCodecDeflateQpl *)

Definition getMaxCompressedDataSize (uncompressed_size : Z) : Z :=
  to_UInt32 (uncompressed_size + Z.shiftr uncompressed_size 12
             + Z.shiftr uncompressed_size 14 + Z.shiftr uncompressed_size 25 + 13).

Definition doCompressData (fuel : nat) (source source_size dest : Z) : M Z :=
  ready <- isJobPoolReady;
  res <- (if ready : bool
          then hw_doCompressData fuel source source_size dest (getMaxCompressedDataSize source_size)
          else ret RET_ERROR);
  res <- (if res =? RET_ERROR
          then r <- sw_doCompressData source source_size dest (getMaxCompressedDataSize source_size);
               ret (to_Int32 r)
          else ret res);
  ret (to_UInt32 res).

(** [for (char * p = buffer; p < buffer + buffer_size; p += page) *p = 0;] *)
Fixpoint touch_loop (fuel : nat) (p limit page : Z) (m : Mem) : Mem :=
  match fuel with
  | O => m
  | S fuel' =>
      if p <? limit then touch_loop fuel' (p + page) limit page (store m p [0])
      else m
  end.

Definition touchBufferWithZeroFilling (buffer buffer_size : Z) : M unit :=
  modify (fun s =>
    with_mem (touch_loop (Z.to_nat buffer_size) buffer (buffer + buffer_size)
                         (Z.pos (page_size (st_env s))) (st_mem s)) s).

Definition getDecompressMode : M CodecMode := gets decompress_mode.
Definition setDecompressMode (c : CodecMode) : M unit := modify (with_mode c).

Definition doDecompressData (fuel : nat) (source source_size dest uncompressed_size : Z) : M unit :=
  touchBufferWithZeroFilling dest uncompressed_size;;
  mode <- getDecompressMode;
  match mode with
  | Synchronous =>
      ready <- isJobPoolReady;
      if ready : bool then
        res <- hw_doDecompressDataSynchronous fuel source source_size dest uncompressed_size;
        if res =? RET_ERROR
        then sw_doDecompressData source source_size dest uncompressed_size
        else ret tt
      else sw_doDecompressData source source_size dest uncompressed_size
  | Asynchronous =>
      ready <- isJobPoolReady;
      res <- (if ready : bool
              then hw_doDecompressDataAsynchronous fuel source source_size dest uncompressed_size
              else ret RET_ERROR);
      if res =? RET_ERROR
      then sw_doDecompressData source source_size dest uncompressed_size
      else ret tt
  | SoftwareFallback =>
      sw_doDecompressData source source_size dest uncompressed_size
  end.

Definition flushAsynchronousDecompressRequests (fuel : nat) : M unit :=
  ready <- isJobPoolReady;
  (if ready : bool then hw_flushAsynchronousDecompressRequests fuel else ret tt);;
  setDecompressMode Synchronous.

(** * Auxiliary definitions for the statements *)

(** ** Well-formed pools

    What the constructor establishes for a pool it marks ready: a capacity
    of at least one, within the range of the [int] distribution of line 68,
    and one flag and one job per slot (lines 72-73). *)
Definition pool_wf (p : DeflateQplJobHWPool) : Prop :=
  0 < max_hw_jobs p <= 2 ^ 31
  /\ length (hw_job_ptr_locks p) = Z.to_nat (max_hw_jobs p)
  /\ length (hw_jobs_buffer p) = Z.to_nat (max_hw_jobs p).

Definition is_failed_lock (e : Event) : bool :=
  match e with EvTryLock _ false => true | _ => false end.

Definition failed_locks (evs : list Event) : nat :=
  length (List.filter is_failed_lock evs).

(** The state after a step that only drew random numbers, logged events
    and changed slot flags. *)
Definition pool_step (locks : list bool) (draws : nat) (evs : list Event) (s : State) : State :=
  {| st_mem := st_mem s;
     st_pool := with_engine (draws + random_engine (st_pool s))
                            (with_locks locks (st_pool s));
     sw_job := sw_job s;
     decomp_async_job_map := decomp_async_job_map s;
     decompress_mode := decompress_mode s;
     st_clock := st_clock s; st_env := st_env s;
     st_trace := evs ++ st_trace s |}.

Definition locks_of (s : State) : list bool := hw_job_ptr_locks (st_pool s).
Definition capacity (s : State) : Z := max_hw_jobs (st_pool s).

(** The state in which the retry loop continues after a failed attempt:
    the failure is logged and one more index has been drawn. *)
Definition after_failed_lock (index : Z) (s : State) : State :=
  with_pool (with_engine (S (random_engine (st_pool s))) (st_pool s))
            (log (EvTryLock index false) s).

Definition next_index (s : State) : Z :=
  rng_raw (st_env s) (random_engine (st_pool s)) mod capacity s.

(** ** Concrete environments and states

    Used to instantiate the theorems below. *)

(** An environment in which the random engine counts upwards, every
    submission is accepted, a hardware job is in progress until time
    [latency] and then reports [hw_final] with output [hw_out], and the
    software engine copies its input and fails on an empty one; neither
    engine writes more than [available_out] bytes. *)
Definition example_env (latency : nat) (hw_final : qpl_status) (hw_out : list Z) : Environment :=
  {| rng_raw := fun n => Z.of_nat n;
     hw_submit_status := fun _ _ => QPL_STS_OK;
     hw_reply := fun t _ j =>
       if (t <? latency)%nat then (QPL_STS_BEING_PROCESSED, [])
       else (hw_final, take (Z.to_nat (available_out j)) hw_out);
     sw_init_status := QPL_STS_OK;
     sw_engine := fun j input =>
       match input with
       | [] => (QPL_STS_ERROR 5, [])
       | _ => (QPL_STS_OK, take (Z.to_nat (available_out j)) input)
       end;
     page_size := 4096%positive |}.

Definition example_pool (ready : bool) (locks : list bool) : DeflateQplJobHWPool :=
  {| max_hw_jobs := Z.of_nat (length locks); job_pool_ready := ready;
     hw_job_ptr_locks := locks;
     hw_jobs_buffer := replicate (length locks) blank_job;
     random_engine := 0 |}.

Definition example_state (e : Environment) (ready : bool) (locks : list bool)
    (mode : CodecMode) : State :=
  {| st_mem := fun a => a mod 256; st_pool := example_pool ready locks;
     sw_job := None; decomp_async_job_map := []; decompress_mode := mode;
     st_clock := 0; st_env := e; st_trace := [] |}.

(** ** The hardware entry points after a successful [acquireJob] *)

Definition hw_compress_with (source source_size dest dest_size job_ptr job_id : Z) : M Z :=
  update_hw_job job_ptr (configure_compress source source_size dest dest_size);;
  status <- hw_execute_job job_ptr;
  if status_is_ok status then
    compressed_size <- gets (fun s => total_out (hw_job job_ptr s));
    releaseJob job_id;;
    ret (to_Int32 compressed_size)
  else
    releaseJob job_id;;
    ret RET_ERROR.

Definition hw_decompress_sync_with (fuel : nat)
    (source source_size dest uncompressed_size job_ptr job_id : Z) : M Z :=
  update_hw_job job_ptr (configure_decompress source source_size dest uncompressed_size);;
  status <- hw_submit_job job_ptr;
  if negb (status_is_ok status) then
    releaseJob job_id;;
    ret RET_ERROR
  else
    status <- poll_loop fuel job_ptr;
    if negb (status_is_ok status) then
      releaseJob job_id;;
      ret RET_ERROR
    else
      decompressed_size <- gets (fun s => total_out (hw_job job_ptr s));
      releaseJob job_id;;
      ret (to_Int32 decompressed_size).

Definition hw_decompress_async_with
    (source source_size dest uncompressed_size job_ptr job_id : Z) : M Z :=
  update_hw_job job_ptr (configure_decompress source source_size dest uncompressed_size);;
  status <- hw_submit_job job_ptr;
  if status_is_ok status then
    modify (fun s => with_map (map_insert job_id job_ptr (decomp_async_job_map s)) s);;
    ret (to_Int32 job_id)
  else
    releaseJob job_id;;
    ret RET_ERROR.

(** Events of the software engine. *)
Definition is_sw_event (e : Event) : bool :=
  match e with
  | EvSwInit _ | EvSwExecute _ _ | EvFini _ => true
  | _ => false
  end.

(** The four buffer fields of a job resource. *)
Definition job_buffers (j : qpl_job) : Z * Z * Z * Z :=
  (next_in_ptr j, available_in j, next_out_ptr j, available_out j).

Definition buffers_dest (b : Z * Z * Z * Z) : Z := snd (fst b).
Definition buffers_dest_size (b : Z * Z * Z * Z) : Z := snd b.

(** An event a hardware entry point may log while working on the buffers
    [b]: no software event, and every job handed to the device carries
    exactly these buffers. *)
Definition hw_event_on (b : Z * Z * Z * Z) (e : Event) : Prop :=
  match e with
  | EvHwExecute _ j _ | EvHwSubmit _ j _ => job_buffers j = b
  | EvSwInit _ | EvSwExecute _ _ | EvFini _ => False
  | _ => True
  end.

(** The external engines never produce more than [available_out] bytes. *)
Definition env_respects_capacity (e : Environment) : Prop :=
  (forall t i j, 0 <= available_out j ->
                 Z.of_nat (length (snd (hw_reply e t i j))) <= available_out j) /\
  (forall j input, 0 <= available_out j ->
                   Z.of_nat (length (snd (sw_engine e j input))) <= available_out j).

(** What a hardware entry point may have changed between [s] and [s']
    when it ran on the locked slot [job_ptr] with the buffers [b]: the
    clock, the log (hardware events only), the job in that slot, and
    memory by one write of device output at the destination. *)
Record hw_touched (job_ptr : Z) (b : Z * Z * Z * Z) (s s' : State) : Prop := {
  ht_env : st_env s' = st_env s;
  ht_sw_job : sw_job s' = sw_job s;
  ht_mode : decompress_mode s' = decompress_mode s;
  ht_ready : job_pool_ready (st_pool s') = job_pool_ready (st_pool s);
  ht_capacity : capacity s' = capacity s;
  ht_engine : random_engine (st_pool s') = random_engine (st_pool s);
  ht_jobs_len : length (hw_jobs_buffer (st_pool s')) = length (hw_jobs_buffer (st_pool s));
  ht_jobs : forall k, k <> Z.to_nat job_ptr ->
            hw_jobs_buffer (st_pool s') !! k = hw_jobs_buffer (st_pool s) !! k;
  ht_clock : (st_clock s <= st_clock s')%nat;
  ht_trace : exists evs, st_trace s' = evs ++ st_trace s /\
                         Forall (hw_event_on b) evs;
  ht_mem : st_mem s' = st_mem s \/
           exists t j, job_buffers j = b /\
                       st_mem s' = store (st_mem s) (buffers_dest b)
                                         (snd (hw_reply (st_env s) t job_ptr j))
}.

(** What a whole hardware entry point (acquire, run, release) may have
    changed: random draws, the clock, the log (no software events), jobs
    in slots that were free, and memory by one write of device output at
    the destination. *)
Record hw_called (b : Z * Z * Z * Z) (s s' : State) : Prop := {
  hc_env : st_env s' = st_env s;
  hc_sw_job : sw_job s' = sw_job s;
  hc_mode : decompress_mode s' = decompress_mode s;
  hc_ready : job_pool_ready (st_pool s') = job_pool_ready (st_pool s);
  hc_capacity : capacity s' = capacity s;
  hc_jobs_len : length (hw_jobs_buffer (st_pool s')) = length (hw_jobs_buffer (st_pool s));
  hc_jobs : forall k, locks_of s !! k = Some true ->
            hw_jobs_buffer (st_pool s') !! k = hw_jobs_buffer (st_pool s) !! k;
  hc_clock : (st_clock s <= st_clock s')%nat;
  hc_trace : exists evs, st_trace s' = evs ++ st_trace s /\
                         Forall (hw_event_on b) evs;
  hc_mem : st_mem s' = st_mem s \/
           exists t i j, job_buffers j = b /\
                         st_mem s' = store (st_mem s) (buffers_dest b)
                                           (snd (hw_reply (st_env s) t i j))
}.

(** ** The software engine, spelled out *)

Definition sw_init_events (s : State) : list Event :=
  match sw_job s with
  | None => [EvSwInit (sw_init_status (st_env s))]
  | Some _ => []
  end.

(** The lazily created resource cannot be initialised. *)
Definition sw_init_fails (s : State) : bool :=
  match sw_job s with
  | None => negb (status_is_ok (sw_init_status (st_env s)))
  | Some _ => false
  end.

Definition sw_init_failure {A} (s : State) : Outcome A * State :=
  (Throw {| exn_code := CANNOT_COMPRESS; exn_site := SwInitFailed;
            exn_status := sw_init_status (st_env s) |},
   log (EvSwInit (sw_init_status (st_env s))) (with_sw_job (Some blank_job) s)).

(** The state after the software engine ran the configured job [j] and
    produced [out]. *)
Definition sw_ran (j : qpl_job) (status : qpl_status) (out : list Z) (s : State) : State :=
  {| st_mem := store (st_mem s) (next_out_ptr j) out;
     st_pool := st_pool s;
     sw_job := Some (set_total_out (to_UInt32 (Z.of_nat (length out))) j);
     decomp_async_job_map := decomp_async_job_map s;
     decompress_mode := decompress_mode s;
     st_clock := st_clock s; st_env := st_env s;
     st_trace := EvSwExecute j status :: sw_init_events s ++ st_trace s |}.

(** The answer of the software engine to a decompress request made in [s]. *)
Definition sw_decompress_reply (source source_size dest uncompressed_size : Z) (s : State)
  : qpl_status * list Z :=
  sw_engine (st_env s)
    (configure_decompress source source_size dest uncompressed_size (the_sw_job s))
    (load (st_mem s) source (Z.to_nat source_size)).

Definition sw_compress_reply (source source_size dest dest_size : Z) (s : State)
  : qpl_status * list Z :=
  sw_engine (st_env s)
    (configure_compress source source_size dest dest_size (the_sw_job s))
    (load (st_mem s) source (Z.to_nat source_size)).

(** ** The orchestrating codec, spelled out *)

(** The state after [touchBufferWithZeroFilling dest size]. *)
Definition touched (dest size : Z) (s : State) : State :=
  with_mem (touch_loop (Z.to_nat size) dest (dest + size)
                       (Z.pos (page_size (st_env s))) (st_mem s)) s.

(** Nothing that belongs to a pending asynchronous job changed between
    [s] and [s']: the map, the slot flags, and the job of every held slot. *)
Definition pending_untouched (s s' : State) : Prop :=
  decomp_async_job_map s' = decomp_async_job_map s /\
  locks_of s' = locks_of s /\
  forall k, locks_of s !! k = Some true ->
            hw_jobs_buffer (st_pool s') !! k = hw_jobs_buffer (st_pool s) !! k.

(** The software compress as the codec issues it (line 426), with the
    conversions of its result through [Int32 res] to the [UInt32] returned. *)
Definition sw_compress_call (source source_size dest : Z) : M Z :=
  r <- sw_doCompressData source source_size dest (getMaxCompressedDataSize source_size);
  ret (to_UInt32 (to_Int32 r)).

(** The hardware attempt of a decompress call in the given mode. *)
Definition hw_decompress_entry (mode : CodecMode) (fuel : nat)
    (source source_size dest uncompressed_size : Z) : M Z :=
  match mode with
  | Synchronous => hw_doDecompressDataSynchronous fuel source source_size dest uncompressed_size
  | Asynchronous => hw_doDecompressDataAsynchronous fuel source source_size dest uncompressed_size
  | SoftwareFallback => ret RET_ERROR
  end.

(** An event of a compress or decompress call on the buffers [b]: every
    job handed to an engine, hardware or software, carries these buffers. *)
Definition call_event_on (b : Z * Z * Z * Z) (e : Event) : Prop :=
  match e with
  | EvHwExecute _ j _ | EvHwSubmit _ j _ | EvSwExecute j _ => job_buffers j = b
  | _ => True
  end.

(** The same state with the pool marked not ready: the codec then runs on
    the software path only. *)
Definition software_only (s : State) : State :=
  with_pool {| max_hw_jobs := max_hw_jobs (st_pool s); job_pool_ready := false;
               hw_job_ptr_locks := hw_job_ptr_locks (st_pool s);
               hw_jobs_buffer := hw_jobs_buffer (st_pool s);
               random_engine := random_engine (st_pool s) |} s.

(** Every hardware submission and every hardware execution fails. *)
Definition hardware_fails (e : Environment) : Prop :=
  (forall t i, status_is_ok (hw_submit_status e t i) = false) /\
  (forall t i j, status_is_ok (fst (hw_reply e t i j)) = false).

(** Source and destination buffers do not overlap. *)
Definition buffers_disjoint (source source_size dest dest_size : Z) : Prop :=
  0 <= source_size /\ 0 <= dest_size /\
  (source + source_size <= dest \/ dest + dest_size <= source).

(** An environment whose accelerator refuses every submission and fails
    every execution; the software engine is that of [example_env]. *)
Definition example_failing_env : Environment :=
  {| rng_raw := fun n => Z.of_nat n;
     hw_submit_status := fun _ _ => QPL_STS_ERROR 3;
     hw_reply := fun _ _ _ => (QPL_STS_ERROR 7, []);
     sw_init_status := QPL_STS_OK;
     sw_engine := sw_engine (example_env 0 QPL_STS_OK []);
     page_size := 4096%positive |}.

(** ** The drain, one iteration at a time *)

(** One pass through the body of the [while (n_jobs_processing)] loop:
    [Some (n, it)] are the counter and iterator with which the loop goes on,
    [None] is the exit of the loop. *)
Definition flush_iter (n_jobs_processing it : nat) : M (option (nat * nat)) :=
  match n_jobs_processing with
  | O => ret None
  | S n_rest =>
      m <- gets decomp_async_job_map;
      match m !! it with
      | None => no_result
      | Some (job_id, job_ptr) =>
          status <- hw_check_job job_ptr;
          if status_in_progress status then
            it' <- wrap_iterator (S it);
            ret (Some (n_jobs_processing, it'))
          else
            (if negb (status_is_ok status) then
               j <- gets (hw_job job_ptr);
               sw_doDecompressData (next_in_ptr j) (available_in j)
                                   (next_out_ptr j) (available_out j)
             else ret tt);;
            modify (fun s => with_map (delete it (decomp_async_job_map s)) s);;
            releaseJob job_id;;
            match n_rest with
            | O => ret None
            | S _ =>
                it' <- wrap_iterator it;
                ret (Some (n_rest, it'))
            end
      end
  end.

(** How the loop goes on after an iteration. *)
Definition loop_after (loop : nat -> nat -> M unit)
    (r : Outcome (option (nat * nat)) * State) : Outcome unit * State :=
  match r with
  | (Ret (Some (n', it')), s1) => loop n' it' s1
  | (Ret None, s1) => (Ret tt, s1)
  | (Throw e, s1) => (Throw e, s1)
  | (NoResult, s1) => (NoResult, s1)
  end.

(** The slot a handle maps back to ([releaseJob], line 128). *)
Definition slot_of (s : State) (job_id : Z) : Z := to_UInt32 (capacity s - job_id).

(** An entry of the pending map as [doDecompressDataAsynchronous] makes
    it: the pointer to the job of a slot, under that slot's handle. *)
Definition entry_wf (s : State) (e : Z * Z) : Prop :=
  0 <= snd e < capacity s /\ fst e = capacity s - snd e.

(** A [std::map] holds each key once. *)
Definition map_wf (s : State) : Prop :=
  Forall (entry_wf s) (decomp_async_job_map s) /\
  NoDup (List.map fst (decomp_async_job_map s)).

(** The state once the device has been seen to have left the in-progress
    state on the job in slot [index], having written [out]. *)
Definition device_done (index : Z) (out : list Z) (s : State) : State :=
  let j := hw_job index s in
  with_pool
    (with_jobs (<[Z.to_nat index := set_total_out (to_UInt32 (Z.of_nat (length out))) j]>
                  (hw_jobs_buffer (st_pool s)))
               (st_pool s))
    (with_mem (store (st_mem s) (next_out_ptr j) out) s).

(** What no iteration of the drain changes. *)
Record drain_frame (s s' : State) : Prop := {
  df_env : st_env s' = st_env s;
  df_ready : job_pool_ready (st_pool s') = job_pool_ready (st_pool s);
  df_capacity : capacity s' = capacity s;
  df_mode : decompress_mode s' = decompress_mode s;
  df_locks_len : length (locks_of s') = length (locks_of s);
  df_jobs_len : length (hw_jobs_buffer (st_pool s')) = length (hw_jobs_buffer (st_pool s));
  df_buffers : forall k, job_buffers (hw_job k s') = job_buffers (hw_job k s);
  df_clock : (st_clock s <= st_clock s')%nat
}.

(** The software engine cannot fail in [s]: its resource exists or can be
    initialised, and every execution succeeds. *)
Definition sw_never_fails (s : State) : Prop :=
  sw_init_fails s = false /\
  forall j input, status_is_ok (fst (sw_engine (st_env s) j input)) = true.

(** The log of a drain that returned, oldest event first, and the entries
    it resolved in that order.  An entry is resolved by one final check of
    its job; after a failed check the software engine runs, successfully, on
    the buffers recorded on the job; then the slot is released. *)
Inductive drain_log (bufs : Z -> Z * Z * Z * Z) (slot : Z -> Z)
  : list (Z * Z) -> list Event -> Prop :=
| dl_nil : drain_log bufs slot [] []
| dl_busy ptr done log :
    drain_log bufs slot done log ->
    drain_log bufs slot done (EvHwCheck ptr QPL_STS_BEING_PROCESSED :: log)
| dl_pause done log :
    drain_log bufs slot done log ->
    drain_log bufs slot done (EvPause :: log)
| dl_ok id ptr done log :
    drain_log bufs slot done log ->
    drain_log bufs slot ((id, ptr) :: done)
              (EvHwCheck ptr QPL_STS_OK :: EvUnLock (slot id) :: log)
| dl_substituted id ptr code init j done log :
    init = [] \/ init = [EvSwInit QPL_STS_OK] ->
    job_buffers j = bufs ptr ->
    drain_log bufs slot done log ->
    drain_log bufs slot ((id, ptr) :: done)
              (EvHwCheck ptr (QPL_STS_ERROR code)
                 :: init ++ EvSwExecute j QPL_STS_OK :: EvUnLock (slot id) :: log).

(** Every pending job has left the in-progress state by time [T]. *)
Definition finishing (T : nat) (s : State) : Prop :=
  forall id ptr, In (id, ptr) (decomp_async_job_map s) ->
  forall t, (T <= t)%nat ->
    status_in_progress (fst (hw_reply (st_env s) t ptr (hw_job ptr s))) = false.

(** The slot flags after the slots of the entries [done] were released. *)
Definition release_all (s : State) (done : list (Z * Z)) (locks : list bool) : list bool :=
  fold_left (fun l e => <[Z.to_nat (slot_of s (fst e)) := false]> l) done locks.

(** How far a drain is from its end when every pending job finishes by [T]. *)
Definition drain_measure (T : nat) (s : State) : nat :=
  (T - st_clock s) + length (decomp_async_job_map s).

(** One iteration of the drain that did not throw: it resolved the entries
    [resolved] (none or one) and logged [log], oldest event first. *)
Record drain_step (s : State) (resolved : list (Z * Z)) (log : list Event) (s1 : State)
  : Prop := {
  ds_frame : drain_frame s s1;
  ds_map : decomp_async_job_map s ≡ₚ resolved ++ decomp_async_job_map s1;
  ds_locks : locks_of s1 = release_all s resolved (locks_of s);
  ds_trace : st_trace s1 = rev log ++ st_trace s;
  ds_log : drain_log (fun ptr => job_buffers (hw_job ptr s)) (slot_of s) resolved log;
  ds_jobs : forall e, In e (decomp_async_job_map s1) -> hw_job (snd e) s1 = hw_job (snd e) s;
  ds_measure : forall T, finishing T s -> (drain_measure T s1 < drain_measure T s)%nat;
  ds_sw : sw_never_fails s -> sw_never_fails s1
}.

(** The counter and iterator an iteration hands to the next one. *)
Definition next_ok (next : option (nat * nat)) (s1 : State) : Prop :=
  match next with
  | None => decomp_async_job_map s1 = []
  | Some (n', it') => n' = length (decomp_async_job_map s1) /\ (it' < n')%nat
  end.

(** What a drain has done between [s] and [s'] when it resolved the
    entries [resolved]: they left the map and their slots were released. *)
Record drained (s : State) (resolved : list (Z * Z)) (s' : State) : Prop := {
  dr_frame : drain_frame s s';
  dr_map : decomp_async_job_map s ≡ₚ resolved ++ decomp_async_job_map s';
  dr_locks : locks_of s' = release_all s resolved (locks_of s)
}.

(** The slot balance of one engine that shares the pool: the held slots
    are those held elsewhere ([others], the slots registered with other
    engines) and those of the entries of this engine's pending map, and
    the two do not meet. *)
Definition slot_balance (others : list nat) (s : State) : Prop :=
  (forall k, locks_of s !! k = Some true <->
             (In k others \/
              exists id ptr, In (id, ptr) (decomp_async_job_map s) /\ Z.to_nat ptr = k)) /\
  (forall id ptr, In (id, ptr) (decomp_async_job_map s) -> ~ In (Z.to_nat ptr) others).

(** What holds of an engine and the shared pool between two calls of the
    hardware entry points. *)
Definition pool_balanced (others : list nat) (s : State) : Prop :=
  job_pool_ready (st_pool s) = true /\ pool_wf (st_pool s) /\
  map_wf s /\ slot_balance others s.

(** ** Callers sharing the pool

    Threads interleave at their accesses to the shared pool.  A thread is
    outside the pool's functions or at one of the program points of
    [acquireJob] between two such accesses, and keeps the handles that
    [acquireJob] has given it and that it has not yet passed to
    [releaseJob]. *)
Inductive ProgramPoint :=
| Outside
| AtLoopTest (index retry : Z)
| InLoopBody (retry : Z).

Record Thread := { pc : ProgramPoint; held : list Z }.

Definition at_point (p : ProgramPoint) (th : Thread) : Thread :=
  {| pc := p; held := held th |}.

Inductive Action :=
| CallAcquire
| LoopTest
| LoopBody
| CallRelease (job_id : Z).

Fixpoint remove_one (job_id : Z) (l : list Z) : list Z :=
  match l with
  | [] => []
  | x :: l' => if x =? job_id then l' else x :: remove_one job_id l'
  end.

(** One step of a thread on the shared state; [None] when the action is
    not the thread's next one.  [CallAcquire] is lines 105-108 (the entry
    of [acquireJob] up to the first draw), [LoopTest] the loop condition
    of line 109 with lines 118-120 when the slot was locked, [LoopBody]
    lines 111-116, and [CallRelease] is [releaseJob] on a handle the thread
    holds.  The flags are [std::atomic_bool] with the default sequentially
    consistent order, so each access is one step; a draw from the shared
    random engine is taken with the step that makes it. *)
Definition thread_step (a : Action) (th : Thread) : M (option Thread) :=
  match a, pc th with
  | CallAcquire, Outside =>
      ready <- isJobPoolReady;
      if ready : bool then
        index <- distribution;
        ret (Some (at_point (AtLoopTest index 0) th))
      else ret (Some th)
  | LoopTest, AtLoopTest index retry =>
      locked <- tryLockJob index;
      if locked : bool then
        max <- gets (fun s => max_hw_jobs (st_pool s));
        ret (Some {| pc := Outside; held := to_UInt32 (max - index) :: held th |})
      else ret (Some (at_point (InLoopBody retry) th))
  | LoopBody, InLoopBody retry =>
      index' <- distribution;
      let retry' := to_UInt32 (retry + 1) in
      max <- gets (fun s => max_hw_jobs (st_pool s));
      if retry' >? max then ret (Some (at_point Outside th))
      else ret (Some (at_point (AtLoopTest index' retry') th))
  | CallRelease job_id, Outside =>
      if existsb (Z.eqb job_id) (held th) then
        releaseJob job_id;;
        ret (Some {| pc := Outside; held := remove_one job_id (held th) |})
      else ret None
  | _, _ => ret None
  end.

Record Config := { shared : State; threads : list Thread }.

(** Thread [t] takes the step [a]. *)
Definition step (t : nat) (a : Action) (c : Config) : option Config :=
  match threads c !! t with
  | Some th =>
      match thread_step a th (shared c) with
      | (Ret (Some th'), s') => Some {| shared := s'; threads := <[t := th']> (threads c) |}
      | _ => None
      end
  | None => None
  end.

(** An interleaving is a schedule: who takes which step, in order. *)
Fixpoint interleave (schedule : list (nat * Action)) (c : Config) : option Config :=
  match schedule with
  | [] => Some c
  | (t, a) :: rest =>
      match step t a c with
      | Some c' => interleave rest c'
      | None => None
      end
  end.

(** How many of the handles a thread holds are handles of slot [index]. *)
Definition holds_slot (s : State) (index : Z) (th : Thread) : nat :=
  length (List.filter (fun job_id => slot_of s job_id =? index) (held th)).

(** The number of live holders of slot [index]. *)
Definition holders (c : Config) (index : Z) : nat :=
  list_sum (List.map (holds_slot (shared c) index) (threads c)).

Definition lock_bit (s : State) (index : Z) : nat :=
  match locks_of s !! Z.to_nat index with
  | Some true => 1
  | _ => 0
  end.

(** [n] threads that have not called the pool yet. *)
Definition fresh_threads (n : nat) : list Thread :=
  replicate n {| pc := Outside; held := [] |}.

(** What the interleavings keep: a slot has no more holders than its
    flag says, and a thread about to test a slot has drawn it in range. *)
Definition pool_inv (c : Config) : Prop :=
  pool_wf (st_pool (shared c)) /\
  (forall index, 0 <= index -> (holders c index <= lock_bit (shared c) index)%nat) /\
  (forall t th index retry,
      threads c !! t = Some th -> pc th = AtLoopTest index retry ->
      0 <= index < capacity (shared c)).

(** * Construction and teardown

    The rest of the file: the constructor and the destructor of the pool
    and the destructor of the hardware engine. *)

(** What the constructor of the pool learns from outside the file: the
    status of [accfg_new], the work queues of each device with the sizes
    [accfg_wq_get_size] reports for them, and the status of
    [qpl_init_job(qpl_path_hardware, _)] on the job of each slot. *)
Record Discovery := {
  ctx_status : Z;
  wq_sizes : list (list Z);
  hw_init_status : Z -> qpl_status
}.

Definition with_ready (b : bool) (p : DeflateQplJobHWPool) : DeflateQplJobHWPool :=
  {| max_hw_jobs := max_hw_jobs p; job_pool_ready := b;
     hw_job_ptr_locks := hw_job_ptr_locks p; hw_jobs_buffer := hw_jobs_buffer p;
     random_engine := random_engine p |}.

Definition with_max (n : Z) (p : DeflateQplJobHWPool) : DeflateQplJobHWPool :=
  {| max_hw_jobs := n; job_pool_ready := job_pool_ready p;
     hw_job_ptr_locks := hw_job_ptr_locks p; hw_jobs_buffer := hw_jobs_buffer p;
     random_engine := random_engine p |}.

Definition set_ready (b : bool) : M unit :=
  modify (fun s => with_pool (with_ready b (st_pool s)) s).

(** Lines 47-53: [max_hw_jobs += accfg_wq_get_size(wq_ptr)] over the work
    queues of every device.  [max_hw_jobs] is a [UInt32], as are the
    counters it is compared with in lines 75, 93 and 113. *)
Definition total_wq_size (devices : list (list Z)) : Z :=
  fold_left (fun acc device => fold_left (fun a size => to_UInt32 (a + size)) device acc)
            devices 0.

(** The loop of lines 75-85 with the statement that follows it: the jobs
    of the slots [index], [index + 1], ... ([count] of them) are
    initialised and their flags cleared, and the pool is marked ready; the
    first job that cannot be initialised marks the pool not ready and ends
    the constructor. *)
Fixpoint init_jobs (d : Discovery) (count : nat) (index : Z) : M unit :=
  match count with
  | O => set_ready true
  | S count' =>
      if negb (status_is_ok (hw_init_status d index)) then set_ready false
      else
        unLockJob index;;
        init_jobs d count' (index + 1)
  end.

(** [DeflateQplJobHWPool::DeflateQplJobHWPool()].  The arrays of lines
    72-73 are value-initialised: blank jobs and clear flags. *)
Definition pool_constructor (d : Discovery) : M unit :=
  modify (with_pool {| max_hw_jobs := 0; job_pool_ready := false;
                       hw_job_ptr_locks := []; hw_jobs_buffer := [];
                       random_engine := 0 |});;
  if ctx_status d =? 0 then
    modify (fun s => with_pool (with_max (total_wq_size (wq_sizes d)) (st_pool s)) s);;
    max <- gets (fun s => max_hw_jobs (st_pool s));
    if max =? 0 then set_ready false
    else
      modify (fun s => with_pool (with_jobs (replicate (Z.to_nat max) blank_job) (st_pool s)) s);;
      modify (fun s => with_pool (with_locks (replicate (Z.to_nat max) false) (st_pool s)) s);;
      init_jobs d (Z.to_nat max) 0
  else set_ready false.

(** [while (!tryLockJob(i));] *)
Fixpoint spin_lock (fuel : nat) (i : Z) : M unit :=
  match fuel with
  | O => no_result
  | S fuel' =>
      locked <- tryLockJob i;
      if locked : bool then ret tt else spin_lock fuel' i
  end.

(** The loop of the pool's destructor (lines 93-99) over the slots [i],
    [i + 1], ... ([count] of them). *)
Fixpoint fini_jobs (fuel count : nat) (i : Z) : M unit :=
  match count with
  | O => ret tt
  | S count' =>
      spin_lock fuel i;;
      job <- gets (hw_job i);
      modify (log (EvFini (Some job)));;
      unLockJob i;;
      fini_jobs fuel count' (i + 1)
  end.

(** [DeflateQplJobHWPool::~DeflateQplJobHWPool()] *)
Definition pool_destructor (fuel : nat) : M unit :=
  max <- gets (fun s => max_hw_jobs (st_pool s));
  fini_jobs fuel (Z.to_nat max) 0;;
  set_ready false.

(** [for (auto it : decomp_async_job_map) releaseJob(it.first);] *)
Fixpoint release_each (m : list (Z * Z)) : M unit :=
  match m with
  | [] => ret tt
  | (job_id, _) :: m' => releaseJob job_id;; release_each m'
  end.

(** [HardwareCodecDeflateQpl::~HardwareCodecDeflateQpl()] as compiled with
    [NDEBUG] (lines 155-163); without [NDEBUG] the destructor is the
    assertion that the map is empty. *)
Definition hw_destructor : M unit :=
  m <- gets decomp_async_job_map;
  match m with
  | [] => ret tt
  | _ :: _ =>
      release_each m;;
      modify (with_map [])
  end.

(** ** Auxiliary definitions for the statements on the rest of the file *)

(** The sum of all work queue sizes, without wrap-around. *)
Definition wq_sum (devices : list (list Z)) : Z :=
  fold_right Z.add 0 (concat devices).

(** Every job of the slots below [total] can be initialised. *)
Definition all_jobs_initialise (d : Discovery) (total : Z) : Prop :=
  forall i, 0 <= i < total -> status_is_ok (hw_init_status d i) = true.

(** The pool a construction builds around a capacity. *)
Definition built_pool (max : Z) (ready : bool) : DeflateQplJobHWPool :=
  {| max_hw_jobs := max; job_pool_ready := ready;
     hw_job_ptr_locks := replicate (Z.to_nat max) false;
     hw_jobs_buffer := replicate (Z.to_nat max) blank_job;
     random_engine := 0 |}.

(** The events of [unLockJob] on the slots [index], [index + 1], ...
    ([n] of them), most recent first. *)
Fixpoint unlock_range (index : Z) (n : nat) : list Event :=
  match n with
  | O => []
  | S n' => unlock_range (index + 1) n' ++ [EvUnLock index]
  end.

(** How many jobs the loop of the constructor initialises from [index] on
    before it stops: all [count] of them, or those before the first one
    that fails. *)
Fixpoint initialised (d : Discovery) (count : nat) (index : Z) : nat :=
  match count with
  | O => O
  | S count' =>
      if status_is_ok (hw_init_status d index)
      then S (initialised d count' (index + 1))
      else O
  end.

(** The events of the pool's destructor on the free slots [i], [i + 1],
    ... ([n] of them), most recent first: each slot is locked, its job
    finalised, and the slot unlocked. *)
Fixpoint fini_range (s : State) (i : Z) (n : nat) : list Event :=
  match n with
  | O => []
  | S n' =>
      fini_range s (i + 1) n'
        ++ [EvUnLock i; EvFini (Some (hw_job i s)); EvTryLock i true]
  end.

(** A discovery of two devices with work queues of sizes 2, 1 and 1, on
    which every job can be initialised but the one of slot [bad]. *)
Definition example_discovery (bad : Z) : Discovery :=
  {| ctx_status := 0;
     wq_sizes := [[2; 1]; [1]];
     hw_init_status := fun i => if i =? bad then QPL_STS_ERROR 9 else QPL_STS_OK |}.

(** The events of releasing the slots of the entries [m] in order, most
    recent first. *)
Definition release_events (s : State) (m : list (Z * Z)) : list Event :=
  rev (List.map (fun e => EvUnLock (slot_of s (fst e))) m).

(** The slot index that the [k]-th draw from the random engine, counted
    from the state [s], gives. *)
Definition draw (s : State) (k : nat) : Z :=
  rng_raw (st_env s) (k + random_engine (st_pool s)) mod capacity s.

(** The index that the retry loop tests at its [k]-th attempt when it is
    entered with [index]: the later attempts test the draws made in the
    loop. *)
Definition nth_try (index : Z) (s : State) (k : nat) : Z :=
  match k with
  | O => index
  | S k' => draw s k'
  end.

(** The events of the first [k] attempts when all of them fail, most
    recent first. *)
Fixpoint failed_tries (try : nat -> Z) (k : nat) : list Event :=
  match k with
  | O => []
  | S k' => EvTryLock (try k') false :: failed_tries try k'
  end.

(** The environment of [example_env] with a random engine that always
    draws slot 0. *)
Definition example_stuck_env : Environment :=
  {| rng_raw := fun _ => 0;
     hw_submit_status := hw_submit_status (example_env 0 QPL_STS_OK []);
     hw_reply := hw_reply (example_env 0 QPL_STS_OK []);
     sw_init_status := QPL_STS_OK;
     sw_engine := sw_engine (example_env 0 QPL_STS_OK []);
     page_size := 4096%positive |}.

(** The state after [k] rounds of the synchronous wait (lines 230-234)
    that found the job of slot [ptr] still in progress: a pause and a
    check each. *)
Fixpoint busy_polls (ptr : Z) (k : nat) (s : State) : State :=
  match k with
  | O => s
  | S k' =>
      busy_polls ptr k' (log (EvHwCheck ptr QPL_STS_BEING_PROCESSED) (tick (log EvPause s)))
  end.

(** The events of these rounds, most recent first. *)
Fixpoint busy_poll_events (ptr : Z) (k : nat) : list Event :=
  match k with
  | O => []
  | S k' => busy_poll_events ptr k' ++ [EvHwCheck ptr QPL_STS_BEING_PROCESSED; EvPause]
  end.

(** The state after [k] rounds of a drain over the single pending entry
    of slot [ptr] that found its job still in progress: a check and, the
    iterator having reached the end of the map, a pause each. *)
Fixpoint busy_drains (ptr : Z) (k : nat) (s : State) : State :=
  match k with
  | O => s
  | S k' =>
      busy_drains ptr k' (log EvPause (log (EvHwCheck ptr QPL_STS_BEING_PROCESSED) (tick s)))
  end.

Fixpoint busy_drain_events (ptr : Z) (k : nat) : list Event :=
  match k with
  | O => []
  | S k' => busy_drain_events ptr k' ++ [EvPause; EvHwCheck ptr QPL_STS_BEING_PROCESSED]
  end.

(** The number of calls of [qpl_fini_job] among the events [evs]. *)
Definition finalised (evs : list Event) : nat :=
  length (List.filter (fun e => match e with EvFini _ => true | _ => false end) evs).

(** ** The outcome of a hardware attempt, read off its log *)

(** The status that a call into the device reported: [qpl_execute_job],
    [qpl_submit_job] and [qpl_check_job] are the calls that report one. *)
Definition device_status (e : Event) : option qpl_status :=
  match e with
  | EvHwExecute _ _ status => Some status
  | EvHwSubmit _ _ status => Some status
  | EvHwCheck _ status => Some status
  | _ => None
  end.

(** The status of the most recent call into the device among the events
    [evs] (most recent first). *)
Fixpoint last_device_status (evs : list Event) : option qpl_status :=
  match evs with
  | [] => None
  | e :: evs' =>
      match device_status e with
      | Some status => Some status
      | None => last_device_status evs'
      end
  end.

(** A hardware attempt that logged the events [evs] failed: it never
    reached the device (no slot could be acquired), or the last answer of
    the device (to the execution, to the submission, or to the check that
    ended the wait) was not [QPL_STS_OK]. *)
Definition hw_attempt_failed (evs : list Event) : bool :=
  match last_device_status evs with
  | None => true
  | Some status => negb (status_is_ok status)
  end.

(** * Properties *)

(** ** The slot pool *)

Ltac run := unfold bind, ret, gets, modify, throw, no_result, isJobPoolReady; cbn.

Lemma to_UInt32_small z : 0 <= z < 2 ^ 32 -> to_UInt32 z = z.
Proof. intros H. unfold to_UInt32. apply Z.mod_small. exact H. Qed.

Lemma State_eta s :
  s = {| st_mem := st_mem s; st_pool := st_pool s; sw_job := sw_job s;
         decomp_async_job_map := decomp_async_job_map s;
         decompress_mode := decompress_mode s; st_clock := st_clock s;
         st_env := st_env s; st_trace := st_trace s |}.
Proof. destruct s; reflexivity. Qed.

Lemma pool_eta p :
  p = {| max_hw_jobs := max_hw_jobs p; job_pool_ready := job_pool_ready p;
         hw_job_ptr_locks := hw_job_ptr_locks p; hw_jobs_buffer := hw_jobs_buffer p;
         random_engine := random_engine p |}.
Proof. destruct p; reflexivity. Qed.

Lemma pool_step_id s : pool_step (locks_of s) 0 [] s = s.
Proof. destruct s as [m [] j a c k e t]; reflexivity. Qed.

Lemma failed_locks_all evs :
  Forall (fun e => is_failed_lock e = true) evs -> failed_locks evs = length evs.
Proof.
  unfold failed_locks. induction 1 as [|e evs He _ IH]; cbn; [reflexivity|].
  rewrite He. cbn. now rewrite IH.
Qed.

Lemma tryLockJob_free index s :
  locks_of s !! Z.to_nat index = Some false ->
  tryLockJob index s =
    (Ret true, pool_step (<[Z.to_nat index := true]> (locks_of s)) 0 [EvTryLock index true] s).
Proof.
  intros H. unfold tryLockJob, locks_of in *. rewrite H.
  destruct s as [m [] j a c k e t]; reflexivity.
Qed.

Lemma tryLockJob_held index s :
  locks_of s !! Z.to_nat index <> Some false ->
  tryLockJob index s = (Ret false, log (EvTryLock index false) s).
Proof.
  intros H. unfold tryLockJob, locks_of in *.
  destruct (hw_job_ptr_locks (st_pool s) !! Z.to_nat index) as [[|]|]; congruence.
Qed.

Lemma mod_capacity_range r max : 0 < max -> 0 <= r mod max < max.
Proof. intros H. apply Z.mod_pos_bound. exact H. Qed.

Lemma acquire_loop_free fuel index retry s :
  locks_of s !! Z.to_nat index = Some false ->
  acquire_loop (S fuel) index retry s =
    (Ret (Some index),
     pool_step (<[Z.to_nat index := true]> (locks_of s)) 0 [EvTryLock index true] s).
Proof.
  intros H. cbn [acquire_loop]. unfold bind. now rewrite (tryLockJob_free _ _ H).
Qed.

Lemma acquire_loop_held fuel index retry s :
  locks_of s !! Z.to_nat index <> Some false ->
  acquire_loop (S fuel) index retry s =
    if to_UInt32 (retry + 1) >? capacity s
    then (Ret None, after_failed_lock index s)
    else acquire_loop fuel (next_index s) (to_UInt32 (retry + 1)) (after_failed_lock index s).
Proof.
  intros H. cbn [acquire_loop]. unfold bind at 1. rewrite (tryLockJob_held _ _ H).
  unfold bind, distribution, gets, ret, capacity. cbn.
  destruct (_ >? _); reflexivity.
Qed.

Lemma pool_step_after_failed locks d evs index s :
  pool_step locks d evs (after_failed_lock index s) =
  pool_step locks (S d) (evs ++ [EvTryLock index false]) s.
Proof.
  unfold pool_step, after_failed_lock. cbn. f_equal.
  - unfold with_engine, with_locks. cbn. f_equal. lia.
  - now rewrite <- app_assoc.
Qed.

Lemma after_failed_lock_step index s :
  after_failed_lock index s = pool_step (locks_of s) 1 [EvTryLock index false] s.
Proof. rewrite <- (pool_step_id (after_failed_lock index s)).
  rewrite pool_step_after_failed. reflexivity. Qed.

(** The retry loop: it either locks a free slot after at most
    [max - retry] failures, or gives up after exactly [max + 1 - retry]
    failures, or the fuel was not enough. *)
Lemma acquire_loop_spec fuel : forall index retry s,
  pool_wf (st_pool s) ->
  0 <= index < capacity s ->
  0 <= retry <= capacity s ->
  exists evs,
    Forall (fun e => is_failed_lock e = true) evs /\
    ((exists i, 0 <= i < capacity s /\ locks_of s !! Z.to_nat i = Some false /\
                Z.of_nat (length evs) <= capacity s - retry /\
                acquire_loop fuel index retry s =
                  (Ret (Some i),
                   pool_step (<[Z.to_nat i := true]> (locks_of s)) (length evs)
                             (EvTryLock i true :: evs) s))
     \/ (Z.of_nat (length evs) = capacity s + 1 - retry /\
         acquire_loop fuel index retry s =
           (Ret None, pool_step (locks_of s) (length evs) evs s))
     \/ ((fuel <= Z.to_nat (capacity s - retry))%nat /\
         fst (acquire_loop fuel index retry s) = NoResult)).
Proof.
  induction fuel as [|fuel IH]; intros index retry s Hwf Hidx Hretry.
  - exists []. split; [constructor|]. right; right. cbn. split; [lia|reflexivity].
  - destruct (decide (locks_of s !! Z.to_nat index = Some false)) as [Hfree|Hheld].
    + rewrite (acquire_loop_free _ _ _ _ Hfree).
      exists []. split; [constructor|]. left. exists index.
      repeat split; try tauto; cbn; lia.
    + rewrite (acquire_loop_held _ _ _ _ Hheld).
      pose proof Hwf as (Hcap & Hlen & Hjobs). unfold capacity in *.
      rewrite to_UInt32_small by lia.
      destruct (retry + 1 >? max_hw_jobs (st_pool s)) eqn:Hgt.
      * exists [EvTryLock index false]. split; [repeat constructor|].
        right; left. cbn [length]. split; [lia|].
        now rewrite after_failed_lock_step.
      * destruct (IH (next_index s) (retry + 1) (after_failed_lock index s))
          as (evs & Hall & Hcases).
        { exact Hwf. }
        { unfold capacity, next_index. cbn. apply mod_capacity_range. unfold capacity. lia. }
        { unfold capacity. cbn. lia. }
        exists (evs ++ [EvTryLock index false]). split.
        { apply Forall_app. split; [exact Hall|repeat constructor]. }
        rewrite length_app. cbn [length]. unfold capacity in Hcases. cbn in Hcases.
        destruct Hcases as [(i & Hi & Hfree & Hn & Heq)|[(Hn & Heq)|(Hf & Heq)]].
        -- left. exists i. split; [exact Hi|]. split; [exact Hfree|]. split; [lia|].
           rewrite Heq. f_equal. change (locks_of (after_failed_lock index s)) with (locks_of s).
           rewrite pool_step_after_failed. f_equal. lia.
        -- right; left. split; [lia|].
           rewrite Heq. f_equal. change (locks_of (after_failed_lock index s)) with (locks_of s).
           rewrite pool_step_after_failed. f_equal. lia.
        -- right; right. split; [lia|exact Heq].
Qed.

Lemma pool_step_compose l d evs l0 d0 evs0 s :
  pool_step l d evs (pool_step l0 d0 evs0 s) = pool_step l (d + d0) (evs ++ evs0) s.
Proof.
  unfold pool_step. cbn. f_equal.
  - unfold with_engine, with_locks. cbn. f_equal. lia.
  - now rewrite app_assoc.
Qed.

Lemma distribution_step s :
  distribution s = (Ret (next_index s), pool_step (locks_of s) 1 [] s).
Proof.
  destruct s as [m [] j a c k e t]; reflexivity.
Qed.

(** [acquireJob] on a ready pool. *)
Lemma acquireJob_spec fuel s :
  job_pool_ready (st_pool s) = true ->
  pool_wf (st_pool s) ->
  exists evs,
    Forall (fun e => is_failed_lock e = true) evs /\
    ((exists i, 0 <= i < capacity s /\ locks_of s !! Z.to_nat i = Some false /\
                Z.of_nat (length evs) <= capacity s /\
                acquireJob fuel s =
                  (Ret (Some (i, capacity s - i)),
                   pool_step (<[Z.to_nat i := true]> (locks_of s)) (S (length evs))
                             (EvTryLock i true :: evs) s))
     \/ (Z.of_nat (length evs) = capacity s + 1 /\
         acquireJob fuel s = (Ret None, pool_step (locks_of s) (S (length evs)) evs s))
     \/ ((fuel <= Z.to_nat (capacity s))%nat /\ fst (acquireJob fuel s) = NoResult)).
Proof.
  intros Hready Hwf. pose proof Hwf as (Hcap & Hlen & Hjobs).
  assert (Hrun : acquireJob fuel s =
            match acquire_loop fuel (next_index s) 0 (pool_step (locks_of s) 1 [] s) with
            | (Ret (Some index), s') => (Ret (Some (index, to_UInt32 (capacity s' - index))), s')
            | (Ret None, s') => (Ret None, s')
            | (Throw e, s') => (Throw e, s')
            | (NoResult, s') => (NoResult, s')
            end).
  { unfold acquireJob, bind at 1, isJobPoolReady, gets at 1. rewrite Hready.
    unfold bind at 1. rewrite distribution_step. unfold bind at 1.
    destruct (acquire_loop _ _ _ _) as [[[i|]| |] s']; reflexivity. }
  rewrite Hrun. clear Hrun.
  destruct (acquire_loop_spec fuel (next_index s) 0 (pool_step (locks_of s) 1 [] s))
    as (evs & Hall & Hcases).
  { exact Hwf. }
  { unfold next_index, capacity. cbn. apply mod_capacity_range. lia. }
  { unfold capacity. cbn. lia. }
  exists evs. split; [exact Hall|].
  change (capacity (pool_step (locks_of s) 1 [] s)) with (capacity s) in Hcases.
  change (locks_of (pool_step (locks_of s) 1 [] s)) with (locks_of s) in Hcases.
  unfold capacity in *.
  destruct Hcases as [(i & Hi & Hfree & Hn & Heq)|[(Hn & Heq)|(Hf & Heq)]].
  - left. exists i. split; [exact Hi|]. split; [exact Hfree|]. split; [lia|].
    rewrite Heq. rewrite pool_step_compose. cbn [max_hw_jobs st_pool pool_step with_engine with_locks].
    rewrite to_UInt32_small by lia. rewrite app_nil_r. do 3 f_equal. lia.
  - right; left. split; [lia|]. rewrite Heq. rewrite pool_step_compose.
    rewrite app_nil_r. do 2 f_equal. lia.
  - right; right. split; [lia|].
    destruct (acquire_loop _ _ _ _) as [[[i|]| |] s']; cbn in *; congruence.
Qed.

Lemma acquireJob_unready fuel s :
  job_pool_ready (st_pool s) = false -> acquireJob fuel s = (Ret None, s).
Proof.
  intros H. unfold acquireJob, bind, isJobPoolReady, gets. now rewrite H.
Qed.

Lemma releaseJob_unready job_id s :
  job_pool_ready (st_pool s) = false -> releaseJob job_id s = (Ret tt, s).
Proof.
  intros H. unfold releaseJob, bind, isJobPoolReady, gets. now rewrite H.
Qed.

Lemma releaseJob_ready job_id s :
  job_pool_ready (st_pool s) = true ->
  releaseJob job_id s =
    (Ret tt,
     pool_step (<[Z.to_nat (to_UInt32 (capacity s - job_id)) := false]> (locks_of s)) 0
               [EvUnLock (to_UInt32 (capacity s - job_id))] s).
Proof.
  intros H. unfold releaseJob, bind, isJobPoolReady, gets. rewrite H.
  reflexivity.
Qed.

Lemma insert_undo (l : list bool) i :
  l !! i = Some false -> <[i := false]> (<[i := true]> l) = l.
Proof.
  intros H. rewrite list_insert_insert_eq. now apply list_insert_id.
Qed.


Lemma failed_locks_le evs : (failed_locks evs <= length evs)%nat.
Proof. unfold failed_locks. apply filter_length_le. Qed.

(** C4 (bounded acquire).  On an unready pool [acquireJob] answers
    [nullptr] at once: no index is drawn, no flag is probed, the state is
    untouched.  On a ready pool it always answers, after at most
    [max_hw_jobs + 1] failed lock attempts; when every flag is set the
    answer is [nullptr], after exactly [max_hw_jobs + 1] failed attempts
    and nothing else, and the flags are as before. *)
Theorem acquireJob_bounded (fuel : nat) (s : State) :
  (job_pool_ready (st_pool s) = false -> acquireJob fuel s = (Ret None, s)) /\
  (job_pool_ready (st_pool s) = true ->
   pool_wf (st_pool s) ->
   (Z.to_nat (capacity s) < fuel)%nat ->
   exists r locks' draws evs,
     acquireJob fuel s = (Ret r, pool_step locks' draws evs s) /\
     (failed_locks evs <= Z.to_nat (capacity s) + 1)%nat /\
     (Forall (fun b => b = true) (locks_of s) ->
      r = None /\ locks' = locks_of s /\
      failed_locks evs = (Z.to_nat (capacity s) + 1)%nat /\
      length evs = failed_locks evs)).
Proof.
  split; [apply acquireJob_unready|].
  intros Hready Hwf Hfuel.
  destruct (acquireJob_spec fuel s Hready Hwf) as (evs & Hall & Hcases).
  pose proof (failed_locks_all _ Hall) as Hcount.
  pose proof Hwf as (Hcap & _). fold (capacity s) in Hcap.
  destruct Hcases as [(i & Hi & Hfree & Hn & Heq)|[(Hn & Heq)|(Hf & Heq)]].
  - exists (Some (i, capacity s - i)), (<[Z.to_nat i := true]> (locks_of s)),
      (S (length evs)), (EvTryLock i true :: evs).
    split; [exact Heq|]. split.
    + change (failed_locks (EvTryLock i true :: evs)) with (failed_locks evs).
      rewrite Hcount. lia.
    + intros Hheld. exfalso.
      rewrite Forall_lookup in Hheld. specialize (Hheld _ _ Hfree). discriminate.
  - exists None, (locks_of s), (S (length evs)), evs.
    split; [exact Heq|]. split; [rewrite Hcount; lia|].
    intros _. repeat split; rewrite Hcount; lia.
  - lia.
Qed.

Lemma acquireJob_bounded_witness :
  let s := example_state (example_env 0 QPL_STS_OK []) true [true; true; true] Synchronous in
  job_pool_ready (st_pool s) = true /\
  pool_wf (st_pool s) /\
  (Z.to_nat (capacity s) < 4)%nat /\
  Forall (fun b => b = true) (locks_of s) /\
  exists r locks' draws evs,
    acquireJob 4 s = (Ret r, pool_step locks' draws evs s) /\
    (failed_locks evs <= Z.to_nat (capacity s) + 1)%nat /\
    (Forall (fun b => b = true) (locks_of s) ->
     r = None /\ locks' = locks_of s /\
     failed_locks evs = (Z.to_nat (capacity s) + 1)%nat /\
     length evs = failed_locks evs).
Proof.
  intros s.
  assert (Hready : job_pool_ready (st_pool s) = true) by reflexivity.
  assert (Hwf : pool_wf (st_pool s)) by (unfold pool_wf; cbn; repeat split; lia).
  assert (Hfuel : (Z.to_nat (capacity s) < 4)%nat) by (cbn; lia).
  split; [exact Hready|]. split; [exact Hwf|]. split; [exact Hfuel|].
  split; [repeat constructor|].
  exact (proj2 (acquireJob_bounded 4 s) Hready Hwf Hfuel).
Defined.

(** C5 (job-handle mapping), as the code has it.  On a ready pool a
    successful [acquireJob] locks a slot [index] in [[0, max_hw_jobs)] that
    was free and returns [job_id = max_hw_jobs - index], which lies in
    [[1, max_hw_jobs]] and so is never zero; it equals the raw index exactly
    when [max_hw_jobs = 2 * index].  [releaseJob job_id] clears the flag at
    [max_hw_jobs - job_id], which is that same slot, and so restores the
    flags that [acquireJob] found.  On a pool that is not ready
    [releaseJob] does nothing. *)
Theorem job_handle_mapping (fuel : nat) (s : State) :
  (forall job_id, job_pool_ready (st_pool s) = false -> releaseJob job_id s = (Ret tt, s)) /\
  (job_pool_ready (st_pool s) = true ->
   pool_wf (st_pool s) ->
   forall index job_id s',
     acquireJob fuel s = (Ret (Some (index, job_id)), s') ->
     0 <= index < capacity s /\
     job_id = capacity s - index /\
     1 <= job_id <= capacity s /\
     (job_id = index <-> capacity s = 2 * index) /\
     locks_of s !! Z.to_nat index = Some false /\
     locks_of s' = <[Z.to_nat index := true]> (locks_of s) /\
     exists evs s'',
       releaseJob job_id s' = (Ret tt, s'') /\
       st_trace s'' = EvUnLock index :: EvTryLock index true :: evs ++ st_trace s /\
       Forall (fun e => is_failed_lock e = true) evs /\
       locks_of s'' = <[Z.to_nat (capacity s - job_id) := false]> (locks_of s') /\
       locks_of s'' = locks_of s).
Proof.
  split; [intros job_id; apply releaseJob_unready|].
  intros Hready Hwf index job_id s' Hacq.
  pose proof Hwf as (Hcap & _). fold (capacity s) in Hcap.
  destruct (acquireJob_spec fuel s Hready Hwf) as (evs & Hall & Hcases).
  destruct Hcases as [(i & Hi & Hfree & Hn & Heq)|[(Hn & Heq)|(Hf & Heq)]];
    rewrite Hacq in Heq; [|discriminate..].
  injection Heq as -> -> ->.
  repeat (split; [first [assumption | reflexivity | lia]|]).
  exists evs. eexists. rewrite releaseJob_ready by exact Hready.
  change (capacity (pool_step _ _ _ s)) with (capacity s).
  change (locks_of (pool_step ?l _ _ s)) with l.
  replace (capacity s - (capacity s - i)) with i by lia.
  rewrite to_UInt32_small by lia.
  split; [reflexivity|]. split; [reflexivity|]. split; [exact Hall|].
  split; [reflexivity|].
  change (locks_of (pool_step ?l _ _ _)) with l. now apply insert_undo.
Qed.

Lemma job_handle_mapping_witness :
  let s := example_state (example_env 0 QPL_STS_OK []) true [true; false; false] Synchronous in
  job_pool_ready (st_pool s) = true /\
  pool_wf (st_pool s) /\
  fst (acquireJob 5 s) = Ret (Some (1, 2)) /\
  locks_of (snd (acquireJob 5 s)) = <[1%nat := true]> (locks_of s) /\
  exists evs s'',
    releaseJob 2 (snd (acquireJob 5 s)) = (Ret tt, s'') /\
    st_trace s'' = EvUnLock 1 :: EvTryLock 1 true :: evs ++ st_trace s /\
    Forall (fun e => is_failed_lock e = true) evs /\
    locks_of s'' = <[Z.to_nat (capacity s - 2) := false]> (locks_of (snd (acquireJob 5 s))) /\
    locks_of s'' = locks_of s.
Proof.
  intros s.
  assert (Hready : job_pool_ready (st_pool s) = true) by reflexivity.
  assert (Hwf : pool_wf (st_pool s)) by (unfold pool_wf; cbn; repeat split; lia).
  assert (Hacq : acquireJob 5 s = (Ret (Some (1, 2)), snd (acquireJob 5 s))) by reflexivity.
  split; [exact Hready|]. split; [exact Hwf|]. split; [reflexivity|].
  destruct (proj2 (job_handle_mapping 5 s) Hready Hwf 1 2 _ Hacq)
    as (_ & _ & _ & _ & _ & Hlocks & Hrel).
  split; [exact Hlocks|exact Hrel].
Defined.

(** C5, the sentence "the handle is never equal to the raw index": with two
    slots of which the first is held, the slot locked is index 1 and the
    handle returned is 2 - 1 = 1. *)
Lemma job_handle_equals_index :
  let s := example_state (example_env 0 QPL_STS_OK []) true [true; false] Synchronous in
  job_pool_ready (st_pool s) = true /\
  capacity s = 2 /\
  exists index job_id,
    fst (acquireJob 3 s) = Ret (Some (index, job_id)) /\ job_id = index.
Proof.
  cbv zeta. split; [reflexivity|]. split; [reflexivity|].
  exists 1, 1. split; reflexivity.
Qed.

(** ** The hardware engine *)

Lemma hw_doCompressData_unfold fuel source source_size dest dest_size :
  hw_doCompressData fuel source source_size dest dest_size =
  (r <- acquireJob fuel;
   match r with
   | None => ret RET_ERROR
   | Some (job_ptr, job_id) => hw_compress_with source source_size dest dest_size job_ptr job_id
   end).
Proof. reflexivity. Qed.

Lemma hw_job_insert index j s :
  (Z.to_nat index < length (hw_jobs_buffer (st_pool s)))%nat ->
  default blank_job (<[Z.to_nat index := j]> (hw_jobs_buffer (st_pool s)) !! Z.to_nat index) = j.
Proof. intros H. now rewrite list_lookup_insert_eq. Qed.

Ltac hw_exec :=
  unfold hw_compress_with, hw_decompress_async_with, hw_execute_job, hw_submit_job,
    update_hw_job, device_observe, releaseJob, isJobPoolReady, unLockJob, hw_job;
  unfold update_hw_job, hw_job; unfold bind, ret, gets, modify; cbn.

Lemma hw_compress_with_spec src n dst dst_size ptr id s :
  job_pool_ready (st_pool s) = true ->
  (Z.to_nat ptr < length (hw_jobs_buffer (st_pool s)))%nat ->
  let j := configure_compress src n dst dst_size (hw_job ptr s) in
  let r := hw_reply (st_env s) (st_clock s) ptr j in
  let slot := to_UInt32 (capacity s - id) in
  exists s',
    hw_compress_with src n dst dst_size ptr id s =
      (Ret (if status_is_ok (fst r)
            then to_Int32 (to_UInt32 (Z.of_nat (length (snd r))))
            else RET_ERROR), s') /\
    hw_touched ptr (src, n, dst, dst_size) s s' /\
    decomp_async_job_map s' = decomp_async_job_map s /\
    locks_of s' = <[Z.to_nat slot := false]> (locks_of s) /\
    st_trace s' = EvUnLock slot :: EvHwExecute ptr j (fst r) :: st_trace s /\
    (status_is_ok (fst r) = true -> st_mem s' = store (st_mem s) dst (snd r)).
Proof.
  intros Hready Hlen j r slot. subst j r slot.
  destruct s as [m [cap rdy locks jobs eng] swj amap mode clk env tr].
  cbn in Hready, Hlen. subst rdy. hw_exec.
  rewrite !list_lookup_insert_eq by exact Hlen. cbn.
  set (j := configure_compress src n dst dst_size (default blank_job (jobs !! Z.to_nat ptr))).
  destruct (hw_reply env clk ptr j) as [st out] eqn:Hr.
  destruct st; cbn; rewrite ?list_lookup_insert_eq by (rewrite ?length_insert; exact Hlen);
    cbn; (eexists; split; [reflexivity|]);
    (split; [|split; [reflexivity|split; [reflexivity|split;
       [reflexivity|first [discriminate | intros _; reflexivity]]]]]);
    (split; cbn; try reflexivity; try lia;
     [ now rewrite ?length_insert
     | intros k Hk; now rewrite ?list_lookup_insert_ne by congruence
     | eexists [_; _]; split; [reflexivity|repeat constructor]
     | first [ left; reflexivity
             | right; exists clk, j; rewrite Hr; repeat split; reflexivity ] ]).
Qed.

Lemma hw_decompress_async_with_spec src n dst dst_size ptr id s :
  job_pool_ready (st_pool s) = true ->
  (Z.to_nat ptr < length (hw_jobs_buffer (st_pool s)))%nat ->
  let j := configure_decompress src n dst dst_size (hw_job ptr s) in
  let st := hw_submit_status (st_env s) (st_clock s) ptr in
  let slot := to_UInt32 (capacity s - id) in
  exists s',
    hw_decompress_async_with src n dst dst_size ptr id s =
      (Ret (if status_is_ok st then to_Int32 id else RET_ERROR), s') /\
    hw_touched ptr (src, n, dst, dst_size) s s' /\
    st_mem s' = st_mem s /\
    if status_is_ok st
    then decomp_async_job_map s' = map_insert id ptr (decomp_async_job_map s) /\
         locks_of s' = locks_of s /\
         st_trace s' = EvHwSubmit ptr j st :: st_trace s
    else decomp_async_job_map s' = decomp_async_job_map s /\
         locks_of s' = <[Z.to_nat slot := false]> (locks_of s) /\
         st_trace s' = EvUnLock slot :: EvHwSubmit ptr j st :: st_trace s.
Proof.
  intros Hready Hlen j st slot. subst j st slot.
  destruct s as [m [cap rdy locks jobs eng] swj amap mode clk env tr].
  cbn in Hready, Hlen. subst rdy. hw_exec.
  rewrite !list_lookup_insert_eq by exact Hlen. cbn.
  destruct (hw_submit_status env clk ptr) as [| |c]; cbn;
    (eexists; split; [reflexivity|]);
    (split; [|split; [reflexivity|repeat split; reflexivity]]);
    (split; cbn; try reflexivity; try lia;
     [ now rewrite ?length_insert
     | intros k Hk; now rewrite ?list_lookup_insert_ne by congruence
     | first [ eexists [_]; split; [reflexivity|repeat constructor]
             | eexists [_; _]; split; [reflexivity|repeat constructor] ]
     | left; reflexivity ]).
Qed.

(** The busy-wait loop on the job in slot [ptr]: either the device answers
    with a final status while there is fuel, or every answer within the
    fuel is "in progress". *)
Lemma poll_loop_spec ptr fuel : forall s,
  (Z.to_nat ptr < length (hw_jobs_buffer (st_pool s)))%nat ->
  let j := hw_job ptr s in
  (exists st s',
      poll_loop fuel ptr s = (Ret st, s') /\
      status_in_progress st = false /\
      (exists t, fst (hw_reply (st_env s) t ptr j) = st) /\
      hw_touched ptr (job_buffers j) s s' /\
      decomp_async_job_map s' = decomp_async_job_map s /\
      locks_of s' = locks_of s /\
      (exists evs, st_trace s' = EvHwCheck ptr st :: evs ++ st_trace s /\
                   Forall (fun e => e = EvPause \/ e = EvHwCheck ptr QPL_STS_BEING_PROCESSED) evs))
  \/ (fst (poll_loop fuel ptr s) = NoResult /\
      forall i, (i < fuel)%nat ->
        status_in_progress (fst (hw_reply (st_env s) (st_clock s + i) ptr j)) = true).
Proof.
  induction fuel as [|fuel IH]; intros s Hlen j.
  - right. split; [reflexivity|]. intros i Hi. lia.
  - subst j. destruct s as [m [cap rdy locks jobs eng] swj amap mode clk env tr].
    cbn in Hlen. cbn [poll_loop].
    unfold tpause, hw_check_job, device_observe, update_hw_job, hw_job;
      unfold hw_job; unfold bind, ret, gets, modify; cbn.
    set (j := default blank_job (jobs !! Z.to_nat ptr)).
    destruct (hw_reply env clk ptr j) as [st out] eqn:Hr.
    cbn. destruct (status_in_progress st) eqn:Hst; cbn; rewrite ?Hst; cbn.
    + match goal with |- context [poll_loop fuel ptr ?s1] => specialize (IH s1 Hlen) end.
      cbn in IH. unfold hw_job in IH. cbn in IH. fold j in IH.
      destruct IH as [(st' & s' & Heq & Hfin & Hrep & Ht & Hmap & Hlocks & evs & Htr & Hevs)|(Hno & Hbusy)].
      * left. exists st', s'. rewrite Heq. split; [reflexivity|]. split; [exact Hfin|].
        split; [exact Hrep|].
        destruct Ht as [? ? ? ? ? ? ? ? ? [evs' [Htr' Hevs']] ?]. cbn in *.
        split; [split; cbn; try assumption; try lia|].
        { exists (evs' ++ [EvHwCheck ptr st; EvPause]). split.
          - rewrite Htr'. now rewrite <- app_assoc.
          - apply Forall_app. split; [exact Hevs'|repeat constructor]. }
        split; [exact Hmap|]. split; [exact Hlocks|].
        exists (evs ++ [EvHwCheck ptr st; EvPause]). split.
        -- rewrite Htr. cbn. now rewrite <- app_assoc.
        -- apply Forall_app. split; [exact Hevs|].
           destruct st; try discriminate.
           constructor; [right; reflexivity|].
           constructor; [left; reflexivity|]. constructor.
      * right. split.
        { destruct (poll_loop fuel ptr _) as [[| |] ?]; cbn in *; congruence. }
        intros [|i] Hi.
        -- rewrite Nat.add_0_r, Hr. exact Hst.
        -- replace (clk + S i)%nat with (S clk + i)%nat by lia. apply Hbusy. lia.
    + left. eexists _, _. split; [reflexivity|]. split; [exact Hst|].
      split; [exists clk; now rewrite Hr|].
      split; [|split; [reflexivity|split; [reflexivity|exists [EvPause]; split;
        [reflexivity|constructor; [left; reflexivity|constructor]]]]].
      split; cbn; try reflexivity; try lia.
      * now rewrite ?length_insert.
      * intros k Hk. now rewrite ?list_lookup_insert_ne by congruence.
      * eexists [_; _]. split; [reflexivity|repeat constructor].
      * right. exists clk, j. rewrite Hr. repeat split; reflexivity.
Qed.

Lemma hw_decompress_sync_with_spec fuel src n dst dst_size ptr id s :
  job_pool_ready (st_pool s) = true ->
  (Z.to_nat ptr < length (hw_jobs_buffer (st_pool s)))%nat ->
  let j := configure_decompress src n dst dst_size (hw_job ptr s) in
  let slot := to_UInt32 (capacity s - id) in
  (exists res s',
      hw_decompress_sync_with fuel src n dst dst_size ptr id s = (Ret res, s') /\
      hw_touched ptr (src, n, dst, dst_size) s s' /\
      decomp_async_job_map s' = decomp_async_job_map s /\
      locks_of s' = <[Z.to_nat slot := false]> (locks_of s) /\
      (exists evs, st_trace s' = EvUnLock slot :: evs ++ st_trace s) /\
      (res = RET_ERROR \/
       (status_is_ok (hw_submit_status (st_env s) (st_clock s) ptr) = true /\
        exists t, fst (hw_reply (st_env s) t ptr j) = QPL_STS_OK)))
  \/ (fst (hw_decompress_sync_with fuel src n dst dst_size ptr id s) = NoResult /\
      status_is_ok (hw_submit_status (st_env s) (st_clock s) ptr) = true /\
      forall i, (i < fuel)%nat ->
        status_in_progress (fst (hw_reply (st_env s) (S (st_clock s) + i) ptr j)) = true).
Proof.
  intros Hready Hlen j slot. subst j slot.
  destruct s as [m [cap rdy locks jobs eng] swj amap mode clk env tr].
  cbn in Hready, Hlen. subst rdy.
  unfold hw_decompress_sync_with, hw_submit_job, update_hw_job, releaseJob, isJobPoolReady,
    unLockJob, hw_job; unfold hw_job; unfold bind, ret, gets, modify; cbn.
  rewrite !list_lookup_insert_eq by exact Hlen. cbn.
  set (j := configure_decompress src n dst dst_size (default blank_job (jobs !! Z.to_nat ptr))).
  destruct (hw_submit_status env clk ptr) as [| |c] eqn:Hsub; cbn.
  2,3: left; eexists _, _; split; [reflexivity|];
    (split; [|split; [reflexivity|split; [reflexivity|split;
       [eexists [_]; reflexivity|left; reflexivity]]]]);
    (split; cbn; try reflexivity; try lia;
     [ now rewrite ?length_insert
     | intros k Hk; now rewrite ?list_lookup_insert_ne by congruence
     | eexists [_; _]; split; [reflexivity|repeat constructor]
     | left; reflexivity ]).
  match goal with |- context [poll_loop fuel ptr ?s1] =>
    destruct (poll_loop_spec ptr fuel s1) as
      [(st & s' & Heq & Hfin & (t & Hrep) & Ht & Hmap & Hlocks & evs & Htr & Hevs)|(Hno & Hbusy)]
  end.
  { cbn. now rewrite length_insert. }
  - left. rewrite Heq. cbn in Hrep, Ht, Hmap, Hlocks, Htr.
    unfold hw_job in Hrep, Ht. cbn in Hrep, Ht.
    rewrite !list_lookup_insert_eq in Hrep, Ht by exact Hlen. cbn in Hrep, Ht. fold j in Hrep.
    destruct Ht as [He Hsw Hmode Hrdy Hcap Heng Hjl Hjobs Hclk [evs' [Htr' Hevs']] Hmem].
    cbn in He, Hsw, Hmode, Hrdy, Hcap, Heng, Hjl, Hjobs, Hclk, Htr', Hmem.
    unfold capacity in Hcap. cbn in Hcap. unfold locks_of in Hlocks.
    assert (Hframe : forall s'',
      st_mem s'' = st_mem s' -> sw_job s'' = sw_job s' ->
      decompress_mode s'' = decompress_mode s' -> st_env s'' = st_env s' ->
      st_clock s'' = st_clock s' ->
      max_hw_jobs (st_pool s'') = max_hw_jobs (st_pool s') ->
      job_pool_ready (st_pool s'') = job_pool_ready (st_pool s') ->
      random_engine (st_pool s'') = random_engine (st_pool s') ->
      hw_jobs_buffer (st_pool s'') = hw_jobs_buffer (st_pool s') ->
      st_trace s'' = EvUnLock (to_UInt32 (cap - id)) :: st_trace s' ->
      hw_touched ptr (src, n, dst, dst_size)
        {| st_mem := m;
           st_pool := {| max_hw_jobs := cap; job_pool_ready := true;
                         hw_job_ptr_locks := locks; hw_jobs_buffer := jobs;
                         random_engine := eng |};
           sw_job := swj; decomp_async_job_map := amap; decompress_mode := mode;
           st_clock := clk; st_env := env; st_trace := tr |} s'' /\
      (exists evs0, st_trace s'' = EvUnLock (to_UInt32 (cap - id)) :: evs0 ++ tr)).
    { intros s'' E1 E2 E3 E4 E5 E6 E7 E8 E9 E10. split.
      - split; unfold capacity; cbn; try congruence; try lia.
        + rewrite E9, Hjl. now rewrite length_insert.
        + intros k Hk. rewrite E9, Hjobs by exact Hk.
          now rewrite list_lookup_insert_ne by congruence.
        + exists (EvUnLock (to_UInt32 (cap - id)) :: evs' ++ [EvHwSubmit ptr j QPL_STS_OK]).
          split.
          * rewrite E10, Htr'. cbn. now rewrite <- app_assoc.
          * constructor; [reflexivity|]. apply Forall_app. split; [exact Hevs'|repeat constructor].
        + rewrite E1. exact Hmem.
      - exists (EvHwCheck ptr st :: evs ++ [EvHwSubmit ptr j QPL_STS_OK]).
        rewrite E10, Htr. cbn. now rewrite <- app_assoc. }
    destruct (status_is_ok st) eqn:Hok; cbn; rewrite Hrdy, Hcap, Hlocks; cbn;
      (eexists _, _; split; [reflexivity|]);
      (match goal with |- hw_touched _ _ _ ?s'' /\ _ =>
         destruct (Hframe s'') as [H1 H2]; try reflexivity end);
      (split; [exact H1|split; [exact Hmap|split; [reflexivity|split; [exact H2|]]]]).
    + right. split; [reflexivity|]. exists t. rewrite Hrep.
      destruct st; try discriminate. reflexivity.
    + left. reflexivity.
  - right. split; [|split; [reflexivity|]].
    + destruct (poll_loop fuel ptr _) as [[| |] ?]; cbn in *; congruence.
    + intros i Hi. specialize (Hbusy i Hi). cbn in Hbusy. unfold hw_job in Hbusy. cbn in Hbusy.
      rewrite list_lookup_insert_eq in Hbusy by exact Hlen. exact Hbusy.
Qed.

Lemma failed_lock_hw_event b evs :
  Forall (fun e => is_failed_lock e = true) evs ->
  Forall (hw_event_on b) evs.
Proof.
  intros H. eapply Forall_impl; [exact H|]. intros [] He; cbn in *; congruence || exact I.
Qed.

Lemma hw_called_acquire_failed b locks d evs s :
  locks = locks_of s ->
  Forall (fun e => is_failed_lock e = true) evs ->
  hw_called b s (pool_step locks d evs s).
Proof.
  intros -> Hevs. split; cbn; try reflexivity; try lia.
  - exists evs. split; [reflexivity|now apply failed_lock_hw_event].
  - now left.
Qed.

Lemma hw_touched_called ptr b d evs s s' :
  (0 <= ptr) ->
  locks_of s !! Z.to_nat ptr = Some false ->
  Forall (fun e => is_failed_lock e = true) evs ->
  hw_touched ptr b
    (pool_step (<[Z.to_nat ptr := true]> (locks_of s)) d (EvTryLock ptr true :: evs) s) s' ->
  hw_called b s s'.
Proof.
  intros Hptr Hfree Hevs [He Hsw Hmode Hrdy Hcap Heng Hjl Hjobs Hclk [evs' [Htr Hevs']] Hmem].
  cbn in *. split; try assumption.
  - intros k Hk. apply Hjobs. intros ->. congruence.
  - exists (evs' ++ EvTryLock ptr true :: evs). split.
    + rewrite Htr. now rewrite <- app_assoc.
    + apply Forall_app. split; [exact Hevs'|].
      constructor; [exact I|now apply failed_lock_hw_event].
  - destruct Hmem as [Hmem|(t & j & H1 & H2)]; [now left|].
    right. exists t, ptr, j. auto.
Qed.

Lemma bind_run {A B} (m : M A) (f : A -> M B) s a s' :
  m s = (Ret a, s') -> bind m f s = f a s'.
Proof. intros H. unfold bind. now rewrite H. Qed.

Lemma bind_no_result {A B} (m : M A) (f : A -> M B) s :
  fst (m s) = NoResult -> fst (bind m f s) = NoResult.
Proof. unfold bind. destruct (m s) as [[| |] ?]; cbn; congruence. Qed.

(** The three hardware entry points share one shape: acquire a slot, run
    on it, and answer; [hw_entry_cases] is what the acquisition contributes. *)
Lemma hw_entry_cases fuel (body : Z -> Z -> M Z) s :
  job_pool_ready (st_pool s) = true ->
  pool_wf (st_pool s) ->
  let call := (r <- acquireJob fuel;
               match r with
               | None => ret RET_ERROR
               | Some (job_ptr, job_id) => body job_ptr job_id
               end) in
  (exists evs d,
      Forall (fun e => is_failed_lock e = true) evs /\
      call s = (Ret RET_ERROR, pool_step (locks_of s) d evs s))
  \/ (exists evs d i,
      Forall (fun e => is_failed_lock e = true) evs /\
      0 <= i < capacity s /\ locks_of s !! Z.to_nat i = Some false /\
      call s = body i (capacity s - i)
                 (pool_step (<[Z.to_nat i := true]> (locks_of s)) d (EvTryLock i true :: evs) s))
  \/ ((fuel <= Z.to_nat (capacity s))%nat /\ fst (call s) = NoResult).
Proof.
  intros Hready Hwf call.
  destruct (acquireJob_spec fuel s Hready Hwf) as (evs & Hall & Hcases).
  destruct Hcases as [(i & Hi & Hfree & Hn & Heq)|[(Hn & Heq)|(Hf & Heq)]].
  - right; left. exists evs, (S (length evs)), i. repeat split; try tauto.
    unfold call. now rewrite (bind_run _ _ _ _ _ Heq).
  - left. exists evs, (S (length evs)). split; [exact Hall|].
    unfold call. now rewrite (bind_run _ _ _ _ _ Heq).
  - right; right. split; [exact Hf|]. now apply bind_no_result.
Qed.

Lemma pool_step_jobs_len i d evs s :
  pool_wf (st_pool s) -> 0 <= i < capacity s ->
  (Z.to_nat i < length (hw_jobs_buffer (st_pool (pool_step (<[Z.to_nat i := true]> (locks_of s)) d evs s))))%nat.
Proof. intros (Hcap & _ & Hj) Hi. cbn. rewrite Hj. unfold capacity in Hi. lia. Qed.

Lemma slot_of_handle i s :
  pool_wf (st_pool s) -> 0 <= i < capacity s ->
  to_UInt32 (capacity s - (capacity s - i)) = i.
Proof.
  intros (Hcap & _) Hi. unfold capacity in *.
  replace (max_hw_jobs (st_pool s) - (max_hw_jobs (st_pool s) - i)) with i by lia.
  apply to_UInt32_small. lia.
Qed.

(** [HardwareCodecDeflateQpl::doCompressData] on a ready pool. *)
Lemma hw_doCompressData_spec fuel src n dst dst_size s :
  job_pool_ready (st_pool s) = true ->
  pool_wf (st_pool s) ->
  (exists res s',
      hw_doCompressData fuel src n dst dst_size s = (Ret res, s') /\
      hw_called (src, n, dst, dst_size) s s' /\
      decomp_async_job_map s' = decomp_async_job_map s /\
      locks_of s' = locks_of s /\
      (res = RET_ERROR \/
       exists t i j, job_buffers j = (src, n, dst, dst_size) /\
                     fst (hw_reply (st_env s) t i j) = QPL_STS_OK /\
                     res = to_Int32 (to_UInt32 (Z.of_nat (length (snd (hw_reply (st_env s) t i j))))) /\
                     st_mem s' = store (st_mem s) dst (snd (hw_reply (st_env s) t i j))))
  \/ ((fuel <= Z.to_nat (capacity s))%nat /\
      fst (hw_doCompressData fuel src n dst dst_size s) = NoResult).
Proof.
  intros Hready Hwf. rewrite hw_doCompressData_unfold.
  destruct (hw_entry_cases fuel (hw_compress_with src n dst dst_size) s Hready Hwf)
    as [(evs & d & Hevs & Heq)|[(evs & d & i & Hevs & Hi & Hfree & Heq)|(Hf & Heq)]].
  - left. eexists _, _. split; [exact Heq|].
    split; [now apply hw_called_acquire_failed|]. repeat split. now left.
  - left. rewrite Heq.
    destruct (hw_compress_with_spec src n dst dst_size i (capacity s - i)
                 (pool_step (<[Z.to_nat i := true]> (locks_of s)) d (EvTryLock i true :: evs) s))
      as (s' & Hrun & Ht & Hmap & Hlocks & Htr & Hmem).
    { exact Hready. }
    { apply (pool_step_jobs_len i d (EvTryLock i true :: evs) s Hwf Hi). }
    eexists _, s'. split; [exact Hrun|].
    split; [eapply hw_touched_called; eauto; lia|].
    split; [exact Hmap|]. split.
    + rewrite Hlocks. change (capacity (pool_step _ _ _ s)) with (capacity s).
      rewrite slot_of_handle by assumption. now apply insert_undo.
    + cbn [st_env st_clock st_mem pool_step] in Hmem |- *.
      match goal with |- context [status_is_ok (fst ?r)] => destruct (fst r) eqn:Hst end;
        cbn; [right|now left|now left].
      eexists _, _, _. split; [|split; [exact Hst|split; [reflexivity|]]]; [reflexivity|].
      apply Hmem. reflexivity.
  - right. split; assumption.
Qed.

Lemma hw_doDecompressDataSynchronous_unfold fuel source source_size dest uncompressed_size :
  hw_doDecompressDataSynchronous fuel source source_size dest uncompressed_size =
  (r <- acquireJob fuel;
   match r with
   | None => ret RET_ERROR
   | Some (job_ptr, job_id) =>
       hw_decompress_sync_with fuel source source_size dest uncompressed_size job_ptr job_id
   end).
Proof. reflexivity. Qed.

Lemma hw_doDecompressDataAsynchronous_unfold fuel source source_size dest uncompressed_size :
  hw_doDecompressDataAsynchronous fuel source source_size dest uncompressed_size =
  (r <- acquireJob fuel;
   match r with
   | None => ret RET_ERROR
   | Some (job_ptr, job_id) =>
       hw_decompress_async_with source source_size dest uncompressed_size job_ptr job_id
   end).
Proof. reflexivity. Qed.

(** [HardwareCodecDeflateQpl::doDecompressDataSynchronous] on a ready pool. *)
Lemma hw_doDecompressDataSynchronous_spec fuel src n dst dst_size s :
  job_pool_ready (st_pool s) = true ->
  pool_wf (st_pool s) ->
  (exists res s',
      hw_doDecompressDataSynchronous fuel src n dst dst_size s = (Ret res, s') /\
      hw_called (src, n, dst, dst_size) s s' /\
      decomp_async_job_map s' = decomp_async_job_map s /\
      locks_of s' = locks_of s /\
      (res = RET_ERROR \/
       exists t t' i j, job_buffers j = (src, n, dst, dst_size) /\
                        status_is_ok (hw_submit_status (st_env s) t i) = true /\
                        fst (hw_reply (st_env s) t' i j) = QPL_STS_OK))
  \/ (fst (hw_doDecompressDataSynchronous fuel src n dst dst_size s) = NoResult /\
      ((fuel <= Z.to_nat (capacity s))%nat \/
       exists i j, job_buffers j = (src, n, dst, dst_size) /\
                   status_is_ok (hw_submit_status (st_env s) (st_clock s) i) = true /\
                   forall k, (k < fuel)%nat ->
                     status_in_progress
                       (fst (hw_reply (st_env s) (S (st_clock s) + k) i j)) = true)).
Proof.
  intros Hready Hwf. rewrite hw_doDecompressDataSynchronous_unfold.
  destruct (hw_entry_cases fuel (hw_decompress_sync_with fuel src n dst dst_size) s Hready Hwf)
    as [(evs & d & Hevs & Heq)|[(evs & d & i & Hevs & Hi & Hfree & Heq)|(Hf & Heq)]].
  - left. eexists _, _. split; [exact Heq|].
    split; [now apply hw_called_acquire_failed|]. repeat split. now left.
  - rewrite Heq.
    destruct (hw_decompress_sync_with_spec fuel src n dst dst_size i (capacity s - i)
                 (pool_step (<[Z.to_nat i := true]> (locks_of s)) d (EvTryLock i true :: evs) s))
      as [(res & s' & Hrun & Ht & Hmap & Hlocks & Htr & Hres)|(Hno & Hsub & Hbusy)].
    { exact Hready. }
    { apply (pool_step_jobs_len i d (EvTryLock i true :: evs) s Hwf Hi). }
    + left. eexists res, s'. split; [exact Hrun|].
      split; [eapply hw_touched_called; eauto; lia|].
      split; [exact Hmap|]. split.
      * rewrite Hlocks. change (capacity (pool_step _ _ _ s)) with (capacity s).
        rewrite slot_of_handle by assumption. now apply insert_undo.
      * destruct Hres as [Hres|(Hsub & t & Hrep)]; [now left|right].
        cbn [st_env st_clock pool_step] in Hsub, Hrep.
        eexists _, t, i, _. split; [|split; [exact Hsub|exact Hrep]]. reflexivity.
    + right. split; [exact Hno|]. right.
      cbn [st_env st_clock pool_step] in Hbusy.
      cbn [st_env st_clock pool_step] in Hsub.
      eexists i, _. split; [|split; [exact Hsub|exact Hbusy]]. reflexivity.
  - right. split; [exact Heq|now left].
Qed.

(** [HardwareCodecDeflateQpl::doDecompressDataAsynchronous] on a ready pool. *)
Lemma hw_doDecompressDataAsynchronous_spec fuel src n dst dst_size s :
  job_pool_ready (st_pool s) = true ->
  pool_wf (st_pool s) ->
  (exists res s',
      hw_doDecompressDataAsynchronous fuel src n dst dst_size s = (Ret res, s') /\
      hw_called (src, n, dst, dst_size) s s' /\
      st_mem s' = st_mem s /\
      ((res = RET_ERROR /\
        decomp_async_job_map s' = decomp_async_job_map s /\
        locks_of s' = locks_of s /\
        exists evs, st_trace s' = evs ++ st_trace s /\
                    forall i j, ~ In (EvHwSubmit i j QPL_STS_OK) evs)
       \/ (exists i j,
             0 <= i < capacity s /\
             res = to_Int32 (capacity s - i) /\ res <> RET_ERROR /\
             locks_of s !! Z.to_nat i = Some false /\
             locks_of s' = <[Z.to_nat i := true]> (locks_of s) /\
             decomp_async_job_map s' =
               map_insert (capacity s - i) i (decomp_async_job_map s) /\
             job_buffers j = (src, n, dst, dst_size) /\
             hw_submit_status (st_env s) (st_clock s) i = QPL_STS_OK /\
             exists evs, st_trace s' = EvHwSubmit i j QPL_STS_OK :: evs ++ st_trace s)))
  \/ ((fuel <= Z.to_nat (capacity s))%nat /\
      fst (hw_doDecompressDataAsynchronous fuel src n dst dst_size s) = NoResult).
Proof.
  intros Hready Hwf. rewrite hw_doDecompressDataAsynchronous_unfold.
  destruct (hw_entry_cases fuel (hw_decompress_async_with src n dst dst_size) s Hready Hwf)
    as [(evs & d & Hevs & Heq)|[(evs & d & i & Hevs & Hi & Hfree & Heq)|(Hf & Heq)]].
  - left. eexists _, _. split; [exact Heq|].
    split; [now apply hw_called_acquire_failed|]. split; [reflexivity|]. left.
    split; [reflexivity|]. split; [reflexivity|]. split; [reflexivity|].
    exists evs. split; [reflexivity|]. intros i j Hin.
    rewrite List.Forall_forall in Hevs. apply Hevs in Hin. discriminate.
  - left. rewrite Heq.
    destruct (hw_decompress_async_with_spec src n dst dst_size i (capacity s - i)
                 (pool_step (<[Z.to_nat i := true]> (locks_of s)) d (EvTryLock i true :: evs) s))
      as (s' & Hrun & Ht & Hmem & Hcase).
    { exact Hready. }
    { apply (pool_step_jobs_len i d (EvTryLock i true :: evs) s Hwf Hi). }
    eexists _, s'. split; [exact Hrun|].
    split; [eapply hw_touched_called; eauto; lia|].
    split; [exact Hmem|].
    pose proof (slot_of_handle i s Hwf Hi) as Hslot.
    cbn [st_env st_clock pool_step] in *.
    destruct (hw_submit_status (st_env s) (st_clock s) i) eqn:Hsub; cbn in Hcase |- *.
    + right. destruct Hcase as (Hmap & Hlocks & Htr).
      pose proof Hwf as (Hcap & _). unfold capacity in *.
      match type of Htr with _ = EvHwSubmit _ ?j _ :: _ => exists i, j end.
      split; [exact Hi|]. split; [reflexivity|]. split.
      { unfold to_Int32, RET_ERROR.
        intros Hc.
        assert (Hr : 1 <= max_hw_jobs (st_pool s) - i <= 2 ^ 31) by lia.
        destruct (Z.eq_dec (max_hw_jobs (st_pool s) - i) (2 ^ 31)) as [E|E].
        - rewrite E in Hc. vm_compute in Hc. discriminate.
        - rewrite Z.mod_small in Hc by lia. lia. }
      split; [exact Hfree|]. split; [exact Hlocks|]. split; [exact Hmap|].
      split; [reflexivity|]. split; [exact Hsub|].
      exists (EvTryLock i true :: evs). exact Htr.
    + left. destruct Hcase as (Hmap & Hlocks & Htr). split; [reflexivity|]. split; [exact Hmap|].
      split; [rewrite Hlocks; unfold capacity in *; rewrite Hslot; now apply insert_undo|].
      eexists (_ :: _ :: _ :: evs). split; [exact Htr|].
      intros i0 j0 [Hin|[Hin|[Hin|Hin]]]; try discriminate.
      rewrite List.Forall_forall in Hevs. apply Hevs in Hin. discriminate.
    + left. destruct Hcase as (Hmap & Hlocks & Htr). split; [reflexivity|]. split; [exact Hmap|].
      split; [rewrite Hlocks; unfold capacity in *; rewrite Hslot; now apply insert_undo|].
      eexists (_ :: _ :: _ :: evs). split; [exact Htr|].
      intros i0 j0 [Hin|[Hin|[Hin|Hin]]]; try discriminate.
      rewrite List.Forall_forall in Hevs. apply Hevs in Hin. discriminate.
  - right. split; assumption.
Qed.

(** ** The software engine *)

Ltac sw_exec :=
  unfold sw_doDecompressData, sw_doCompressData, getJobCodecPtr, update_sw_job, sw_execute_job,
    the_sw_job, sw_init_failure, sw_init_fails, sw_ran, sw_init_events,
    sw_decompress_reply, sw_compress_reply;
  unfold the_sw_job; unfold bind, ret, gets, modify, throw; cbn.

Lemma sw_doDecompressData_run src n dst dst_size s :
  let j := configure_decompress src n dst dst_size (the_sw_job s) in
  let r := sw_decompress_reply src n dst dst_size s in
  sw_doDecompressData src n dst dst_size s =
    if sw_init_fails s then sw_init_failure s
    else
      (if status_is_ok (fst r) then Ret tt
       else Throw {| exn_code := CANNOT_DECOMPRESS; exn_site := SwExecutionFailed;
                     exn_status := fst r |},
       sw_ran j (fst r) (snd r) s).
Proof.
  intros j r. subst j r.
  destruct s as [m p [swj|] amap mode clk env tr]; sw_exec.
  - destruct (sw_engine env _ _) as [st out]; cbn. destruct st; reflexivity.
  - destruct (sw_init_status env); cbn; try reflexivity.
    destruct (sw_engine env _ _) as [st out]; cbn. destruct st; reflexivity.
Qed.

Lemma sw_doCompressData_run src n dst dst_size s :
  let j := configure_compress src n dst dst_size (the_sw_job s) in
  let r := sw_compress_reply src n dst dst_size s in
  sw_doCompressData src n dst dst_size s =
    if sw_init_fails s then sw_init_failure s
    else
      (if status_is_ok (fst r) then Ret (to_UInt32 (Z.of_nat (length (snd r))))
       else Throw {| exn_code := CANNOT_COMPRESS; exn_site := SwExecutionFailed;
                     exn_status := fst r |},
       sw_ran j (fst r) (snd r) s).
Proof.
  intros j r. subst j r.
  destruct s as [m p [swj|] amap mode clk env tr]; sw_exec.
  - destruct (sw_engine env _ _) as [st out]; cbn. destruct st; reflexivity.
  - destruct (sw_init_status env); cbn; try reflexivity.
    destruct (sw_engine env _ _) as [st out]; cbn. destruct st; reflexivity.
Qed.

(** C9 (finalization of the software engine's resource), as the code has
    it.  The destructor tests [!sw_job]: an engine whose resource was
    created is destroyed without finalizing it, and an engine whose resource
    was never created passes the null pointer to [qpl_fini_job].  In
    particular the resource that [getJobCodecPtr] creates on first use is
    never finalized. *)
Theorem sw_destructor_inverted (s : State) :
  (forall j, sw_job s = Some j -> sw_destructor s = (Ret tt, s)) /\
  (sw_job s = None -> sw_destructor s = (Ret tt, log (EvFini None) s)) /\
  (sw_init_fails s = false ->
   exists s1, getJobCodecPtr s = (Ret tt, s1) /\
              sw_job s1 = Some (the_sw_job s) /\
              sw_destructor s1 = (Ret tt, s1)).
Proof.
  split; [|split].
  - intros j H. unfold sw_destructor, bind, gets, ret. now rewrite H.
  - intros H. unfold sw_destructor, bind, gets, modify. now rewrite H.
  - intros H. unfold sw_init_fails in H.
    destruct s as [m p [swj|] amap mode clk env tr]; cbn in H.
    + eexists. split; [reflexivity|]. split; reflexivity.
    + unfold getJobCodecPtr, bind, gets, modify, ret, throw. cbn.
      destruct (sw_init_status env); try discriminate. cbn.
      eexists. split; [reflexivity|]. split; reflexivity.
Qed.

Lemma sw_destructor_inverted_witness :
  let s := example_state (example_env 0 QPL_STS_OK []) false [] SoftwareFallback in
  sw_job s = None /\
  sw_init_fails s = false /\
  sw_destructor s = (Ret tt, log (EvFini None) s) /\
  exists s1, getJobCodecPtr s = (Ret tt, s1) /\
             sw_job s1 = Some (the_sw_job s) /\
             sw_destructor s1 = (Ret tt, s1).
Proof.
  intros s.
  destruct (sw_destructor_inverted s) as (_ & Hnone & Hinit).
  split; [reflexivity|]. split; [reflexivity|].
  split; [apply Hnone; reflexivity|apply Hinit; reflexivity].
Defined.

(** ** The orchestrating codec *)

Lemma flush_unready fuel s :
  job_pool_ready (st_pool s) = false ->
  flushAsynchronousDecompressRequests fuel s = (Ret tt, with_mode Synchronous s).
Proof.
  intros H. unfold flushAsynchronousDecompressRequests, bind, isJobPoolReady, gets.
  now rewrite H.
Qed.

Lemma flush_ready fuel s :
  job_pool_ready (st_pool s) = true ->
  flushAsynchronousDecompressRequests fuel s =
    match hw_flushAsynchronousDecompressRequests fuel s with
    | (Ret _, s1) => (Ret tt, with_mode Synchronous s1)
    | (Throw e, s1) => (Throw e, s1)
    | (NoResult, s1) => (NoResult, s1)
    end.
Proof.
  intros H. unfold flushAsynchronousDecompressRequests, bind at 1, isJobPoolReady, gets at 1.
  rewrite H. unfold bind.
  destruct (hw_flushAsynchronousDecompressRequests fuel s) as [[| |] ?]; reflexivity.
Qed.

Lemma hw_flush_nothing_pending fuel s :
  decomp_async_job_map s = [] ->
  hw_flushAsynchronousDecompressRequests fuel s = (Ret tt, s).
Proof.
  intros H. unfold hw_flushAsynchronousDecompressRequests, bind, gets. rewrite H.
  destruct fuel; reflexivity.
Qed.




Lemma sw_doDecompressData_frame src n dst dst_size s :
  let s' := snd (sw_doDecompressData src n dst dst_size s) in
  st_pool s' = st_pool s /\
  decomp_async_job_map s' = decomp_async_job_map s /\
  decompress_mode s' = decompress_mode s /\
  st_env s' = st_env s /\
  fst (sw_doDecompressData src n dst dst_size s) <> NoResult.
Proof.
  cbv zeta. rewrite sw_doDecompressData_run.
  destruct (sw_init_fails s); [repeat split; discriminate|].
  cbn. repeat split. destruct (status_is_ok _); discriminate.
Qed.

Lemma sw_doCompressData_frame src n dst dst_size s :
  let s' := snd (sw_doCompressData src n dst dst_size s) in
  st_pool s' = st_pool s /\
  decomp_async_job_map s' = decomp_async_job_map s /\
  decompress_mode s' = decompress_mode s /\
  st_env s' = st_env s /\
  fst (sw_doCompressData src n dst dst_size s) <> NoResult.
Proof.
  cbv zeta. rewrite sw_doCompressData_run.
  destruct (sw_init_fails s); [repeat split; discriminate|].
  cbn. repeat split. destruct (status_is_ok _); discriminate.
Qed.

Lemma doDecompressData_unfold fuel src n dst dst_size s :
  doDecompressData fuel src n dst dst_size s =
  let s0 := touched dst dst_size s in
  let sw := sw_doDecompressData src n dst dst_size in
  let retry (hw : Outcome Z * State) :=
    match hw with
    | (Ret res, s1) => if res =? RET_ERROR then sw s1 else (Ret tt, s1)
    | (Throw e, s1) => (Throw e, s1)
    | (NoResult, s1) => (NoResult, s1)
    end in
  match decompress_mode s with
  | Synchronous =>
      if job_pool_ready (st_pool s)
      then retry (hw_doDecompressDataSynchronous fuel src n dst dst_size s0)
      else sw s0
  | Asynchronous =>
      if job_pool_ready (st_pool s)
      then retry (hw_doDecompressDataAsynchronous fuel src n dst dst_size s0)
      else sw s0
  | SoftwareFallback => sw s0
  end.
Proof.
  unfold doDecompressData, touchBufferWithZeroFilling, getDecompressMode, isJobPoolReady.
  unfold bind at 1, modify at 1. fold (touched dst dst_size s).
  unfold bind at 1, gets at 1.
  change (decompress_mode (touched dst dst_size s)) with (decompress_mode s).
  destruct (decompress_mode s); cbv zeta.
  - unfold bind at 1, gets at 1.
    change (job_pool_ready (st_pool (touched dst dst_size s))) with (job_pool_ready (st_pool s)).
    destruct (job_pool_ready (st_pool s)); [|reflexivity].
    unfold bind, ret.
    destruct (hw_doDecompressDataSynchronous _ _ _ _ _ _) as [[res| |] s1]; try reflexivity.
    destruct (res =? RET_ERROR); reflexivity.
  - unfold bind at 1, gets at 1.
    change (job_pool_ready (st_pool (touched dst dst_size s))) with (job_pool_ready (st_pool s)).
    destruct (job_pool_ready (st_pool s)).
    + unfold bind, ret.
      destruct (hw_doDecompressDataAsynchronous _ _ _ _ _ _) as [[res| |] s1]; try reflexivity.
      destruct (res =? RET_ERROR); reflexivity.
    + unfold bind, ret. cbn. reflexivity.
  - reflexivity.
Qed.

Lemma hw_event_not_sw b evs :
  Forall (hw_event_on b) evs -> Forall (fun e => is_sw_event e = false) evs.
Proof.
  intros H. eapply Forall_impl; [exact H|]. intros [] He; cbn in *; tauto.
Qed.

Lemma hw_called_pending_untouched b s s' :
  hw_called b s s' ->
  decomp_async_job_map s' = decomp_async_job_map s ->
  locks_of s' = locks_of s ->
  pending_untouched s s'.
Proof.
  intros Hc Hmap Hlocks. split; [exact Hmap|]. split; [exact Hlocks|]. apply (hc_jobs _ _ _ Hc).
Qed.

(** C6 (asynchronous-mode degradation).  A decompress call in mode
    [Asynchronous] touches the destination and then: on a pool that is not
    ready it is the software decompress of the same arguments; on a ready
    pool either the submission is accepted, in which case the call returns
    with no software event logged, the software resource as it was, and the
    job registered under its handle with its slot held; or no submission is
    accepted, in which case the call is the software decompress of the same
    arguments, run after the hardware attempt.  In the degraded cases the
    map, the slot flags and the jobs of the held slots are as before. *)
Theorem async_degradation (fuel : nat) (src n dst dst_size : Z) (s : State) :
  decompress_mode s = Asynchronous ->
  let s0 := touched dst dst_size s in
  let call := doDecompressData fuel src n dst dst_size s in
  (job_pool_ready (st_pool s) = false ->
   call = sw_doDecompressData src n dst dst_size s0 /\
   pending_untouched s (snd call)) /\
  (job_pool_ready (st_pool s) = true ->
   pool_wf (st_pool s) ->
   (Z.to_nat (capacity s) < fuel)%nat ->
   (exists i j evs s',
       call = (Ret tt, s') /\
       st_trace s' = EvHwSubmit i j QPL_STS_OK :: evs ++ st_trace s /\
       job_buffers j = (src, n, dst, dst_size) /\
       Forall (fun e => is_sw_event e = false) (EvHwSubmit i j QPL_STS_OK :: evs) /\
       sw_job s' = sw_job s /\
       locks_of s !! Z.to_nat i = Some false /\
       locks_of s' = <[Z.to_nat i := true]> (locks_of s) /\
       decomp_async_job_map s' = map_insert (capacity s - i) i (decomp_async_job_map s))
   \/ (exists evs s1,
       st_trace s1 = evs ++ st_trace s /\
       (forall i j, ~ In (EvHwSubmit i j QPL_STS_OK) evs) /\
       Forall (fun e => is_sw_event e = false) evs /\
       call = sw_doDecompressData src n dst dst_size s1 /\
       pending_untouched s (snd call))).
Proof.
  intros Hmode s0 call. subst call. rewrite doDecompressData_unfold, Hmode. cbv zeta.
  fold s0. split.
  - intros Hready. rewrite Hready. split; [reflexivity|].
    destruct (sw_doDecompressData_frame src n dst dst_size s0) as (Hp & Hm & _).
    split; [exact Hm|]. unfold locks_of. rewrite Hp. split; reflexivity.
  - intros Hready Hwf Hfuel. rewrite Hready.
    destruct (hw_doDecompressDataAsynchronous_spec fuel src n dst dst_size s0 Hready Hwf)
      as [(res & s1 & Hrun & Hc & Hmem & Hcase)|(Hf & _)];
      [|change (capacity s0) with (capacity s) in Hf; lia].
    rewrite Hrun.
    destruct Hcase as [(-> & Hmap & Hlocks & evs & Htr & Hnone)
                      |(i & j & Hi & -> & Hne & Hfree & Hlocks & Hmap & Hj & _ & evs & Htr)].
    + right. exists evs, s1. cbn [Z.eqb RET_ERROR Pos.eqb].
      split; [exact Htr|]. split; [exact Hnone|].
      destruct (hc_trace _ _ _ Hc) as (evs' & Htr' & Hevs').
      rewrite Htr in Htr'. apply app_inv_tail in Htr'. subst evs'.
      split; [now apply hw_event_not_sw in Hevs'|]. split; [reflexivity|].
      destruct (sw_doDecompressData_frame src n dst dst_size s1) as (Hp & Hm & _).
      destruct (hw_called_pending_untouched _ _ _ Hc Hmap Hlocks) as (P1 & P2 & P3).
      split; [now rewrite Hm|]. unfold locks_of in *. rewrite Hp.
      split; [exact P2|exact P3].
    + left. apply Z.eqb_neq in Hne. rewrite Hne.
      exists i, j, evs, s1. split; [reflexivity|]. split; [exact Htr|]. split; [exact Hj|].
      destruct (hc_trace _ _ _ Hc) as (evs' & Htr' & Hevs').
      rewrite Htr in Htr'. change (EvHwSubmit i j QPL_STS_OK :: evs ++ st_trace s0)
        with ((EvHwSubmit i j QPL_STS_OK :: evs) ++ st_trace s0) in Htr'.
      apply app_inv_tail in Htr'. subst evs'.
      split; [now apply hw_event_not_sw in Hevs'|].
      split; [exact (hc_sw_job _ _ _ Hc)|]. split; [exact Hfree|].
      split; [exact Hlocks|exact Hmap].
Qed.

(** ** Memory *)

Lemma store_outside out : forall m p a,
  ~ (p <= a < p + Z.of_nat (length out)) -> store m p out a = m a.
Proof.
  induction out as [|b out IH]; intros m p a H; cbn [store]; [reflexivity|].
  cbn [length] in H. rewrite IH by lia.
  destruct (a =? p) eqn:E; [apply Z.eqb_eq in E; lia|reflexivity].
Qed.

Lemma load_store_same out : forall m p, load (store m p out) p (length out) = out.
Proof.
  induction out as [|b out IH]; intros m p; cbn [store length load]; [reflexivity|].
  f_equal.
  - rewrite store_outside by lia. now rewrite Z.eqb_refl.
  - apply IH.
Qed.

Lemma load_ext n : forall m1 m2 p,
  (forall a, p <= a < p + Z.of_nat n -> m1 a = m2 a) -> load m1 p n = load m2 p n.
Proof.
  induction n as [|n IH]; intros m1 m2 p H; cbn [load]; [reflexivity|].
  f_equal; [apply H; lia|]. apply IH. intros a Ha. apply H. lia.
Qed.

Lemma load_store_disjoint m src n dst out :
  src + Z.of_nat n <= dst \/ dst + Z.of_nat (length out) <= src ->
  load (store m dst out) src n = load m src n.
Proof.
  intros H. apply load_ext. intros a Ha. apply store_outside. lia.
Qed.

Lemma to_UInt32_to_Int32 x : 0 <= x < 2 ^ 32 -> to_UInt32 (to_Int32 x) = x.
Proof.
  intros H. unfold to_UInt32, to_Int32.
  destruct (Z_lt_ge_dec x (2 ^ 31)) as [Hlt|Hge].
  - rewrite (Z.mod_small (x + 2 ^ 31)) by lia.
    replace (x + 2 ^ 31 - 2 ^ 31) with x by lia. apply Z.mod_small. lia.
  - replace (x + 2 ^ 31) with ((x - 2 ^ 31) + 1 * 2 ^ 32) by lia.
    rewrite Z.mod_add by lia. rewrite (Z.mod_small (x - 2 ^ 31)) by lia.
    replace (x - 2 ^ 31 - 2 ^ 31) with (x + (-1) * 2 ^ 32) by lia.
    rewrite Z.mod_add by lia. apply Z.mod_small. lia.
Qed.

Lemma getMaxCompressedDataSize_range n : 0 <= getMaxCompressedDataSize n < 2 ^ 32.
Proof. unfold getMaxCompressedDataSize, to_UInt32. apply Z.mod_pos_bound. lia. Qed.

Lemma getMaxCompressedDataSize_exact n :
  0 <= n ->
  n + n / 4096 + n / 16384 + n / 33554432 + 13 < 2 ^ 32 ->
  getMaxCompressedDataSize n = n + n / 4096 + n / 16384 + n / 33554432 + 13.
Proof.
  intros Hn Hlt. unfold getMaxCompressedDataSize.
  rewrite !Z.shiftr_div_pow2 by lia.
  change (2 ^ 12) with 4096. change (2 ^ 14) with 16384. change (2 ^ 25) with 33554432.
  apply to_UInt32_small.
  pose proof (Z.div_pos n 4096). pose proof (Z.div_pos n 16384).
  pose proof (Z.div_pos n 33554432). lia.
Qed.

Lemma doCompressData_unfold fuel src n dst s :
  doCompressData fuel src n dst s =
    if job_pool_ready (st_pool s) then
      match hw_doCompressData fuel src n dst (getMaxCompressedDataSize n) s with
      | (Ret res, s1) =>
          if res =? RET_ERROR then sw_compress_call src n dst s1
          else (Ret (to_UInt32 res), s1)
      | (Throw e, s1) => (Throw e, s1)
      | (NoResult, s1) => (NoResult, s1)
      end
    else sw_compress_call src n dst s.
Proof.
  unfold doCompressData, sw_compress_call, isJobPoolReady.
  unfold bind at 1, gets at 1.
  destruct (job_pool_ready (st_pool s)).
  - unfold bind at 1.
    destruct (hw_doCompressData _ _ _ _ _ _) as [[res| |] s1]; try reflexivity.
    unfold bind at 1. destruct (res =? RET_ERROR) eqn:E.
    + unfold bind, ret.
      destruct (sw_doCompressData _ _ _ _ _) as [[r| |] s2]; reflexivity.
    + reflexivity.
  - unfold bind, ret. cbn.
    destruct (sw_doCompressData _ _ _ _ _) as [[r| |] s2]; reflexivity.
Qed.

Lemma sw_compress_call_run src n dst s :
  let j := configure_compress src n dst (getMaxCompressedDataSize n) (the_sw_job s) in
  let r := sw_compress_reply src n dst (getMaxCompressedDataSize n) s in
  sw_compress_call src n dst s =
    if sw_init_fails s then sw_init_failure s
    else
      (if status_is_ok (fst r)
       then Ret (to_UInt32 (to_Int32 (to_UInt32 (Z.of_nat (length (snd r))))))
       else Throw {| exn_code := CANNOT_COMPRESS; exn_site := SwExecutionFailed;
                     exn_status := fst r |},
       sw_ran j (fst r) (snd r) s).
Proof.
  cbv zeta. unfold sw_compress_call, bind. rewrite sw_doCompressData_run.
  destruct (sw_init_fails s); [reflexivity|].
  destruct (status_is_ok _); reflexivity.
Qed.

Lemma sw_compress_call_bound src n dst s res s' :
  env_respects_capacity (st_env s) ->
  sw_compress_call src n dst s = (Ret res, s') ->
  exists evs out,
    st_trace s' = evs ++ st_trace s /\
    Forall (call_event_on (src, n, dst, getMaxCompressedDataSize n)) evs /\
    st_mem s' = store (st_mem s) dst out /\
    res = Z.of_nat (length out) /\
    res <= getMaxCompressedDataSize n.
Proof.
  intros [_ Hsw] H. rewrite sw_compress_call_run in H.
  destruct (sw_init_fails s); [discriminate|].
  set (j := configure_compress src n dst (getMaxCompressedDataSize n) (the_sw_job s)) in *.
  set (r := sw_compress_reply src n dst (getMaxCompressedDataSize n) s) in *.
  destruct (status_is_ok (fst r)); [|discriminate].
  injection H as <- <-.
  pose proof (getMaxCompressedDataSize_range n) as Hrange.
  pose proof (Hsw j (load (st_mem s) src (Z.to_nat n))) as Hle.
  change (sw_engine (st_env s) j (load (st_mem s) src (Z.to_nat n))) with r in Hle.
  change (available_out j) with (getMaxCompressedDataSize n) in Hle.
  specialize (Hle (proj1 Hrange)).
  rewrite (to_UInt32_small (Z.of_nat (length (snd r)))) by lia.
  rewrite to_UInt32_to_Int32 by lia.
  exists (EvSwExecute j (fst r) :: sw_init_events s), (snd r).
  split; [reflexivity|]. split.
  - constructor; [reflexivity|]. unfold sw_init_events.
    destruct (sw_job s); repeat constructor.
  - split; [reflexivity|]. split; [reflexivity|exact Hle].
Qed.

Lemma hw_event_call_event b evs :
  Forall (hw_event_on b) evs -> Forall (call_event_on b) evs.
Proof.
  intros H. eapply Forall_impl; [exact H|]. intros [] He; cbn in *; tauto.
Qed.

(** C8 (the bound on the compressed size).  [getMaxCompressedDataSize] is a
    function of the input length alone, with values in [UInt32]; it is 13 at
    0 and, as long as the sum fits 32 bits, the zlib formula
    [n + n/2^12 + n/2^14 + n/2^25 + 13].  Whenever
    [CompressionCodecDeflateQpl::doCompressData] returns, every job it
    handed to the hardware or to the software engine carried this bound as
    [available_out], and the value returned is the number of bytes the
    engine that succeeded wrote at [dest], which is at most the bound.
    The engines are assumed never to write more than [available_out]. *)
Theorem max_compressed_size_bounds_output (fuel : nat) (src n dst : Z) (s : State) :
  env_respects_capacity (st_env s) ->
  (job_pool_ready (st_pool s) = true -> pool_wf (st_pool s)) ->
  let bound := getMaxCompressedDataSize n in
  0 <= bound < 2 ^ 32 /\
  getMaxCompressedDataSize 0 = 13 /\
  (0 <= n -> n + n / 4096 + n / 16384 + n / 33554432 + 13 < 2 ^ 32 ->
   bound = n + n / 4096 + n / 16384 + n / 33554432 + 13) /\
  forall res s',
    doCompressData fuel src n dst s = (Ret res, s') ->
    exists evs m0 out,
      st_trace s' = evs ++ st_trace s /\
      Forall (call_event_on (src, n, dst, bound)) evs /\
      st_mem s' = store m0 dst out /\
      res = Z.of_nat (length out) /\
      res <= bound.
Proof.
  intros Henv Hwf bound. split; [apply getMaxCompressedDataSize_range|].
  split; [reflexivity|]. split; [apply getMaxCompressedDataSize_exact|].
  intros res s' Hrun. rewrite doCompressData_unfold in Hrun.
  destruct (job_pool_ready (st_pool s)) eqn:Hready.
  - specialize (Hwf eq_refl).
    destruct (hw_doCompressData_spec fuel src n dst bound s Hready Hwf)
      as [(res0 & s1 & Hhw & Hc & Hmap & Hlocks & Hres)|(_ & Hno)].
    + fold bound in Hrun. rewrite Hhw in Hrun.
      destruct (hc_trace _ _ _ Hc) as (evs0 & Htr0 & Hevs0).
      destruct (res0 =? RET_ERROR) eqn:E.
      * destruct (sw_compress_call_bound src n dst s1 res s') as (evs & out & Htr & Hevs & Hm & Hr & Hle).
        { now rewrite (hc_env _ _ _ Hc). }
        { exact Hrun. }
        exists (evs ++ evs0), (st_mem s1), out.
        split; [rewrite Htr, Htr0; now rewrite app_assoc|].
        split; [apply Forall_app; split; [exact Hevs|now apply hw_event_call_event]|].
        split; [exact Hm|]. split; [exact Hr|exact Hle].
      * apply Z.eqb_neq in E. destruct Hres as [Hres|(t & i & j & Hj & Hok & Hres & Hmem)];
          [contradiction|].
        injection Hrun as <- <-.
        destruct Henv as [Hhwcap _]. specialize (Hhwcap t i j).
        assert (Hav : available_out j = bound) by (injection Hj; auto).
        rewrite Hav in Hhwcap.
        pose proof (getMaxCompressedDataSize_range n) as Hrange. fold bound in Hrange.
        specialize (Hhwcap (proj1 Hrange)).
        exists evs0, (st_mem s), (snd (hw_reply (st_env s) t i j)).
        split; [exact Htr0|]. split; [now apply hw_event_call_event|].
        split; [exact Hmem|]. rewrite Hres.
        rewrite (to_UInt32_small (Z.of_nat _)) by lia.
        rewrite to_UInt32_to_Int32 by lia. split; [reflexivity|exact Hhwcap].
    + fold bound in Hrun.
      destruct (hw_doCompressData fuel src n dst bound s) as [[| |] ?]; cbn in Hno; congruence.
  - destruct (sw_compress_call_bound src n dst s res s' Henv Hrun)
      as (evs & out & Htr & Hevs & Hm & Hr & Hle).
    exists evs, (st_mem s), out. auto.
Qed.

(** ** Fallback *)

Lemma hw_entry_unready fuel (body : Z -> Z -> M Z) s :
  job_pool_ready (st_pool s) = false ->
  (r <- acquireJob fuel;
   match r with
   | None => ret RET_ERROR
   | Some (job_ptr, job_id) => body job_ptr job_id
   end) s = (Ret RET_ERROR, s).
Proof.
  intros H. now rewrite (bind_run _ _ _ _ _ (acquireJob_unready fuel s H)).
Qed.

Lemma hw_doCompressData_no_throw fuel src n dst dst_size s :
  (job_pool_ready (st_pool s) = true -> pool_wf (st_pool s)) ->
  forall e, fst (hw_doCompressData fuel src n dst dst_size s) <> Throw e.
Proof.
  intros Hwf e. destruct (job_pool_ready (st_pool s)) eqn:Hready.
  - destruct (hw_doCompressData_spec fuel src n dst dst_size s Hready (Hwf eq_refl))
      as [(res & s1 & -> & _)|(_ & ->)]; discriminate.
  - rewrite hw_doCompressData_unfold, hw_entry_unready by exact Hready. discriminate.
Qed.

Lemma hw_decompress_entry_no_throw mode fuel src n dst dst_size s :
  (job_pool_ready (st_pool s) = true -> pool_wf (st_pool s)) ->
  forall e, fst (hw_decompress_entry mode fuel src n dst dst_size s) <> Throw e.
Proof.
  intros Hwf e. destruct mode; cbn [hw_decompress_entry]; [| |discriminate];
    destruct (job_pool_ready (st_pool s)) eqn:Hready.
  - destruct (hw_doDecompressDataSynchronous_spec fuel src n dst dst_size s Hready (Hwf eq_refl))
      as [(res & s1 & -> & _)|(-> & _)]; discriminate.
  - rewrite hw_doDecompressDataSynchronous_unfold, hw_entry_unready by exact Hready. discriminate.
  - destruct (hw_doDecompressDataAsynchronous_spec fuel src n dst dst_size s Hready (Hwf eq_refl))
      as [(res & s1 & -> & _)|(_ & ->)]; discriminate.
  - rewrite hw_doDecompressDataAsynchronous_unfold, hw_entry_unready by exact Hready. discriminate.
Qed.

(** The decision tree of [doDecompressData] in one equation: touch the
    destination; on a ready pool make the hardware attempt of the mode and
    retry on the software engine when it answers [RET_ERROR]; otherwise go
    to the software engine directly. *)
Lemma doDecompressData_retry fuel src n dst dst_size s :
  doDecompressData fuel src n dst dst_size s =
  let s0 := touched dst dst_size s in
  if job_pool_ready (st_pool s) then
    match hw_decompress_entry (decompress_mode s) fuel src n dst dst_size s0 with
    | (Ret res, s1) =>
        if res =? RET_ERROR then sw_doDecompressData src n dst dst_size s1 else (Ret tt, s1)
    | (Throw e, s1) => (Throw e, s1)
    | (NoResult, s1) => (NoResult, s1)
    end
  else sw_doDecompressData src n dst dst_size s0.
Proof.
  rewrite doDecompressData_unfold. cbv zeta.
  destruct (decompress_mode s), (job_pool_ready (st_pool s)); reflexivity.
Qed.

Lemma hardware_fails_compress fuel src n dst dst_size s :
  job_pool_ready (st_pool s) = true -> pool_wf (st_pool s) ->
  (Z.to_nat (capacity s) < fuel)%nat ->
  hardware_fails (st_env s) ->
  exists s1, hw_doCompressData fuel src n dst dst_size s = (Ret RET_ERROR, s1).
Proof.
  intros Hready Hwf Hfuel [_ Hrep].
  destruct (hw_doCompressData_spec fuel src n dst dst_size s Hready Hwf)
    as [(res & s1 & Hrun & _ & _ & _ & Hres)|(Hf & _)]; [|lia].
  destruct Hres as [->|(t & i & j & _ & Hok & _)]; [now exists s1|].
  specialize (Hrep t i j). rewrite Hok in Hrep. discriminate.
Qed.

Lemma hardware_fails_decompress mode fuel src n dst dst_size s :
  job_pool_ready (st_pool s) = true -> pool_wf (st_pool s) ->
  (Z.to_nat (capacity s) < fuel)%nat ->
  hardware_fails (st_env s) ->
  exists s1, hw_decompress_entry mode fuel src n dst dst_size s = (Ret RET_ERROR, s1).
Proof.
  intros Hready Hwf Hfuel [Hsub Hrep]. destruct mode; cbn [hw_decompress_entry].
  - destruct (hw_doDecompressDataSynchronous_spec fuel src n dst dst_size s Hready Hwf)
      as [(res & s1 & Hrun & _ & _ & _ & Hres)|(_ & [Hf|(i & j & _ & Hok & _)])]; [| lia |].
    + destruct Hres as [->|(t & t' & i & j & _ & Hok & _)]; [now exists s1|].
      rewrite Hsub in Hok. discriminate.
    + rewrite Hsub in Hok. discriminate.
  - destruct (hw_doDecompressDataAsynchronous_spec fuel src n dst dst_size s Hready Hwf)
      as [(res & s1 & Hrun & Hc & _ & Hcase)|(Hf & _)]; [|lia].
    destruct Hcase as [(-> & _)|(i & j & _ & _ & _ & _ & _ & _ & _ & Hok & _)]; [now exists s1|].
    specialize (Hsub (st_clock s) i). rewrite Hok in Hsub. discriminate.
  - eexists. reflexivity.
Qed.

Lemma sw_decompress_reply_agree src n dst dst_size s1 s2 :
  st_env s1 = st_env s2 ->
  sw_job s1 = sw_job s2 ->
  load (st_mem s1) src (Z.to_nat n) = load (st_mem s2) src (Z.to_nat n) ->
  sw_decompress_reply src n dst dst_size s1 = sw_decompress_reply src n dst dst_size s2.
Proof.
  intros He Hj Hl. unfold sw_decompress_reply, the_sw_job. now rewrite He, Hj, Hl.
Qed.

(** Two software decompress calls that find the same resource, the same
    environment and the same source bytes have the same outcome, leave the
    same resource behind and place the same bytes at the destination. *)
Lemma sw_doDecompressData_agree src n dst dst_size s1 s2 :
  st_env s1 = st_env s2 ->
  sw_job s1 = sw_job s2 ->
  load (st_mem s1) src (Z.to_nat n) = load (st_mem s2) src (Z.to_nat n) ->
  let out := snd (sw_decompress_reply src n dst dst_size s2) in
  let r1 := sw_doDecompressData src n dst dst_size s1 in
  let r2 := sw_doDecompressData src n dst dst_size s2 in
  fst r1 = fst r2 /\
  sw_job (snd r1) = sw_job (snd r2) /\
  (sw_init_fails s2 = false ->
   load (st_mem (snd r1)) dst (length out) = out /\
   load (st_mem (snd r2)) dst (length out) = out).
Proof.
  intros He Hj Hl out r1 r2. subst out r1 r2.
  rewrite !sw_doDecompressData_run.
  rewrite (sw_decompress_reply_agree src n dst dst_size s1 s2 He Hj Hl).
  assert (Hinit : sw_init_fails s1 = sw_init_fails s2)
    by (unfold sw_init_fails; now rewrite He, Hj).
  rewrite Hinit. destruct (sw_init_fails s2).
  - unfold sw_init_failure. cbn. rewrite He.
    split; [reflexivity|]. split; [reflexivity|discriminate].
  - cbn. unfold the_sw_job. rewrite Hj.
    split; [reflexivity|]. split; [reflexivity|]. intros _. split; apply load_store_same.
Qed.

Lemma hw_called_source_intact src n dst dst_size s s1 :
  env_respects_capacity (st_env s) ->
  buffers_disjoint src n dst dst_size ->
  hw_called (src, n, dst, dst_size) s s1 ->
  load (st_mem s1) src (Z.to_nat n) = load (st_mem s) src (Z.to_nat n).
Proof.
  intros [Hcap _] (Hn & Hd & Hdis) Hc.
  destruct (hc_mem _ _ _ Hc) as [->|(t & i & j & Hj & ->)]; [reflexivity|].
  apply load_store_disjoint. cbn [buffers_dest fst snd].
  specialize (Hcap t i j). assert (Hav : available_out j = dst_size) by (injection Hj; auto).
  rewrite Hav in Hcap. specialize (Hcap Hd). lia.
Qed.

Lemma hw_called_refl b s : hw_called b s s.
Proof.
  split; try reflexivity; try lia.
  - exists []. split; [reflexivity|constructor].
  - now left.
Qed.

Lemma hw_decompress_entry_called mode fuel src n dst dst_size s res s1 :
  job_pool_ready (st_pool s) = true -> pool_wf (st_pool s) ->
  hw_decompress_entry mode fuel src n dst dst_size s = (Ret res, s1) ->
  hw_called (src, n, dst, dst_size) s s1.
Proof.
  intros Hready Hwf H. destruct mode; cbn [hw_decompress_entry] in H.
  - destruct (hw_doDecompressDataSynchronous_spec fuel src n dst dst_size s Hready Hwf)
      as [(res' & s1' & Hrun & Hc & _)|(Hno & _)].
    + rewrite Hrun in H. now injection H as <- <-.
    + rewrite H in Hno. discriminate.
  - destruct (hw_doDecompressDataAsynchronous_spec fuel src n dst dst_size s Hready Hwf)
      as [(res' & s1' & Hrun & Hc & _)|(_ & Hno)].
    + rewrite Hrun in H. now injection H as <- <-.
    + rewrite H in Hno. discriminate.
  - injection H as <- <-. apply hw_called_refl.
Qed.

Lemma sw_compress_call_total src n dst s : fst (sw_compress_call src n dst s) <> NoResult.
Proof.
  rewrite sw_compress_call_run. destruct (sw_init_fails s); [discriminate|].
  cbn. destruct (status_is_ok _); discriminate.
Qed.

(** The fallback, from the value the hardware attempt answered.  For a
    codec whose pool, if ready, is well formed:
    - no hardware entry point ever throws;
    - on a pool that is not ready, compress and decompress are the software
      compress and decompress of the same arguments;
    - on a ready pool, when the hardware attempt answers [RET_ERROR], the
      call is the software operation with the same arguments, run in the
      state the attempt left, and it completes: it returns or it throws the
      software engine's exception;
    - when every hardware submission and execution fails (and the retry
      loop of [acquireJob] has the fuel for its bound), the hardware attempt
      does answer [RET_ERROR];
    - when the hardware attempt of a decompress answers [RET_ERROR], the
      engines respect [available_out] and source and destination do not
      overlap, the call has the same outcome as the run of the same call with
      the pool marked not ready, leaves the same software resource behind,
      and the bytes at the destination are in both runs the output of the
      software engine. *)
Lemma fallback_on_error_value (fuel : nat) (src n dst dst_size : Z) (s : State) :
  (job_pool_ready (st_pool s) = true -> pool_wf (st_pool s)) ->
  let s0 := touched dst dst_size s in
  let mode := decompress_mode s in
  let bound := getMaxCompressedDataSize n in
  (forall e, fst (hw_doCompressData fuel src n dst bound s) <> Throw e /\
             fst (hw_decompress_entry mode fuel src n dst dst_size s0) <> Throw e) /\
  (job_pool_ready (st_pool s) = false ->
   doCompressData fuel src n dst s = sw_compress_call src n dst s /\
   doDecompressData fuel src n dst dst_size s = sw_doDecompressData src n dst dst_size s0) /\
  (job_pool_ready (st_pool s) = true ->
   (forall s1, hw_doCompressData fuel src n dst bound s = (Ret RET_ERROR, s1) ->
               doCompressData fuel src n dst s = sw_compress_call src n dst s1 /\
               fst (doCompressData fuel src n dst s) <> NoResult) /\
   (forall s1, hw_decompress_entry mode fuel src n dst dst_size s0 = (Ret RET_ERROR, s1) ->
               doDecompressData fuel src n dst dst_size s =
                 sw_doDecompressData src n dst dst_size s1 /\
               fst (doDecompressData fuel src n dst dst_size s) <> NoResult)) /\
  (job_pool_ready (st_pool s) = true ->
   (Z.to_nat (capacity s) < fuel)%nat ->
   hardware_fails (st_env s) ->
   (exists s1, hw_doCompressData fuel src n dst bound s = (Ret RET_ERROR, s1)) /\
   (exists s1, hw_decompress_entry mode fuel src n dst dst_size s0 = (Ret RET_ERROR, s1))) /\
  (job_pool_ready (st_pool s) = true ->
   env_respects_capacity (st_env s) ->
   buffers_disjoint src n dst dst_size ->
   forall s1, hw_decompress_entry mode fuel src n dst dst_size s0 = (Ret RET_ERROR, s1) ->
     let out := snd (sw_decompress_reply src n dst dst_size s0) in
     let run := doDecompressData fuel src n dst dst_size s in
     let sw_run := doDecompressData fuel src n dst dst_size (software_only s) in
     fst run = fst sw_run /\
     sw_job (snd run) = sw_job (snd sw_run) /\
     (sw_init_fails s = false ->
      load (st_mem (snd run)) dst (length out) = out /\
      load (st_mem (snd sw_run)) dst (length out) = out)).
Proof.
  intros Hwf s0 mode bound.
  split; [|split; [|split; [|split]]].
  - intros e. split.
    + now apply hw_doCompressData_no_throw.
    + now apply hw_decompress_entry_no_throw.
  - intros Hready. rewrite doCompressData_unfold, doDecompressData_retry, Hready.
    split; reflexivity.
  - intros Hready. split; intros s1 Hhw.
    + rewrite doCompressData_unfold, Hready. fold bound. rewrite Hhw. cbn [Z.eqb RET_ERROR Pos.eqb].
      split; [reflexivity|apply sw_compress_call_total].
    + rewrite doDecompressData_retry, Hready. cbv zeta. fold s0 mode. rewrite Hhw.
      cbn [Z.eqb RET_ERROR Pos.eqb].
      split; [reflexivity|apply sw_doDecompressData_frame].
  - intros Hready Hfuel Hfails. split.
    + now apply hardware_fails_compress; auto.
    + now apply hardware_fails_decompress; auto.
  - intros Hready Henv Hdis s1 Hhw out run sw_run. subst out run sw_run.
    rewrite !doDecompressData_retry. cbv zeta. fold s0 mode. rewrite Hready, Hhw.
    cbn [Z.eqb RET_ERROR Pos.eqb job_pool_ready st_pool software_only with_pool].
    change (touched dst dst_size (software_only s)) with (software_only s0).
    pose proof (hw_decompress_entry_called _ _ _ _ _ _ s0 _ _ Hready (Hwf Hready) Hhw) as Hc.
    assert (Hagree := sw_doDecompressData_agree src n dst dst_size s1 (software_only s0)).
    cbv zeta in Hagree.
    change (sw_decompress_reply src n dst dst_size (software_only s0))
      with (sw_decompress_reply src n dst dst_size s0) in Hagree.
    change (sw_init_fails (software_only s0)) with (sw_init_fails s) in Hagree.
    apply Hagree.
    + exact (hc_env _ _ _ Hc).
    + exact (hc_sw_job _ _ _ Hc).
    + now apply (hw_called_source_intact src n dst dst_size s0 s1).
Qed.

(** ** The example environments *)

Lemma example_env_respects_capacity latency hw_final hw_out :
  env_respects_capacity (example_env latency hw_final hw_out).
Proof.
  split.
  - intros t i j Hj. unfold example_env, hw_reply.
    destruct (t <? latency)%nat; cbn [snd length]; [exact Hj|].
    rewrite length_take. lia.
  - intros j [|b input] Hj; unfold example_env, sw_engine; cbn [snd length]; [exact Hj|].
    rewrite length_take. lia.
Qed.

Lemma example_failing_env_respects_capacity : env_respects_capacity example_failing_env.
Proof.
  split.
  - intros t i j Hj. exact Hj.
  - apply (example_env_respects_capacity 0 QPL_STS_OK []).
Qed.

Lemma example_pool_wf locks :
  (0 < length locks)%nat -> (Z.of_nat (length locks) <= 2 ^ 31) ->
  pool_wf (example_pool true locks).
Proof.
  intros H1 H2. unfold pool_wf, example_pool. cbn [max_hw_jobs hw_job_ptr_locks hw_jobs_buffer].
  rewrite length_replicate. lia.
Qed.

Lemma async_degradation_witness :
  let s := example_state (example_env 2 QPL_STS_OK [7; 8; 9]) true [true; false] Asynchronous in
  let call := doDecompressData 5 10 4 100 4 s in
  decompress_mode s = Asynchronous /\
  pool_wf (st_pool s) /\
  (Z.to_nat (capacity s) < 5)%nat /\
  ((exists i j evs,
       st_trace (snd call) = EvHwSubmit i j QPL_STS_OK :: evs ++ st_trace s /\
       Forall (fun e => is_sw_event e = false) (EvHwSubmit i j QPL_STS_OK :: evs) /\
       decomp_async_job_map (snd call) = map_insert (capacity s - i) i (decomp_async_job_map s))
   \/ (exists s1, call = sw_doDecompressData 10 4 100 4 s1 /\ pending_untouched s (snd call))).
Proof.
  intros s call.
  assert (Hmode : decompress_mode s = Asynchronous) by reflexivity.
  assert (Hwf : pool_wf (st_pool s)) by (apply example_pool_wf; cbn; lia).
  assert (Hfuel : (Z.to_nat (capacity s) < 5)%nat) by (cbn; lia).
  split; [exact Hmode|]. split; [exact Hwf|]. split; [exact Hfuel|].
  destruct (async_degradation 5 10 4 100 4 s Hmode) as (_ & Hready).
  destruct (Hready eq_refl Hwf Hfuel)
    as [(i & j & evs & s' & Hcall & Htr & _ & Hsw & _ & _ & _ & Hmap)
       |(evs & s1 & _ & _ & _ & Hcall & Hpend)].
  - left. exists i, j, evs. fold call in Hcall. rewrite Hcall. auto.
  - right. exists s1. auto.
Defined.

Lemma max_compressed_size_bounds_output_witness :
  let s := example_state (example_env 0 QPL_STS_OK [1; 2; 3]) true [false; false] Synchronous in
  let s' := snd (doCompressData 5 10 4 100 s) in
  env_respects_capacity (st_env s) /\
  pool_wf (st_pool s) /\
  doCompressData 5 10 4 100 s = (Ret 3, s') /\
  exists evs m0 out,
    st_trace s' = evs ++ st_trace s /\
    Forall (call_event_on (10, 4, 100, getMaxCompressedDataSize 4)) evs /\
    st_mem s' = store m0 100 out /\
    3 = Z.of_nat (length out) /\
    3 <= getMaxCompressedDataSize 4.
Proof.
  intros s s'.
  assert (Henv : env_respects_capacity (st_env s)) by apply example_env_respects_capacity.
  assert (Hwf : pool_wf (st_pool s)) by (apply example_pool_wf; cbn; lia).
  assert (Hrun : doCompressData 5 10 4 100 s = (Ret 3, s')) by (vm_compute; reflexivity).
  split; [exact Henv|]. split; [exact Hwf|]. split; [exact Hrun|].
  destruct (max_compressed_size_bounds_output 5 10 4 100 s Henv (fun _ => Hwf))
    as (_ & _ & _ & Hbound).
  exact (Hbound 3 s' Hrun).
Defined.

(** ** The drain *)

Lemma loop_after_bind {A} loop (m : M A) f s :
  loop_after loop (bind m f s) =
    match m s with
    | (Ret a, s1) => loop_after loop (f a s1)
    | (Throw e, s1) => (Throw e, s1)
    | (NoResult, s1) => (NoResult, s1)
    end.
Proof. unfold bind. destruct (m s) as [[| |] ?]; reflexivity. Qed.

Lemma bind_unfold {A B} (m : M A) (f : A -> M B) s :
  bind m f s =
    match m s with
    | (Ret a, s1) => f a s1
    | (Throw e, s1) => (Throw e, s1)
    | (NoResult, s1) => (NoResult, s1)
    end.
Proof. reflexivity. Qed.

Lemma flush_loop_iter fuel n it s :
  flush_loop (S fuel) n it s = loop_after (flush_loop fuel) (flush_iter n it s).
Proof.
  destruct n as [|n_rest]; [reflexivity|].
  cbn [flush_loop flush_iter].
  rewrite loop_after_bind, bind_unfold. cbn [gets].
  unfold gets.
  destruct (decomp_async_job_map s !! it) as [[job_id job_ptr]|]; [|reflexivity].
  rewrite loop_after_bind, bind_unfold.
  destruct (hw_check_job job_ptr s) as [[status| |] s1]; try reflexivity.
  destruct (status_in_progress status).
  - rewrite loop_after_bind, bind_unfold.
    destruct (wrap_iterator (S it) s1) as [[it'| |] s2]; reflexivity.
  - rewrite loop_after_bind, bind_unfold.
    match goal with |- context [let (_, _) := ?x in _] =>
      destruct x as [[[]| |] s2] end; try reflexivity.
    rewrite loop_after_bind, bind_unfold. unfold modify at 1 2.
    rewrite loop_after_bind, bind_unfold.
    destruct (releaseJob job_id _) as [[[]| |] s3]; try reflexivity.
    destruct n_rest as [|n_rest]; [reflexivity|].
    rewrite loop_after_bind, bind_unfold.
    destruct (wrap_iterator it s3) as [[it'| |] s4]; reflexivity.
Qed.

Lemma hw_check_job_run ptr s :
  let r := hw_reply (st_env s) (st_clock s) ptr (hw_job ptr s) in
  hw_check_job ptr s =
    (Ret (fst r),
     log (EvHwCheck ptr (fst r))
         (if status_in_progress (fst r) then tick s else device_done ptr (snd r) (tick s))).
Proof.
  cbv zeta. unfold hw_check_job, device_observe, update_hw_job, bind, modify, gets, ret.
  destruct (status_in_progress _); reflexivity.
Qed.

Lemma wrap_iterator_run it s :
  wrap_iterator it s =
    if (it =? length (decomp_async_job_map s))%nat
    then (Ret O, log EvPause s) else (Ret it, s).
Proof.
  unfold wrap_iterator, bind, gets, tpause, modify, ret.
  destruct (it =? _)%nat; reflexivity.
Qed.

Lemma drain_frame_refl s : drain_frame s s.
Proof. split; try reflexivity; lia. Qed.

Lemma drain_frame_trans s1 s2 s3 :
  drain_frame s1 s2 -> drain_frame s2 s3 -> drain_frame s1 s3.
Proof.
  intros H1 H2. split.
  - rewrite (df_env _ _ H2). apply (df_env _ _ H1).
  - rewrite (df_ready _ _ H2). apply (df_ready _ _ H1).
  - rewrite (df_capacity _ _ H2). apply (df_capacity _ _ H1).
  - rewrite (df_mode _ _ H2). apply (df_mode _ _ H1).
  - rewrite (df_locks_len _ _ H2). apply (df_locks_len _ _ H1).
  - rewrite (df_jobs_len _ _ H2). apply (df_jobs_len _ _ H1).
  - intros k. rewrite (df_buffers _ _ H2). apply (df_buffers _ _ H1).
  - pose proof (df_clock _ _ H1). pose proof (df_clock _ _ H2). lia.
Qed.

Lemma job_buffers_set_total_out n j : job_buffers (set_total_out n j) = job_buffers j.
Proof. reflexivity. Qed.

Lemma hw_job_device_done_buffers index out k s :
  job_buffers (hw_job k (device_done index out s)) = job_buffers (hw_job k s).
Proof.
  unfold hw_job at 1. unfold device_done. cbn.
  destruct (decide (Z.to_nat index = Z.to_nat k)) as [E|E].
  - destruct (hw_jobs_buffer (st_pool s) !! Z.to_nat k) as [j|] eqn:Hk.
    + rewrite E, list_lookup_insert_eq by (apply lookup_lt_Some in Hk; exact Hk).
      cbn. unfold hw_job. now rewrite E, Hk.
    + rewrite list_insert_ge by (apply lookup_ge_None in Hk; lia).
      unfold hw_job. now rewrite Hk.
  - rewrite list_lookup_insert_ne by exact E. reflexivity.
Qed.

Lemma drain_frame_check ptr st s :
  drain_frame s (log (EvHwCheck ptr st) (tick s)).
Proof. split; cbn; try reflexivity; lia. Qed.

Lemma drain_frame_done ptr st out s :
  drain_frame s (log (EvHwCheck ptr st) (device_done ptr out (tick s))).
Proof.
  split; cbn; try reflexivity; try lia.
  - now rewrite length_insert.
  - intros k. apply (hw_job_device_done_buffers ptr out k (tick s)).
Qed.

Lemma drain_frame_sw_ran j st out s : drain_frame s (sw_ran j st out s).
Proof. split; cbn; try reflexivity; lia. Qed.

Lemma drain_frame_pause s : drain_frame s (log EvPause s).
Proof. split; cbn; try reflexivity; lia. Qed.

Lemma drain_frame_resolved it slot ev s :
  drain_frame s
    (pool_step (<[slot := false]> (locks_of s)) 0 [ev]
               (with_map (delete it (decomp_async_job_map s)) s)).
Proof. split; cbn; try reflexivity; try lia. now rewrite length_insert. Qed.

(** The part of an iteration after a final check: substitute the software
    engine for a failed job, erase the entry, release the slot. *)
Lemma resolve_run it job_id job_ptr st n_rest s :
  job_pool_ready (st_pool s) = true ->
  let j := hw_job job_ptr s in
  let slot := slot_of s job_id in
  let resolved s2 :=
    pool_step (<[Z.to_nat slot := false]> (locks_of s2)) 0 [EvUnLock slot]
              (with_map (delete it (decomp_async_job_map s2)) s2) in
  let continue s3 : Outcome (option (nat * nat)) * State :=
    match n_rest with
    | O => (Ret None, s3)
    | S _ => if (it =? length (decomp_async_job_map s3))%nat
             then (Ret (Some (n_rest, O)), log EvPause s3)
             else (Ret (Some (n_rest, it)), s3)
    end in
  ((if negb (status_is_ok st) then
      j <- gets (hw_job job_ptr);
      sw_doDecompressData (next_in_ptr j) (available_in j) (next_out_ptr j) (available_out j)
    else ret tt);;
   modify (fun s => with_map (delete it (decomp_async_job_map s)) s);;
   releaseJob job_id;;
   match n_rest with
   | O => ret None
   | S _ => it' <- wrap_iterator it; ret (Some (n_rest, it'))
   end) s =
  if status_is_ok st then continue (resolved s)
  else
    match sw_doDecompressData (next_in_ptr j) (available_in j)
                              (next_out_ptr j) (available_out j) s with
    | (Ret _, s2) => continue (resolved s2)
    | (Throw e, s2) => (Throw e, s2)
    | (NoResult, s2) => (NoResult, s2)
    end.
Proof.
  intros Hready j slot resolved continue.
  assert (Htail : forall s2, st_pool s2 = st_pool s ->
    (modify (fun s => with_map (delete it (decomp_async_job_map s)) s);;
     releaseJob job_id;;
     match n_rest with
     | O => ret None
     | S _ => it' <- wrap_iterator it; ret (Some (n_rest, it'))
     end) s2 = continue (resolved s2)).
  { intros s2 Hp. unfold bind at 1, modify at 1.
    assert (Hr2 : job_pool_ready
                    (st_pool (with_map (delete it (decomp_async_job_map s2)) s2)) = true)
      by (cbn; now rewrite Hp).
    rewrite (bind_run _ _ _ _ _ (releaseJob_ready job_id _ Hr2)).
    subst continue resolved slot. unfold slot_of, capacity, locks_of. cbn. rewrite Hp.
    destruct n_rest; [reflexivity|].
    unfold bind. rewrite wrap_iterator_run. cbn.
    destruct (it =? _)%nat; reflexivity. }
  destruct (status_is_ok st); cbn [negb].
  - unfold bind at 1, ret at 1. now apply Htail.
  - unfold bind at 1. unfold bind at 1, gets at 1. fold j.
    pose proof (sw_doDecompressData_frame (next_in_ptr j) (available_in j)
                  (next_out_ptr j) (available_out j) s) as (Hp & _).
    destruct (sw_doDecompressData _ _ _ _ s) as [[[]| |] s2]; try reflexivity.
    now apply Htail.
Qed.

Lemma flush_iter_run n_rest it s job_id job_ptr :
  job_pool_ready (st_pool s) = true ->
  decomp_async_job_map s !! it = Some (job_id, job_ptr) ->
  let r := hw_reply (st_env s) (st_clock s) job_ptr (hw_job job_ptr s) in
  let s_c := log (EvHwCheck job_ptr (fst r))
                 (if status_in_progress (fst r) then tick s
                  else device_done job_ptr (snd r) (tick s)) in
  let j := hw_job job_ptr s_c in
  let resolved s2 :=
    pool_step (<[Z.to_nat (slot_of s job_id) := false]> (locks_of s2)) 0
              [EvUnLock (slot_of s job_id)]
              (with_map (delete it (decomp_async_job_map s2)) s2) in
  let continue s3 : Outcome (option (nat * nat)) * State :=
    match n_rest with
    | O => (Ret None, s3)
    | S _ => if (it =? length (decomp_async_job_map s3))%nat
             then (Ret (Some (n_rest, O)), log EvPause s3)
             else (Ret (Some (n_rest, it)), s3)
    end in
  flush_iter (S n_rest) it s =
    if status_in_progress (fst r) then
      if (S it =? length (decomp_async_job_map s))%nat
      then (Ret (Some (S n_rest, O)), log EvPause s_c)
      else (Ret (Some (S n_rest, S it)), s_c)
    else if status_is_ok (fst r) then continue (resolved s_c)
    else
      match sw_doDecompressData (next_in_ptr j) (available_in j)
                                (next_out_ptr j) (available_out j) s_c with
      | (Ret _, s2) => continue (resolved s2)
      | (Throw e, s2) => (Throw e, s2)
      | (NoResult, s2) => (NoResult, s2)
      end.
Proof.
  intros Hready Hit. cbv zeta.
  cbn [flush_iter]. unfold bind at 1, gets at 1. rewrite Hit.
  unfold bind at 1. rewrite hw_check_job_run. cbv zeta.
  set (r := hw_reply (st_env s) (st_clock s) job_ptr (hw_job job_ptr s)).
  destruct (status_in_progress (fst r)) eqn:Hbusy.
  - unfold bind, ret. rewrite wrap_iterator_run.
    change (decomp_async_job_map (log _ (tick s))) with (decomp_async_job_map s).
    destruct (Nat.eqb (S it) (length (decomp_async_job_map s))); reflexivity.
  - set (s_c := log (EvHwCheck job_ptr (fst r)) (device_done job_ptr (snd r) (tick s))).
    assert (Hrc : job_pool_ready (st_pool s_c) = true) by exact Hready.
    pose proof (resolve_run it job_id job_ptr (fst r) n_rest s_c Hrc) as Hres.
    cbv zeta in Hres. rewrite Hres. reflexivity.
Qed.

Lemma drain_log_app bufs slot d1 l1 d2 l2 :
  drain_log bufs slot d1 l1 -> drain_log bufs slot d2 l2 ->
  drain_log bufs slot (d1 ++ d2) (l1 ++ l2).
Proof.
  intros H1 H2. induction H1; cbn [app]; try (constructor; assumption); [exact H2|].
  rewrite <- app_assoc. cbn [app]. now constructor.
Qed.

Lemma drain_log_ext bufs bufs' slot slot' d l :
  (forall ptr, bufs ptr = bufs' ptr) -> (forall id, slot id = slot' id) ->
  drain_log bufs slot d l -> drain_log bufs' slot' d l.
Proof.
  intros Hb Hs H. induction H; try (constructor; assumption).
  - rewrite Hs. now constructor.
  - rewrite Hs. constructor; try assumption. now rewrite <- Hb.
Qed.

Lemma sw_never_fails_same s s1 :
  st_env s1 = st_env s -> sw_job s1 = sw_job s -> sw_never_fails s -> sw_never_fails s1.
Proof.
  intros He Hj [H1 H2]. split.
  - unfold sw_init_fails in *. now rewrite He, Hj.
  - intros j input. rewrite He. apply H2.
Qed.

Lemma finishing_not_busy T s id ptr it :
  finishing T s ->
  decomp_async_job_map s !! it = Some (id, ptr) ->
  status_in_progress (fst (hw_reply (st_env s) (st_clock s) ptr (hw_job ptr s))) = true ->
  (st_clock s < T)%nat.
Proof.
  intros Hfin Hit Hbusy.
  destruct (le_lt_dec T (st_clock s)) as [Hle|Hlt]; [|exact Hlt].
  apply list_elem_of_lookup_2, list_elem_of_In in Hit.
  rewrite (Hfin id ptr Hit _ Hle) in Hbusy. discriminate.
Qed.

(** A busy check: nothing is resolved. *)
Lemma drain_step_busy s it id ptr :
  decomp_async_job_map s !! it = Some (id, ptr) ->
  let st := fst (hw_reply (st_env s) (st_clock s) ptr (hw_job ptr s)) in
  status_in_progress st = true ->
  drain_step s [] [EvHwCheck ptr QPL_STS_BEING_PROCESSED] (log (EvHwCheck ptr st) (tick s)).
Proof.
  intros Hit st Hbusy.
  assert (Hst : st = QPL_STS_BEING_PROCESSED) by (destruct st; try discriminate; reflexivity).
  rewrite Hst. split.
  - apply drain_frame_check.
  - reflexivity.
  - reflexivity.
  - reflexivity.
  - repeat constructor.
  - reflexivity.
  - intros T Hfin. pose proof (finishing_not_busy T s id ptr it Hfin Hit Hbusy).
    unfold drain_measure. cbn. lia.
  - apply sw_never_fails_same; reflexivity.
Qed.

Lemma drain_step_pause s resolved log0 s1 :
  drain_step s resolved log0 s1 ->
  drain_step s resolved (log0 ++ [EvPause]) (log EvPause s1).
Proof.
  intros [Hf Hm Hl Ht Hlog Hj Hmu Hsw]. split.
  - eapply drain_frame_trans; [exact Hf|apply drain_frame_pause].
  - exact Hm.
  - exact Hl.
  - cbn. rewrite Ht, rev_app_distr. reflexivity.
  - rewrite <- (app_nil_r resolved). apply drain_log_app; [exact Hlog|repeat constructor].
  - exact Hj.
  - exact Hmu.
  - intros H. apply (sw_never_fails_same s1); [reflexivity|reflexivity|auto].
Qed.

Lemma map_wf_other_entry s it id ptr e :
  map_wf s ->
  decomp_async_job_map s !! it = Some (id, ptr) ->
  In e (delete it (decomp_async_job_map s)) ->
  Z.to_nat (snd e) <> Z.to_nat ptr.
Proof.
  intros [Hwf Hnd] Hit He.
  pose proof (delete_Permutation _ _ _ Hit) as Hperm.
  assert (Hnd' : NoDup (List.map fst ((id, ptr) :: delete it (decomp_async_job_map s)))).
  { eapply NoDup_Permutation_proper; [|exact Hnd].
    symmetry. apply Permutation_map. exact Hperm. }
  cbn in Hnd'. apply NoDup_cons in Hnd' as [Hnotin _].
  rewrite list_elem_of_In in Hnotin.
  assert (Hin : In e (decomp_async_job_map s)).
  { apply list_elem_of_In. rewrite Hperm. right. now apply list_elem_of_In. }
  rewrite List.Forall_forall in Hwf.
  destruct (Hwf e Hin) as [He1 He2].
  assert (Hx : In (id, ptr) (decomp_async_job_map s))
    by (apply list_elem_of_In; eapply list_elem_of_lookup_2; exact Hit).
  destruct (Hwf _ Hx) as [Hx1 Hx2]. cbn in Hx1, Hx2.
  intros Heq. apply Hnotin. apply in_map_iff. exists e. split; [|exact He].
  assert (snd e = ptr) by lia. lia.
Qed.

(** A final check resolves its entry.  [s2] is the state in which the entry
    is erased and the slot released: the state after the check, or after
    the software engine ran in it. *)
Lemma drain_step_resolved s it id ptr st out mid s2 :
  map_wf s ->
  decomp_async_job_map s !! it = Some (id, ptr) ->
  let s_c := log (EvHwCheck ptr st) (device_done ptr out (tick s)) in
  st_pool s2 = st_pool s_c ->
  decomp_async_job_map s2 = decomp_async_job_map s ->
  st_env s2 = st_env s ->
  decompress_mode s2 = decompress_mode s ->
  st_clock s2 = S (st_clock s) ->
  st_trace s2 = rev (EvHwCheck ptr st :: mid) ++ st_trace s ->
  drain_log (fun ptr => job_buffers (hw_job ptr s)) (slot_of s) [(id, ptr)]
            (EvHwCheck ptr st :: mid ++ [EvUnLock (slot_of s id)]) ->
  (sw_never_fails s -> sw_never_fails s2) ->
  drain_step s [(id, ptr)] (EvHwCheck ptr st :: mid ++ [EvUnLock (slot_of s id)])
    (pool_step (<[Z.to_nat (slot_of s id) := false]> (locks_of s2)) 0
               [EvUnLock (slot_of s id)]
               (with_map (delete it (decomp_async_job_map s2)) s2)).
Proof.
  intros Hwf Hit s_c Hpool Hmap Henv Hmode Hclock Htrace Hlog Hsw.
  split.
  - split; cbn; unfold capacity, locks_of; rewrite ?Hpool; cbn;
      try reflexivity; try assumption; try lia.
    + now rewrite length_insert.
    + now rewrite length_insert.
    + intros k. unfold hw_job at 1. cbn. rewrite Hpool.
      apply (hw_job_device_done_buffers ptr out k (tick s)).
  - cbn. rewrite Hmap. now apply delete_Permutation.
  - cbn. unfold locks_of. rewrite Hpool. reflexivity.
  - cbn. rewrite Htrace. cbn. rewrite !rev_app_distr. cbn. now rewrite <- !app_assoc.
  - exact Hlog.
  - cbn. rewrite Hmap. intros e He.
    pose proof (map_wf_other_entry s it id ptr e Hwf Hit He) as Hne.
    unfold hw_job. cbn. rewrite Hpool. cbn.
    now rewrite list_lookup_insert_ne by (intros E; apply Hne; now rewrite E).
  - intros T _. unfold drain_measure. cbn. rewrite Hmap, Hclock.
    rewrite length_delete by (rewrite Hit; eauto).
    apply lookup_lt_Some in Hit. lia.
  - intros H. apply (sw_never_fails_same s2); [reflexivity|reflexivity|auto].
Qed.

Lemma continue_next_ok s resolved log0 s3 n_rest it :
  drain_step s resolved log0 s3 ->
  n_rest = length (decomp_async_job_map s3) ->
  (it <= n_rest)%nat ->
  exists next log1 s1,
    match n_rest with
    | O => (Ret None, s3)
    | S _ => if (it =? length (decomp_async_job_map s3))%nat
             then (Ret (Some (n_rest, O)), log EvPause s3)
             else (Ret (Some (n_rest, it)), s3)
    end = (Ret next, s1) /\
    drain_step s resolved log1 s1 /\ next_ok next s1.
Proof.
  intros Hstep Hn Hit. destruct n_rest as [|n'].
  - exists None, log0, s3. split; [reflexivity|]. split; [exact Hstep|].
    cbn. symmetry in Hn. now apply length_zero_iff_nil in Hn.
  - destruct (Nat.eqb_spec it (length (decomp_async_job_map s3))) as [E|E].
    + exists (Some (S n', O)), (log0 ++ [EvPause]), (log EvPause s3).
      split; [reflexivity|]. split; [now apply drain_step_pause|].
      cbn. split; [exact Hn|lia].
    + exists (Some (S n', it)), log0, s3. split; [reflexivity|]. split; [exact Hstep|].
      cbn. split; [exact Hn|lia].
Qed.

(** One iteration of the drain on a well-formed state: either it is a
    step of the drain, or the software re-run of a failed job threw. *)
Lemma flush_iter_step n_rest it s job_id job_ptr :
  job_pool_ready (st_pool s) = true ->
  map_wf s ->
  S n_rest = length (decomp_async_job_map s) ->
  decomp_async_job_map s !! it = Some (job_id, job_ptr) ->
  (exists next resolved log1 s1,
      flush_iter (S n_rest) it s = (Ret next, s1) /\
      drain_step s resolved log1 s1 /\ next_ok next s1)
  \/ (exists e s1,
      flush_iter (S n_rest) it s = (Throw e, s1) /\
      drain_frame s s1 /\
      decomp_async_job_map s1 = decomp_async_job_map s /\
      locks_of s1 = locks_of s /\
      ~ sw_never_fails s).
Proof.
  intros Hready Hwf Hn Hit.
  rewrite (flush_iter_run n_rest it s job_id job_ptr Hready Hit). cbv zeta.
  set (r := hw_reply (st_env s) (st_clock s) job_ptr (hw_job job_ptr s)).
  pose proof (lookup_lt_Some _ _ _ Hit) as Hlt.
  destruct (status_in_progress (fst r)) eqn:Hbusy.
  - left. pose proof (drain_step_busy s it job_id job_ptr Hit Hbusy) as Hstep. fold r in Hstep.
    destruct (Nat.eqb_spec (S it) (length (decomp_async_job_map s))) as [E|E].
    + eexists _, _, _, _. split; [reflexivity|].
      split; [apply drain_step_pause; exact Hstep|]. cbn. split; [exact Hn|lia].
    + eexists _, _, _, _. split; [reflexivity|]. split; [exact Hstep|].
      cbn. split; [exact Hn|lia].
  - set (s_c := log (EvHwCheck job_ptr (fst r)) (device_done job_ptr (snd r) (tick s))).
    assert (Hlen : forall s2, decomp_async_job_map s2 = decomp_async_job_map s ->
              n_rest = length (decomp_async_job_map
                (pool_step (<[Z.to_nat (slot_of s job_id) := false]> (locks_of s2)) 0
                   [EvUnLock (slot_of s job_id)]
                   (with_map (delete it (decomp_async_job_map s2)) s2)))).
    { intros s2 Hm. cbn. rewrite Hm, length_delete by (rewrite Hit; eauto). lia. }
    destruct (status_is_ok (fst r)) eqn:Hok.
    + left.
      assert (Hst : fst r = QPL_STS_OK) by (destruct (fst r); try discriminate; reflexivity).
      pose proof (drain_step_resolved s it job_id job_ptr (fst r) (snd r) [] s_c Hwf Hit) as Hstep.
      cbv zeta in Hstep. fold s_c in Hstep.
      specialize (Hstep eq_refl eq_refl eq_refl eq_refl eq_refl eq_refl).
      rewrite Hst in Hstep at 1 2. cbn [app] in Hstep.
      specialize (Hstep ltac:(repeat constructor)
                        ltac:(apply sw_never_fails_same; reflexivity)).
      rewrite <- Hst in Hstep at 1.
      destruct (continue_next_ok s _ _ _ n_rest it Hstep (Hlen s_c eq_refl) ltac:(lia))
        as (next & log1 & s1 & Heq & Hstep1 & Hnext).
      exists next, [(job_id, job_ptr)], log1, s1. auto.
    + set (j := hw_job job_ptr s_c).
      rewrite sw_doDecompressData_run. cbv zeta.
      assert (Hinit : sw_init_fails s_c = sw_init_fails s) by reflexivity.
      destruct (sw_init_fails s_c) eqn:Hfails.
      * right. eexists _, _. split; [reflexivity|].
        split; [|split; [reflexivity|split; [reflexivity|]]].
        -- eapply drain_frame_trans; [apply (drain_frame_done job_ptr (fst r) (snd r) s)|].
           fold s_c. split; cbn; try reflexivity; lia.
        -- intros [H1 _]. congruence.
      * set (j' := configure_decompress (next_in_ptr j) (available_in j) (next_out_ptr j)
                     (available_out j) (the_sw_job s_c)).
        set (r' := sw_decompress_reply (next_in_ptr j) (available_in j) (next_out_ptr j)
                     (available_out j) s_c).
        destruct (status_is_ok (fst r')) eqn:Hok'.
        -- left.
           assert (Hst' : fst r' = QPL_STS_OK)
             by (destruct (fst r'); try discriminate; reflexivity).
           assert (Hcode : exists code, fst r = QPL_STS_ERROR code)
             by (destruct (fst r); try discriminate; eauto).
           destruct Hcode as [code Hcode].
           pose proof (drain_step_resolved s it job_id job_ptr (fst r) (snd r)
                         (rev (sw_init_events s_c) ++ [EvSwExecute j' (fst r')])
                         (sw_ran j' (fst r') (snd r') s_c) Hwf Hit) as Hstep.
           cbv zeta in Hstep. fold s_c in Hstep.
           specialize (Hstep eq_refl eq_refl eq_refl eq_refl eq_refl).
           assert (Htr : st_trace (sw_ran j' (fst r') (snd r') s_c) =
                         rev (EvHwCheck job_ptr (fst r) ::
                              rev (sw_init_events s_c) ++ [EvSwExecute j' (fst r')])
                         ++ st_trace s).
           { cbn. rewrite rev_app_distr, rev_involutive. cbn. now rewrite <- app_assoc. }
           specialize (Hstep Htr).
           assert (Hlog : drain_log (fun ptr => job_buffers (hw_job ptr s)) (slot_of s)
                     [(job_id, job_ptr)]
                     (EvHwCheck job_ptr (fst r) ::
                      (rev (sw_init_events s_c) ++ [EvSwExecute j' (fst r')]) ++
                      [EvUnLock (slot_of s job_id)])).
           { rewrite Hcode, Hst', <- app_assoc. cbn [app].
             apply dl_substituted; [| |constructor].
             - unfold sw_init_events. unfold sw_init_fails in Hfails.
               destruct (sw_job s_c); [now left|right]. cbn in Hfails |- *.
               destruct (sw_init_status (st_env s)); try discriminate. reflexivity.
             - subst j' j. unfold job_buffers at 1. cbn.
               apply (hw_job_device_done_buffers job_ptr (snd r) job_ptr (tick s)). }
           specialize (Hstep Hlog).
           assert (Hswnf : sw_never_fails s -> sw_never_fails (sw_ran j' (fst r') (snd r') s_c)).
           { intros [_ H2]. split; [reflexivity|exact H2]. }
           specialize (Hstep Hswnf).
           destruct (continue_next_ok s _ _ _ n_rest it Hstep
                       (Hlen (sw_ran j' (fst r') (snd r') s_c) eq_refl) ltac:(lia))
             as (next & log1 & s1 & Heq & Hstep1 & Hnext).
           exists next, [(job_id, job_ptr)], log1, s1. auto.
        -- right. eexists _, _. split; [reflexivity|].
           split; [|split; [reflexivity|split; [reflexivity|]]].
           ++ eapply drain_frame_trans; [apply (drain_frame_done job_ptr (fst r) (snd r) s)|].
              apply drain_frame_sw_ran.
           ++ intros [_ H2]. unfold r', sw_decompress_reply in Hok'.
              change (st_env s_c) with (st_env s) in Hok'. rewrite H2 in Hok'. discriminate.
Qed.

Lemma drain_step_drained s resolved log0 s1 :
  drain_step s resolved log0 s1 -> drained s resolved s1.
Proof. intros []. now split. Qed.

Lemma drained_refl s : drained s [] s.
Proof. split; [apply drain_frame_refl|reflexivity|reflexivity]. Qed.

Lemma release_all_frame s s1 done locks :
  capacity s1 = capacity s -> release_all s1 done locks = release_all s done locks.
Proof. intros H. unfold release_all, slot_of. now rewrite H. Qed.

Lemma drained_trans s r1 s1 r2 s2 :
  drained s r1 s1 -> drained s1 r2 s2 -> drained s (r1 ++ r2) s2.
Proof.
  intros [F1 M1 L1] [F2 M2 L2]. split.
  - eapply drain_frame_trans; eassumption.
  - rewrite M1, M2. now rewrite app_assoc.
  - rewrite L2, L1. rewrite (release_all_frame s s1) by apply (df_capacity _ _ F1).
    unfold release_all. now rewrite fold_left_app.
Qed.

Lemma map_wf_drained s resolved s1 :
  map_wf s -> drained s resolved s1 -> map_wf s1.
Proof.
  intros [Hwf Hnd] [F M _]. split.
  - rewrite M in Hwf. apply Forall_app in Hwf as [_ Hwf].
    eapply Forall_impl; [exact Hwf|]. intros e [H1 H2]. unfold entry_wf.
    now rewrite (df_capacity _ _ F).
  - assert (Hp : List.map fst (decomp_async_job_map s) ≡ₚ
                 List.map fst resolved ++ List.map fst (decomp_async_job_map s1))
      by (rewrite <- map_app; now apply Permutation_map).
    rewrite Hp in Hnd. now apply NoDup_app in Hnd as (_ & _ & Hnd).
Qed.

Lemma finishing_step T s resolved log0 s1 :
  drain_step s resolved log0 s1 -> finishing T s -> finishing T s1.
Proof.
  intros Hstep Hfin id ptr Hin t Ht.
  rewrite (df_env _ _ (ds_frame _ _ _ _ Hstep)).
  pose proof (ds_jobs _ _ _ _ Hstep (id, ptr) Hin) as Hj. cbn [snd] in Hj. rewrite Hj.
  apply (Hfin id ptr); [|exact Ht].
  apply list_elem_of_In. rewrite (ds_map _ _ _ _ Hstep).
  apply elem_of_app. right. now apply list_elem_of_In.
Qed.

(** The drain loop, from any iteration boundary of a well-formed state. *)
Lemma flush_loop_spec fuel : forall n it s,
  job_pool_ready (st_pool s) = true ->
  map_wf s ->
  n = length (decomp_async_job_map s) ->
  (n <> O -> (it < n)%nat) ->
  let r := flush_loop fuel n it s in
  exists resolved,
    drained s resolved (snd r) /\
    (fst r = Ret tt ->
     decomp_async_job_map (snd r) = [] /\
     exists log0, st_trace (snd r) = rev log0 ++ st_trace s /\
                  drain_log (fun ptr => job_buffers (hw_job ptr s)) (slot_of s)
                            resolved log0) /\
    (forall T, finishing T s -> (drain_measure T s <= fuel)%nat -> fst r <> NoResult) /\
    (sw_never_fails s -> forall e, fst r <> Throw e).
Proof.
  assert (Hdone : forall s, O = length (decomp_async_job_map s) ->
    exists resolved,
      drained s resolved s /\
      (Ret tt = Ret tt ->
       decomp_async_job_map s = [] /\
       exists log0, st_trace s = rev log0 ++ st_trace s /\
                    drain_log (fun ptr => job_buffers (hw_job ptr s)) (slot_of s)
                              resolved log0)).
  { intros s Hn. exists []. split; [apply drained_refl|]. intros _.
    split; [symmetry in Hn; now apply length_zero_iff_nil in Hn|].
    exists []. split; [reflexivity|constructor]. }
  induction fuel as [|fuel IH]; intros n it s Hready Hwf Hn Hit r; subst r.
  - destruct n as [|n].
    + destruct (Hdone s Hn) as (resolved & H1 & H2). exists resolved. cbn.
      split; [exact H1|]. split; [exact H2|]. split; intros; discriminate.
    + exists []. cbn. split; [apply drained_refl|]. split; [discriminate|].
      split; [|intros; discriminate].
      intros T _ Hmu. unfold drain_measure in Hmu. lia.
  - rewrite flush_loop_iter. destruct n as [|n_rest].
    + destruct (Hdone s Hn) as (resolved & H1 & H2). exists resolved. cbn.
      split; [exact H1|]. split; [exact H2|]. split; intros; discriminate.
    + specialize (Hit ltac:(lia)).
      destruct (lookup_lt_is_Some_2 (decomp_async_job_map s) it ltac:(lia))
        as [[job_id job_ptr] Hentry].
      destruct (flush_iter_step n_rest it s job_id job_ptr Hready Hwf Hn Hentry)
        as [(next & r1 & l1 & s1 & Heq & Hstep & Hnext)
           |(e & s1 & Heq & Hframe & Hmap & Hlocks & Hsw)]; rewrite Heq; cbn [loop_after].
      * pose proof (drain_step_drained _ _ _ _ Hstep) as Hdr.
        destruct next as [[n' it']|].
        -- destruct Hnext as [Hn' Hit'].
           assert (Hready1 : job_pool_ready (st_pool s1) = true)
             by (rewrite (df_ready _ _ (dr_frame _ _ _ Hdr)); exact Hready).
           pose proof (map_wf_drained _ _ _ Hwf Hdr) as Hwf1.
           destruct (IH n' it' s1 Hready1 Hwf1 Hn' (fun _ => Hit'))
             as (r2 & Hdr2 & Hret & Hlive & Hnothrow).
           exists (r1 ++ r2). split; [eapply drained_trans; eassumption|].
           split; [|split].
           ++ intros Hr. destruct (Hret Hr) as (Hempty & l2 & Htr2 & Hlog2).
              split; [exact Hempty|]. exists (l1 ++ l2). split.
              ** rewrite Htr2, (ds_trace _ _ _ _ Hstep), rev_app_distr. now rewrite app_assoc.
              ** apply drain_log_app; [exact (ds_log _ _ _ _ Hstep)|].
                 eapply drain_log_ext; [| |exact Hlog2].
                 --- intros ptr. apply (df_buffers _ _ (dr_frame _ _ _ Hdr)).
                 --- intros id. unfold slot_of.
                     now rewrite (df_capacity _ _ (dr_frame _ _ _ Hdr)).
           ++ intros T Hfin Hmu. apply (Hlive T).
              ** eapply finishing_step; eassumption.
              ** pose proof (ds_measure _ _ _ _ Hstep T Hfin). lia.
           ++ intros Hnf. apply Hnothrow. now apply (ds_sw _ _ _ _ Hstep).
        -- exists r1. cbn. split; [exact Hdr|]. split; [|split; intros; discriminate].
           intros _. split; [exact Hnext|]. exists l1.
           split; [exact (ds_trace _ _ _ _ Hstep)|exact (ds_log _ _ _ _ Hstep)].
      * exists []. cbn. split; [|split; [discriminate|split; [intros; discriminate|]]].
        -- split; [exact Hframe|now rewrite Hmap|exact Hlocks].
        -- intros Hnf. contradiction.
Qed.

Lemma release_all_cons s e done locks :
  release_all s (e :: done) locks =
  release_all s done (<[Z.to_nat (slot_of s (fst e)) := false]> locks).
Proof. reflexivity. Qed.

Lemma release_all_length s done : forall locks,
  length (release_all s done locks) = length locks.
Proof.
  induction done as [|e done IH]; intros locks; [reflexivity|].
  rewrite release_all_cons, IH. apply length_insert.
Qed.

Lemma release_all_keeps_false s done : forall locks k,
  locks !! k = Some false -> release_all s done locks !! k = Some false.
Proof.
  induction done as [|e done IH]; intros locks k Hk; [exact Hk|].
  rewrite release_all_cons. apply IH.
  destruct (decide (Z.to_nat (slot_of s (fst e)) = k)) as [<-|Hne].
  - apply list_lookup_insert_eq. now apply lookup_lt_Some in Hk.
  - now rewrite list_lookup_insert_ne.
Qed.

Lemma release_all_released s done : forall locks e,
  In e done ->
  (Z.to_nat (slot_of s (fst e)) < length locks)%nat ->
  release_all s done locks !! Z.to_nat (slot_of s (fst e)) = Some false.
Proof.
  induction done as [|e0 done IH]; intros locks e Hin Hlt; [destruct Hin|].
  rewrite release_all_cons. destruct Hin as [->|Hin].
  - apply release_all_keeps_false. now apply list_lookup_insert_eq.
  - apply IH; [exact Hin|]. now rewrite length_insert.
Qed.

Lemma release_all_other s done : forall locks k,
  (forall e, In e done -> Z.to_nat (slot_of s (fst e)) <> k) ->
  release_all s done locks !! k = locks !! k.
Proof.
  induction done as [|e0 done IH]; intros locks k Hk; [reflexivity|].
  rewrite release_all_cons, IH by (intros e He; apply Hk; now right).
  apply list_lookup_insert_ne. apply Hk. now left.
Qed.

Lemma entry_slot s id ptr :
  pool_wf (st_pool s) -> entry_wf s (id, ptr) -> slot_of s id = ptr.
Proof.
  intros Hwf [H1 H2]. cbn in H1, H2. unfold slot_of. rewrite H2.
  now apply slot_of_handle.
Qed.

Lemma hw_flush_spec fuel s :
  job_pool_ready (st_pool s) = true ->
  map_wf s ->
  let r := hw_flushAsynchronousDecompressRequests fuel s in
  exists resolved,
    drained s resolved (snd r) /\
    (fst r = Ret tt ->
     decomp_async_job_map (snd r) = [] /\
     exists log0, st_trace (snd r) = rev log0 ++ st_trace s /\
                  drain_log (fun ptr => job_buffers (hw_job ptr s)) (slot_of s)
                            resolved log0) /\
    (forall T, finishing T s -> (drain_measure T s <= fuel)%nat -> fst r <> NoResult) /\
    (sw_never_fails s -> forall e, fst r <> Throw e).
Proof.
  intros Hready Hwf.
  apply (flush_loop_spec fuel (length (decomp_async_job_map s)) O s Hready Hwf eq_refl).
  lia.
Qed.





(** ** The slot balance *)

Lemma map_insert_In k v m e :
  ~ In k (List.map fst m) ->
  (In e (map_insert k v m) <-> e = (k, v) \/ In e m).
Proof.
  induction m as [|[k' v'] m IH]; intros Hk; cbn [map_insert].
  - cbn. intuition.
  - cbn in Hk. destruct (k <? k') eqn:E1.
    + cbn. intuition.
    + destruct (k =? k') eqn:E2.
      * apply Z.eqb_eq in E2. exfalso. apply Hk. now left.
      * cbn. rewrite IH by tauto. intuition.
Qed.

Lemma map_insert_keys k v m :
  ~ In k (List.map fst m) ->
  List.map fst (map_insert k v m) ≡ₚ k :: List.map fst m.
Proof.
  induction m as [|[k' v'] m IH]; intros Hk; cbn [map_insert].
  - reflexivity.
  - cbn in Hk. destruct (k <? k') eqn:E1; [reflexivity|].
    destruct (k =? k') eqn:E2.
    + apply Z.eqb_eq in E2. exfalso. apply Hk. now left.
    + cbn. rewrite IH by tauto. apply perm_swap.
Qed.

Lemma slot_balance_same others s s' :
  locks_of s' = locks_of s ->
  decomp_async_job_map s' = decomp_async_job_map s ->
  slot_balance others s -> slot_balance others s'.
Proof. unfold slot_balance. intros -> ->. auto. Qed.

Lemma map_wf_same s s' :
  capacity s' = capacity s ->
  decomp_async_job_map s' = decomp_async_job_map s ->
  map_wf s -> map_wf s'.
Proof. unfold map_wf, entry_wf. intros -> ->. auto. Qed.

Lemma slot_balance_registered others s i ptr :
  map_wf s -> slot_balance others s ->
  0 <= i ->
  locks_of s !! Z.to_nat i = Some false ->
  In (capacity s - i, ptr) (decomp_async_job_map s) -> False.
Proof.
  intros [Hwf _] [Hbal _] Hi Hfree Hin.
  rewrite List.Forall_forall in Hwf. destruct (Hwf _ Hin) as [H1 H2]. cbn in H1, H2.
  assert (ptr = i) by lia. subst ptr.
  assert (Hheld : locks_of s !! Z.to_nat i = Some true).
  { apply Hbal. right. eauto. }
  congruence.
Qed.

(** Registering a freshly locked slot keeps the balance. *)
Lemma slot_balance_registers others s s' i :
  pool_wf (st_pool s) -> map_wf s -> slot_balance others s ->
  0 <= i < capacity s ->
  locks_of s !! Z.to_nat i = Some false ->
  capacity s' = capacity s ->
  locks_of s' = <[Z.to_nat i := true]> (locks_of s) ->
  decomp_async_job_map s' = map_insert (capacity s - i) i (decomp_async_job_map s) ->
  map_wf s' /\ slot_balance others s'.
Proof.
  intros Hpool Hwf Hbal Hi Hfree Hcap Hlocks Hmap.
  assert (Hfresh : ~ In (capacity s - i) (List.map fst (decomp_async_job_map s))).
  { intros Hin. apply in_map_iff in Hin as ([id ptr] & Hid & Hin). cbn in Hid. subst id.
    eapply slot_balance_registered; eauto. lia. }
  split.
  - destruct Hwf as [Hentries Hnd]. unfold map_wf, entry_wf. rewrite Hmap, Hcap. split.
    + rewrite List.Forall_forall in *. intros e He.
      apply map_insert_In in He; [|exact Hfresh]. destruct He as [->|He]; [cbn; lia|exact (Hentries e He)].
    + rewrite map_insert_keys by exact Hfresh. apply NoDup_cons. split; [|exact Hnd].
      now rewrite list_elem_of_In.
  - destruct Hbal as [Hheld Hothers]. unfold slot_balance. rewrite Hlocks, Hmap.
    assert (Hnot : ~ In (Z.to_nat i) others).
    { intros Hin. assert (locks_of s !! Z.to_nat i = Some true) by (apply Hheld; now left).
      congruence. }
    split.
    + intros k. destruct (decide (k = Z.to_nat i)) as [->|Hne].
      * rewrite list_lookup_insert_eq by (now apply lookup_lt_Some in Hfree). split; [|reflexivity].
        intros _. right. exists (capacity s - i), i. split; [|reflexivity].
        apply map_insert_In; [exact Hfresh|now left].
      * rewrite list_lookup_insert_ne by congruence. rewrite Hheld. split.
        -- intros [H|(id & ptr & Hin & Hk)]; [now left|right].
           exists id, ptr. split; [|exact Hk]. apply map_insert_In; [exact Hfresh|now right].
        -- intros [H|(id & ptr & Hin & Hk)]; [now left|right].
           apply map_insert_In in Hin; [|exact Hfresh].
           destruct Hin as [Heq|Hin]; [injection Heq as -> ->; congruence|eauto].
    + intros id ptr Hin. apply map_insert_In in Hin; [|exact Hfresh].
      destruct Hin as [Heq|Hin]; [injection Heq as -> ->; exact Hnot|eauto].
Qed.

Lemma classic_slot k (resolved : list (Z * Z)) s :
  (exists e, In e resolved /\ Z.to_nat (slot_of s (fst e)) = k) \/
  (forall e, In e resolved -> Z.to_nat (slot_of s (fst e)) <> k).
Proof.
  induction resolved as [|e0 resolved IH].
  - right. intros e [].
  - destruct (decide (Z.to_nat (slot_of s (fst e0)) = k)) as [E|E].
    + left. exists e0. split; [now left|exact E].
    + destruct IH as [(e & He & Hk)|Hno].
      * left. exists e. split; [now right|exact Hk].
      * right. intros e [->|He]; auto.
Qed.

(** Releasing the slots of resolved entries keeps the balance. *)
Lemma slot_balance_drained others s resolved s' :
  pool_wf (st_pool s) -> map_wf s -> slot_balance others s ->
  drained s resolved s' ->
  slot_balance others s'.
Proof.
  intros Hpool Hwf [Hheld Hothers] Hdr.
  pose proof (dr_map _ _ _ Hdr) as Hperm.
  pose proof Hwf as [Hentries Hnd]. rewrite List.Forall_forall in Hentries.
  assert (Hin_s : forall e, In e resolved \/ In e (decomp_async_job_map s') <->
                            In e (decomp_async_job_map s)).
  { intros e. rewrite <- !list_elem_of_In, Hperm, elem_of_app. reflexivity. }
  assert (Hslot : forall e, In e resolved -> Z.to_nat (slot_of s (fst e)) = Z.to_nat (snd e)).
  { intros [id ptr] He. f_equal. apply entry_slot; [exact Hpool|].
    apply Hentries. apply Hin_s. now left. }
  assert (Hdisj : forall e1 e2, In e1 resolved -> In e2 (decomp_async_job_map s') ->
                                Z.to_nat (snd e1) <> Z.to_nat (snd e2)).
  { intros e1 e2 H1 H2 Heq.
    destruct (Hentries e1 (proj1 (Hin_s e1) (or_introl H1))) as [R1 K1].
    destruct (Hentries e2 (proj1 (Hin_s e2) (or_intror H2))) as [R2 K2].
    assert (Hk : fst e1 = fst e2) by lia.
    assert (Hnd' : NoDup (List.map fst resolved ++ List.map fst (decomp_async_job_map s'))).
    { rewrite <- map_app. eapply NoDup_Permutation_proper; [|exact Hnd].
      symmetry. now apply Permutation_map. }
    apply NoDup_app in Hnd' as (_ & Hno & _).
    apply (Hno (fst e1)).
    - apply list_elem_of_In, in_map. exact H1.
    - rewrite Hk. apply list_elem_of_In, in_map. exact H2. }
  split.
  - intros k. rewrite (dr_locks _ _ _ Hdr).
    destruct (classic_slot k resolved s) as [(e & He & Hk)|Hno].
    + (* k is the slot of a resolved entry: it is free now, and no longer registered *)
      assert (Hrange : (Z.to_nat (slot_of s (fst e)) < length (locks_of s))%nat).
      { destruct (Hentries e (proj1 (Hin_s e) (or_introl He))) as [R _].
        rewrite (Hslot e He). destruct Hpool as (_ & Hlen & _). unfold locks_of.
        rewrite Hlen. unfold capacity in R. lia. }
      rewrite <- Hk, (release_all_released s resolved (locks_of s) e He Hrange).
      split; [discriminate|]. intros [Hin|(id & ptr & Hin & Hptr)]; exfalso.
      * destruct e as [id ptr]. apply (Hothers id ptr); [apply Hin_s; now left|].
        pose proof (Hslot _ He) as Hs. cbn [fst snd] in Hs, Hin. rewrite <- Hs. exact Hin.
      * apply (Hdisj e (id, ptr) He Hin). rewrite <- (Hslot e He). cbn [snd]. now rewrite Hptr.
    + rewrite (release_all_other s resolved (locks_of s) k) by exact Hno.
      rewrite Hheld. split.
      * intros [H|(id & ptr & Hin & Hptr)]; [now left|right].
        apply Hin_s in Hin as [Hin|Hin]; [|eauto].
        exfalso. apply (Hno _ Hin). rewrite (Hslot _ Hin). exact Hptr.
      * intros [H|(id & ptr & Hin & Hptr)]; [now left|right].
        exists id, ptr. split; [apply Hin_s; now right|exact Hptr].
  - intros id ptr Hin. apply Hothers with id. apply Hin_s. now right.
Qed.

Lemma release_all_held s done : forall locks k,
  release_all s done locks !! k = Some true -> locks !! k = Some true.
Proof.
  induction done as [|e done IH]; intros locks k Hk; [exact Hk|].
  rewrite release_all_cons in Hk. apply IH in Hk.
  destruct (decide (Z.to_nat (slot_of s (fst e)) = k)) as [<-|Hne].
  - destruct (decide (Z.to_nat (slot_of s (fst e)) < length locks)%nat) as [Hlt|Hge].
    + rewrite list_lookup_insert_eq in Hk by exact Hlt. discriminate.
    + rewrite list_insert_ge in Hk by lia. exact Hk.
  - now rewrite list_lookup_insert_ne in Hk.
Qed.

Lemma pool_wf_frame s s' :
  capacity s' = capacity s ->
  length (locks_of s') = length (locks_of s) ->
  length (hw_jobs_buffer (st_pool s')) = length (hw_jobs_buffer (st_pool s)) ->
  pool_wf (st_pool s) -> pool_wf (st_pool s').
Proof.
  unfold pool_wf, capacity, locks_of. intros -> -> ->. auto.
Qed.

Lemma pool_balanced_same others b s s' :
  hw_called b s s' ->
  locks_of s' = locks_of s ->
  decomp_async_job_map s' = decomp_async_job_map s ->
  pool_balanced others s -> pool_balanced others s'.
Proof.
  intros Hc Hlocks Hmap (Hready & Hpool & Hwf & Hbal). split; [|split; [|split]].
  - now rewrite (hc_ready _ _ _ Hc).
  - eapply pool_wf_frame; [exact (hc_capacity _ _ _ Hc)|now rewrite Hlocks| |exact Hpool].
    exact (hc_jobs_len _ _ _ Hc).
  - eapply map_wf_same; [exact (hc_capacity _ _ _ Hc)|exact Hmap|exact Hwf].
  - eapply slot_balance_same; eauto.
Qed.

Lemma pool_balanced_registers others b s s' i :
  hw_called b s s' ->
  0 <= i < capacity s ->
  locks_of s !! Z.to_nat i = Some false ->
  locks_of s' = <[Z.to_nat i := true]> (locks_of s) ->
  decomp_async_job_map s' = map_insert (capacity s - i) i (decomp_async_job_map s) ->
  pool_balanced others s -> pool_balanced others s'.
Proof.
  intros Hc Hi Hfree Hlocks Hmap (Hready & Hpool & Hwf & Hbal).
  destruct (slot_balance_registers others s s' i Hpool Hwf Hbal Hi Hfree
              (hc_capacity _ _ _ Hc) Hlocks Hmap) as [Hwf' Hbal'].
  split; [|split; [|split]]; [now rewrite (hc_ready _ _ _ Hc)| |exact Hwf'|exact Hbal'].
  eapply pool_wf_frame; [exact (hc_capacity _ _ _ Hc)| |exact (hc_jobs_len _ _ _ Hc)|exact Hpool].
  rewrite Hlocks. apply length_insert.
Qed.

Lemma pool_balanced_drained others s resolved s' :
  drained s resolved s' ->
  pool_balanced others s -> pool_balanced others s'.
Proof.
  intros Hdr (Hready & Hpool & Hwf & Hbal).
  pose proof (dr_frame _ _ _ Hdr) as F. split; [|split; [|split]].
  - now rewrite (df_ready _ _ F).
  - eapply pool_wf_frame; [exact (df_capacity _ _ F)|exact (df_locks_len _ _ F)| |exact Hpool].
    exact (df_jobs_len _ _ F).
  - eapply map_wf_drained; eauto.
  - eapply slot_balance_drained; eauto.
Qed.

(** C10 (slot balance).  Take an engine whose pending map registers
    exactly the held slots of the shared pool that are not held elsewhere
    ([others]: the slots registered with the other engines).  Then:
    hardware compression and synchronous hardware decompression, whenever
    they return, leave the lock flags and the map as they found them (the
    acquired slot has been released on every exit path) and so keep the
    balance, and compression does return once the fuel exceeds the pool
    size; asynchronous decompression either returns the error value with
    flags and map unchanged, or returns the handle of a slot that was free,
    is now held and is now registered, and keeps the balance in both
    cases; the drain never turns a free slot into a held one, keeps the
    balance whatever its outcome, and when it returns the held slots are
    exactly those held elsewhere. *)
Theorem slot_balance_invariant others fuel src n dst dst_size s :
  pool_balanced others s ->
  (let r := hw_doCompressData fuel src n dst dst_size s in
   ((Z.to_nat (capacity s) < fuel)%nat -> fst r <> NoResult) /\
   (fst r <> NoResult ->
    locks_of (snd r) = locks_of s /\
    decomp_async_job_map (snd r) = decomp_async_job_map s /\
    pool_balanced others (snd r))) /\
  (let r := hw_doDecompressDataSynchronous fuel src n dst dst_size s in
   fst r <> NoResult ->
   locks_of (snd r) = locks_of s /\
   decomp_async_job_map (snd r) = decomp_async_job_map s /\
   pool_balanced others (snd r)) /\
  (let r := hw_doDecompressDataAsynchronous fuel src n dst dst_size s in
   ((Z.to_nat (capacity s) < fuel)%nat -> fst r <> NoResult) /\
   (fst r <> NoResult ->
    pool_balanced others (snd r) /\
    ((fst r = Ret RET_ERROR /\
      locks_of (snd r) = locks_of s /\
      decomp_async_job_map (snd r) = decomp_async_job_map s)
     \/ exists i, 0 <= i < capacity s /\
                  fst r = Ret (to_Int32 (capacity s - i)) /\
                  to_Int32 (capacity s - i) <> RET_ERROR /\
                  locks_of s !! Z.to_nat i = Some false /\
                  locks_of (snd r) = <[Z.to_nat i := true]> (locks_of s) /\
                  decomp_async_job_map (snd r) =
                    map_insert (capacity s - i) i (decomp_async_job_map s)))) /\
  (let r := hw_flushAsynchronousDecompressRequests fuel s in
   pool_balanced others (snd r) /\
   (forall k, locks_of (snd r) !! k = Some true -> locks_of s !! k = Some true) /\
   (fst r = Ret tt ->
    forall k, locks_of (snd r) !! k = Some true <-> In k others)).
Proof.
  intros Hinv. pose proof Hinv as (Hready & Hpool & Hwf & Hbal).
  cbv zeta. split; [|split; [|split]].
  - destruct (hw_doCompressData_spec fuel src n dst dst_size s Hready Hpool)
      as [(res & s' & -> & Hc & Hmap & Hlocks & _)|(Hfuel & Hno)].
    + cbn [fst snd]. split; [discriminate|]. intros _.
      split; [exact Hlocks|]. split; [exact Hmap|]. eapply pool_balanced_same; eauto.
    + split; [lia|]. intros H. now destruct H.
  - destruct (hw_doDecompressDataSynchronous_spec fuel src n dst dst_size s Hready Hpool)
      as [(res & s' & -> & Hc & Hmap & Hlocks & _)|(Hno & _)].
    + cbn [fst snd]. intros _.
      split; [exact Hlocks|]. split; [exact Hmap|]. eapply pool_balanced_same; eauto.
    + intros H. now destruct H.
  - destruct (hw_doDecompressDataAsynchronous_spec fuel src n dst dst_size s Hready Hpool)
      as [(res & s' & -> & Hc & _ & Hcases)|(Hfuel & Hno)].
    + cbn [fst snd]. split; [discriminate|]. intros _.
      destruct Hcases as [(-> & Hmap & Hlocks & _)
                         |(i & j & Hi & -> & Hres & Hfree & Hlocks & Hmap & _)].
      * split; [eapply pool_balanced_same; eauto|]. left. auto.
      * split; [eapply pool_balanced_registers; eauto|]. right. exists i.
        repeat (split; [assumption || reflexivity|]). exact Hmap.
    + split; [lia|]. intros H. now destruct H.
  - destruct (hw_flush_spec fuel s Hready Hwf) as (resolved & Hdr & Hret & _).
    cbv zeta in Hdr, Hret.
    pose proof (pool_balanced_drained others _ _ _ Hdr Hinv) as Hinv'.
    split; [exact Hinv'|]. split.
    + intros k. rewrite (dr_locks _ _ _ Hdr). apply release_all_held.
    + intros Hr k. destruct (Hret Hr) as [Hempty _].
      destruct Hinv' as (_ & _ & _ & [Hheld _]). rewrite Hheld, Hempty. split.
      * intros [H|(id & ptr & [] & _)]. exact H.
      * intros H. now left.
Qed.

Lemma example_pool_balanced e mode :
  pool_balanced [1%nat] (example_state e true [false; true; false] mode).
Proof.
  split; [reflexivity|]. split; [apply example_pool_wf; cbn; lia|].
  split; [split; [constructor|apply NoDup_ListNoDup; constructor]|].
  split.
  - intros k. cbn. split.
    + intros Hk. left.
      destruct k as [|[|[|k]]]; cbn in Hk; try discriminate; now left.
    + intros [[<-|[]]|(id & ptr & [] & _)]. reflexivity.
  - intros id ptr [].
Qed.

Lemma slot_balance_invariant_witness :
  let s := example_state (example_env 2 QPL_STS_OK [7; 8]) true
                         [false; true; false] Asynchronous in
  let r := hw_doDecompressDataAsynchronous 5 10 4 100 4 s in
  pool_balanced [1%nat] s /\
  fst r = Ret 3 /\
  locks_of (snd r) = [true; true; false] /\
  decomp_async_job_map (snd r) = [(3, 0)] /\
  pool_balanced [1%nat] (snd r).
Proof.
  cbv zeta.
  split; [apply example_pool_balanced|].
  split; [vm_compute; reflexivity|].
  split; [vm_compute; reflexivity|].
  split; [vm_compute; reflexivity|].
  destruct (slot_balance_invariant [1%nat] 5%nat 10 4 100 4 _
              (example_pool_balanced (example_env 2 QPL_STS_OK [7; 8]) Asynchronous))
    as (_ & _ & (_ & Hasync) & _).
  apply Hasync. vm_compute. discriminate.
Defined.

(** ** Mutual exclusion of the pool's slots *)

Lemma list_sum_insert {A} (f : A -> nat) (l : list A) : forall t x y,
  l !! t = Some x ->
  (list_sum (List.map f (<[t := y]> l)) + f x = list_sum (List.map f l) + f y)%nat.
Proof.
  induction l as [|a l IH]; intros [|t] x y H; try discriminate.
  - injection H as ->. change (<[0%nat := y]> (x :: l)) with (y :: l).
    unfold list_sum. cbn [List.map fold_right]. lia.
  - change (<[S t := y]> (a :: l)) with (a :: <[t := y]> l).
    change ((a :: l) !! S t) with (l !! t) in H.
    specialize (IH t x y H). unfold list_sum in *. cbn [List.map fold_right]. lia.
Qed.

Lemma holders_insert s ths t th th' index :
  ths !! t = Some th ->
  (holders {| shared := s; threads := <[t := th']> ths |} index + holds_slot s index th
   = holders {| shared := s; threads := ths |} index + holds_slot s index th')%nat.
Proof. intros H. unfold holders. cbn. now apply list_sum_insert. Qed.

Lemma holds_slot_ext s s' index th :
  capacity s' = capacity s -> holds_slot s' index th = holds_slot s index th.
Proof. intros H. unfold holds_slot, slot_of. now rewrite H. Qed.

Lemma holders_ext s s' ths index :
  capacity s' = capacity s ->
  holders {| shared := s'; threads := ths |} index = holders {| shared := s; threads := ths |} index.
Proof.
  intros H. unfold holders. cbn. f_equal. apply map_ext. intros th.
  now apply holds_slot_ext.
Qed.

Lemma holds_slot_at_point s index p th :
  holds_slot s index (at_point p th) = holds_slot s index th.
Proof. reflexivity. Qed.

Lemma holds_slot_remove s index id l p p' :
  In id l ->
  (holds_slot s index {| pc := p; held := remove_one id l |}
   + (if (slot_of s id =? index)%Z then 1 else 0)
   = holds_slot s index {| pc := p'; held := l |})%nat.
Proof.
  unfold holds_slot. cbn [held]. induction l as [|x l IH]; intros Hin; [destruct Hin|].
  cbn [remove_one]. destruct (Z.eqb_spec x id) as [->|Hne].
  - cbn [List.filter]. destruct (slot_of s id =? index); cbn; lia.
  - destruct Hin as [->|Hin]; [congruence|]. specialize (IH Hin).
    cbn [List.filter]. destruct (slot_of s x =? index); cbn [length]; lia.
Qed.

Lemma existsb_eqb_In id l : existsb (Z.eqb id) l = true -> In id l.
Proof.
  intros H. apply existsb_exists in H as (x & Hin & Hx).
  apply Z.eqb_eq in Hx. now subst.
Qed.

Lemma lock_bit_insert_ne s s' i b index :
  locks_of s' = <[Z.to_nat i := b]> (locks_of s) ->
  0 <= i -> 0 <= index -> index <> i ->
  lock_bit s' index = lock_bit s index.
Proof.
  intros H Hi Hindex Hne. unfold lock_bit. rewrite H.
  rewrite list_lookup_insert_ne by lia. reflexivity.
Qed.

Lemma lock_bit_same s s' index :
  locks_of s' = locks_of s -> lock_bit s' index = lock_bit s index.
Proof. unfold lock_bit. now intros ->. Qed.

Lemma to_UInt32_nonneg z : 0 <= to_UInt32 z.
Proof. unfold to_UInt32. apply Z.mod_pos_bound. lia. Qed.

Lemma lock_bit_le_1 s index : (lock_bit s index <= 1)%nat.
Proof. unfold lock_bit. destruct (locks_of s !! Z.to_nat index) as [[|]|]; lia. Qed.

Lemma lock_bit_free s index :
  locks_of s !! Z.to_nat index = Some false -> lock_bit s index = 0%nat.
Proof. unfold lock_bit. now intros ->. Qed.

Lemma lock_bit_locked s s' index :
  locks_of s !! Z.to_nat index = Some false ->
  locks_of s' = <[Z.to_nat index := true]> (locks_of s) ->
  lock_bit s' index = 1%nat.
Proof.
  intros Hfree H. unfold lock_bit. rewrite H.
  rewrite list_lookup_insert_eq by (now apply lookup_lt_Some in Hfree). reflexivity.
Qed.

(** The shared state after one thread's step, and that thread's new
    state, keep the invariant when the thread's count moves with the flag. *)
Lemma pool_inv_update c t th th' s' :
  pool_inv c ->
  threads c !! t = Some th ->
  capacity s' = capacity (shared c) ->
  length (locks_of s') = length (locks_of (shared c)) ->
  length (hw_jobs_buffer (st_pool s')) = length (hw_jobs_buffer (st_pool (shared c))) ->
  (forall index h, 0 <= index ->
     (holders c index <= lock_bit (shared c) index)%nat ->
     (h + holds_slot (shared c) index th = holders c index + holds_slot (shared c) index th')%nat ->
     (h <= lock_bit s' index)%nat) ->
  (forall index retry, pc th' = AtLoopTest index retry -> 0 <= index < capacity (shared c)) ->
  pool_inv {| shared := s'; threads := <[t := th']> (threads c) |}.
Proof.
  intros (Hwf & Hcount & Hrange) Ht Hcap Hlocks Hjobs Hnew Hpc.
  split; [|split]; cbn [shared threads].
  - eapply (pool_wf_frame (shared c)); eauto.
  - intros index Hindex. apply Hnew; [exact Hindex|now apply Hcount|].
    rewrite (holders_ext (shared c)) by exact Hcap.
    destruct c as [s ths]. now apply holders_insert.
  - intros t2 th2 index retry Hlook Hat. rewrite Hcap.
    destruct (decide (t = t2)) as [<-|Hne].
    + rewrite list_lookup_insert_eq in Hlook by (now apply lookup_lt_Some in Ht).
      injection Hlook as <-. eauto.
    + rewrite list_lookup_insert_ne in Hlook by exact Hne. eauto.
Qed.

Lemma pool_inv_idle_step c t th p s' :
  pool_inv c ->
  threads c !! t = Some th ->
  capacity s' = capacity (shared c) ->
  locks_of s' = locks_of (shared c) ->
  length (hw_jobs_buffer (st_pool s')) = length (hw_jobs_buffer (st_pool (shared c))) ->
  (forall index retry, p = AtLoopTest index retry -> 0 <= index < capacity (shared c)) ->
  pool_inv {| shared := s'; threads := <[t := at_point p th]> (threads c) |}.
Proof.
  intros Hinv Ht Hcap Hlocks Hjobs Hp.
  eapply pool_inv_update; eauto.
  - now rewrite Hlocks.
  - intros index h _ Hle Hh. rewrite holds_slot_at_point in Hh.
    rewrite (lock_bit_same _ _ _ Hlocks). lia.
Qed.

Lemma next_index_range s : pool_wf (st_pool s) -> 0 <= next_index s < capacity s.
Proof. intros (Hcap & _). apply mod_capacity_range. apply Hcap. Qed.

Lemma holds_slot_cons s index p p' id l :
  holds_slot s index {| pc := p; held := id :: l |}
  = ((if (slot_of s id =? index)%Z then 1 else 0) + holds_slot s index {| pc := p'; held := l |})%nat.
Proof.
  unfold holds_slot. cbn [held List.filter]. destruct (slot_of s id =? index); reflexivity.
Qed.

Lemma thread_eta th : {| pc := pc th; held := held th |} = th.
Proof. destruct th; reflexivity. Qed.

(** Every step keeps the invariant. *)
Lemma step_pool_inv t a c c' :
  pool_inv c -> step t a c = Some c' -> pool_inv c'.
Proof.
  intros Hinv. pose proof Hinv as (Hwf & Hcount & Hrange).
  unfold step. destruct (threads c !! t) as [th|] eqn:Ht; [|discriminate].
  unfold thread_step.
  destruct a as [| | |id]; destruct (pc th) as [|index retry|retry] eqn:Hpc;
    try (cbn; discriminate).
  - (* the entry of acquireJob *)
    unfold bind at 1. unfold isJobPoolReady, gets.
    destruct (job_pool_ready (st_pool (shared c))) eqn:Hready.
    + unfold bind. rewrite distribution_step. cbn [ret]. intros [= <-].
      apply pool_inv_idle_step; try assumption; try reflexivity.
      intros index retry [= <- _]. now apply next_index_range.
    + cbn [ret]. intros [= <-]. rewrite list_insert_id by exact Ht. now destruct c.
  - (* the loop condition *)
    unfold bind at 1.
    destruct (locks_of (shared c) !! Z.to_nat index) as [[|]|] eqn:Hlock.
    1, 3: rewrite tryLockJob_held by congruence; cbn [ret]; intros [= <-];
          apply pool_inv_idle_step; try assumption; try reflexivity; intros ? ? [=].
    rewrite (tryLockJob_free _ _ Hlock). unfold bind, gets, ret. intros [= <-].
    pose proof (Hrange _ _ _ _ Ht Hpc) as Hindex.
    eapply pool_inv_update; try eassumption; try reflexivity.
    + cbn. apply length_insert.
    + intros index' h Hpos Hle Hh.
      rewrite (holds_slot_cons _ _ _ (pc th)), thread_eta in Hh.
      change (max_hw_jobs _) with (capacity (shared c)) in Hh.
      assert (Hslot : slot_of (shared c) (to_UInt32 (capacity (shared c) - index)) = index).
      { unfold slot_of. rewrite (to_UInt32_small (capacity (shared c) - index)).
        - now apply slot_of_handle.
        - destruct Hwf as (Hcap & _). unfold capacity in *. lia. }
      rewrite Hslot in Hh. destruct (Z.eqb_spec index index') as [<-|Hne].
      * rewrite (lock_bit_free _ _ Hlock) in Hle.
        rewrite (lock_bit_locked (shared c)); [lia|exact Hlock|reflexivity].
      * rewrite (lock_bit_insert_ne (shared c) _ index true); [lia|reflexivity|lia|lia|congruence].
    + cbn. intros ? ? [=].
  - (* the loop body *)
    unfold bind. rewrite distribution_step. unfold gets, ret.
    destruct (to_UInt32 (retry + 1) >? _); intros [= <-];
      apply pool_inv_idle_step; try assumption; try reflexivity.
    + intros ? ? [=].
    + intros index ? [= <- _]. now apply next_index_range.
  - (* releaseJob *)
    destruct (existsb (Z.eqb id) (held th)) eqn:Hheld; [|cbn; discriminate].
    apply existsb_eqb_In in Hheld. unfold bind.
    destruct (job_pool_ready (st_pool (shared c))) eqn:Hready.
    + rewrite (releaseJob_ready _ _ Hready). cbn [ret]. intros [= <-].
      eapply pool_inv_update; try eassumption; try reflexivity.
      * cbn. apply length_insert.
      * intros index' h Hpos Hle Hh.
        pose proof (holds_slot_remove (shared c) index' id (held th) Outside (pc th) Hheld) as Hrm.
        rewrite thread_eta in Hrm. fold (slot_of (shared c) id).
        pose proof (lock_bit_le_1 (shared c) index').
        destruct (Z.eqb_spec (slot_of (shared c) id) index') as [<-|Hne]; [lia|].
        rewrite (lock_bit_insert_ne (shared c) _ (slot_of (shared c) id) false);
          [lia|reflexivity|apply to_UInt32_nonneg|lia|congruence].
      * cbn. intros ? ? [=].
    + rewrite (releaseJob_unready _ _ Hready). cbn [ret]. intros [= <-].
      eapply pool_inv_update; try eassumption; try reflexivity.
      * intros index' h Hpos Hle Hh.
        pose proof (holds_slot_remove (shared c) index' id (held th) Outside (pc th) Hheld) as Hrm.
        rewrite thread_eta in Hrm.
        destruct (Z.eqb_spec (slot_of (shared c) id) index'); lia.
      * cbn. intros ? ? [=].
Qed.

Lemma interleave_pool_inv schedule : forall c c',
  pool_inv c -> interleave schedule c = Some c' -> pool_inv c'.
Proof.
  induction schedule as [|[t a] rest IH]; intros c c' Hinv; cbn [interleave].
  - now intros [= <-].
  - destruct (step t a c) as [c1|] eqn:Hstep; [|discriminate].
    apply IH. eapply step_pool_inv; eauto.
Qed.

Lemma holders_fresh s n index :
  holders {| shared := s; threads := fresh_threads n |} index = 0%nat.
Proof.
  unfold holders, fresh_threads. cbn [shared threads].
  induction n as [|n IH]; [reflexivity|exact IH].
Qed.

Lemma fresh_pool_inv s n :
  pool_wf (st_pool s) -> pool_inv {| shared := s; threads := fresh_threads n |}.
Proof.
  intros Hwf. split; [exact Hwf|]. split.
  - intros index _. rewrite holders_fresh. lia.
  - intros t th index retry Hlook Hpc. cbn [threads] in Hlook.
    apply lookup_replicate in Hlook as [-> _]. discriminate.
Qed.

Lemma holds_slot_negative s index th : index < 0 -> holds_slot s index th = 0%nat.
Proof.
  intros Hneg. unfold holds_slot. induction (held th) as [|id l IH]; [reflexivity|].
  cbn [List.filter]. pose proof (to_UInt32_nonneg (capacity s - id)).
  destruct (Z.eqb_spec (slot_of s id) index) as [E|_]; [unfold slot_of in E; lia|exact IH].
Qed.

Lemma holders_negative c index : index < 0 -> holders c index = 0%nat.
Proof.
  intros Hneg. unfold holders. induction (threads c) as [|th l IH]; [reflexivity|].
  cbn [List.map]. change (list_sum (?x :: ?l)) with (x + list_sum l)%nat.
  now rewrite IH, holds_slot_negative.
Qed.

Lemma holders_le_1 c index : pool_inv c -> (holders c index <= 1)%nat.
Proof.
  intros (_ & Hcount & _). destruct (Z.lt_ge_cases index 0) as [Hneg|Hpos].
  - rewrite holders_negative by exact Hneg. lia.
  - pose proof (Hcount index Hpos). pose proof (lock_bit_le_1 (shared c) index). lia.
Qed.

Lemma list_sum_lookup {A} (f : A -> nat) (l : list A) : forall t x,
  l !! t = Some x -> (f x <= list_sum (List.map f l))%nat.
Proof.
  induction l as [|a l IH]; intros [|t] x H; try discriminate;
    cbn [List.map]; change (list_sum (?x :: ?l)) with (x + list_sum l)%nat.
  - injection H as ->. lia.
  - specialize (IH t x H). lia.
Qed.

Lemma list_sum_two {A} (f : A -> nat) (l : list A) : forall t1 t2 x y,
  t1 <> t2 -> l !! t1 = Some x -> l !! t2 = Some y ->
  (f x + f y <= list_sum (List.map f l))%nat.
Proof.
  induction l as [|a l IH]; intros [|t1] [|t2] x y Hne H1 H2; try discriminate;
    try congruence; cbn [List.map]; change (list_sum (?x :: ?l)) with (x + list_sum l)%nat.
  - injection H1 as ->. pose proof (list_sum_lookup f l t2 y H2). lia.
  - injection H2 as ->. pose proof (list_sum_lookup f l t1 x H1). lia.
  - assert (t1 <> t2) by congruence. specialize (IH t1 t2 x y H H1 H2). lia.
Qed.

Lemma holds_slot_In s id th : In id (held th) -> (1 <= holds_slot s (slot_of s id) th)%nat.
Proof.
  unfold holds_slot. induction (held th) as [|x l IH]; intros Hin; [destruct Hin|].
  cbn [List.filter]. destruct Hin as [->|Hin].
  - rewrite Z.eqb_refl. cbn. lia.
  - specialize (IH Hin). destruct (slot_of s x =? slot_of s id); cbn [length]; lia.
Qed.

(** C3 (mutual exclusion).  Let any number of threads that have not
    called the pool yet run [acquireJob] and [releaseJob] (of handles they
    hold) against one shared pool, interleaved in any way at their accesses
    to it.  At every instant a slot has at most one live holder: the
    handles held, over all threads, contain at most one handle of each
    slot; two handles of one slot are never held by two threads; the flag
    of a held slot is set; and a thread whose compare-and-exchange on a
    slot is about to succeed finds that slot without a holder. *)
Theorem pool_mutual_exclusion s n schedule c :
  pool_wf (st_pool s) ->
  interleave schedule {| shared := s; threads := fresh_threads n |} = Some c ->
  (forall index, (holders c index <= 1)%nat) /\
  (forall t1 t2 th1 th2 id1 id2,
      threads c !! t1 = Some th1 -> threads c !! t2 = Some th2 ->
      In id1 (held th1) -> In id2 (held th2) ->
      slot_of (shared c) id1 = slot_of (shared c) id2 -> t1 = t2) /\
  (forall t th id,
      threads c !! t = Some th -> In id (held th) ->
      locks_of (shared c) !! Z.to_nat (slot_of (shared c) id) = Some true) /\
  (forall t th index retry,
      threads c !! t = Some th -> pc th = AtLoopTest index retry ->
      fst (tryLockJob index (shared c)) = Ret true ->
      holders c index = 0%nat).
Proof.
  intros Hwf Hrun.
  assert (Hinv : pool_inv c).
  { eapply interleave_pool_inv; [|exact Hrun]. now apply fresh_pool_inv. }
  split; [intros index; now apply holders_le_1|]. split; [|split].
  - intros t1 t2 th1 th2 id1 id2 H1 H2 Hin1 Hin2 Hslot.
    destruct (decide (t1 = t2)) as [E|Hne]; [exact E|exfalso].
    pose proof (holders_le_1 c (slot_of (shared c) id1) Hinv) as Hle.
    pose proof (list_sum_two (holds_slot (shared c) (slot_of (shared c) id1))
                  (threads c) t1 t2 th1 th2 Hne H1 H2) as Htwo.
    pose proof (holds_slot_In (shared c) id1 th1 Hin1).
    pose proof (holds_slot_In (shared c) id2 th2 Hin2) as Hsecond.
    rewrite <- Hslot in Hsecond. unfold holders in Hle. lia.
  - intros t th id Hlook Hin. destruct Hinv as (_ & Hcount & _).
    pose proof (Hcount (slot_of (shared c) id) (to_UInt32_nonneg _)) as Hle.
    pose proof (list_sum_lookup (holds_slot (shared c) (slot_of (shared c) id))
                  (threads c) t th Hlook) as Hone.
    pose proof (holds_slot_In (shared c) id th Hin).
    unfold holders in Hle. unfold lock_bit in Hle.
    destruct (locks_of (shared c) !! Z.to_nat (slot_of (shared c) id)) as [[|]|];
      [reflexivity|lia|lia].
  - intros t th index retry Hlook Hpc Hcas. destruct Hinv as (_ & Hcount & Hrange).
    pose proof (Hrange _ _ _ _ Hlook Hpc) as Hindex.
    assert (Hfree : locks_of (shared c) !! Z.to_nat index = Some false).
    { destruct (locks_of (shared c) !! Z.to_nat index) as [[|]|] eqn:E; [|reflexivity|];
        rewrite tryLockJob_held in Hcas by congruence; discriminate. }
    pose proof (Hcount index (proj1 Hindex)) as Hle.
    rewrite (lock_bit_free _ _ Hfree) in Hle. lia.
Qed.

Lemma pool_mutual_exclusion_witness :
  let s := example_state (example_env 0 QPL_STS_OK []) true [false] Synchronous in
  let schedule := [(0%nat, CallAcquire); (1%nat, CallAcquire); (0%nat, LoopTest);
                   (1%nat, LoopTest); (1%nat, LoopBody); (0%nat, CallRelease 1);
                   (1%nat, LoopTest)] in
  pool_wf (st_pool s) /\
  exists c,
    interleave schedule {| shared := s; threads := fresh_threads 2 |} = Some c /\
    List.map held (threads c) = [[]; [1]] /\
    st_trace (shared c) =
      [EvTryLock 0 true; EvUnLock 0; EvTryLock 0 false; EvTryLock 0 true] /\
    forall index, (holders c index <= 1)%nat.
Proof.
  cbv zeta.
  assert (Hwf : pool_wf (st_pool (example_state (example_env 0 QPL_STS_OK []) true [false]
                                                 Synchronous)))
    by (apply example_pool_wf; cbn; lia).
  split; [exact Hwf|].
  match goal with
  | |- exists c, ?run = Some c /\ _ => destruct run as [c|] eqn:Hrun
  end; [|vm_compute in Hrun; discriminate].
  exists c. split; [reflexivity|].
  split; [pose proof Hrun as Hc; vm_compute in Hc; injection Hc as <-; reflexivity|].
  split; [pose proof Hrun as Hc; vm_compute in Hc; injection Hc as <-; reflexivity|].
  exact (proj1 (pool_mutual_exclusion _ _ _ _ Hwf Hrun)).
Defined.

(** ** One thread alone takes the steps of [acquireJob] *)

Lemma step_solo a th s :
  step 0 a {| shared := s; threads := [th] |} =
  match thread_step a th s with
  | (Ret (Some th'), s') => Some {| shared := s'; threads := [th'] |}
  | _ => None
  end.
Proof. reflexivity. Qed.

Lemma solo_loop fuel : forall index retry s th,
  pc th = AtLoopTest index retry ->
  fst (acquire_loop fuel index retry s) <> NoResult ->
  exists acts th',
    interleave (List.map (pair 0%nat) acts) {| shared := s; threads := [th] |}
      = Some {| shared := snd (acquire_loop fuel index retry s); threads := [th'] |} /\
    pc th' = Outside /\
    held th' = match fst (acquire_loop fuel index retry s) with
               | Ret (Some i) =>
                   to_UInt32 (capacity (snd (acquire_loop fuel index retry s)) - i) :: held th
               | _ => held th
               end.
Proof.
  induction fuel as [|fuel IH]; intros index retry s th Hpc Hres.
  - now destruct Hres.
  - destruct (locks_of s !! Z.to_nat index) as [[|]|] eqn:Hlock.
    2: { rewrite (acquire_loop_free _ _ _ _ Hlock). cbn [fst snd].
         exists [LoopTest]. eexists. split; [|split].
         - cbn [List.map interleave]. rewrite step_solo. unfold thread_step. rewrite Hpc.
           unfold bind. rewrite (tryLockJob_free _ _ Hlock). unfold gets, ret. reflexivity.
         - reflexivity.
         - reflexivity. }
    all: assert (Hheld : locks_of s !! Z.to_nat index <> Some false) by congruence;
      rewrite (acquire_loop_held _ _ _ _ Hheld) in *;
      assert (Htest : step 0 LoopTest {| shared := s; threads := [th] |} =
                Some {| shared := log (EvTryLock index false) s;
                        threads := [at_point (InLoopBody retry) th] |})
        by (rewrite step_solo; unfold thread_step; rewrite Hpc; unfold bind;
            rewrite (tryLockJob_held _ _ Hheld); reflexivity);
      destruct (to_UInt32 (retry + 1) >? capacity s) eqn:Hretry.
    all: try (exists [LoopTest; LoopBody], (at_point Outside th);
              split; [|split; reflexivity];
              cbn [List.map interleave]; rewrite Htest, step_solo;
              unfold thread_step; cbn [pc at_point]; unfold bind;
              rewrite distribution_step; unfold gets, ret;
              change (max_hw_jobs (st_pool (pool_step _ _ _ (log _ s)))) with (capacity s);
              rewrite Hretry; reflexivity).
    all: destruct (IH (next_index s) (to_UInt32 (retry + 1)) (after_failed_lock index s)
                      (at_point (AtLoopTest (next_index s) (to_UInt32 (retry + 1))) th)
                      eq_refl Hres) as (acts & th' & Hrun & Hout & Hheld');
      exists (LoopTest :: LoopBody :: acts), th';
      (split; [|split; [exact Hout|exact Hheld']]);
      cbn [List.map interleave]; rewrite Htest, step_solo;
      unfold thread_step; cbn [pc at_point]; unfold bind;
      rewrite distribution_step; unfold gets, ret;
      change (max_hw_jobs (st_pool (pool_step _ _ _ (log _ s)))) with (capacity s);
      rewrite Hretry; exact Hrun.
Qed.

(** A thread running alone from outside the pool reaches, by the steps
    of the interleaving model, the state and the handle that [acquireJob]
    computes. *)
Lemma solo_acquireJob fuel s th :
  pc th = Outside ->
  fst (acquireJob fuel s) <> NoResult ->
  exists acts th',
    interleave (List.map (pair 0%nat) acts) {| shared := s; threads := [th] |}
      = Some {| shared := snd (acquireJob fuel s); threads := [th'] |} /\
    pc th' = Outside /\
    held th' = match fst (acquireJob fuel s) with
               | Ret (Some (_, job_id)) => job_id :: held th
               | _ => held th
               end.
Proof.
  intros Hpc.
  assert (Hunfold : acquireJob fuel s =
            if job_pool_ready (st_pool s) then
              match acquire_loop fuel (next_index s) 0 (pool_step (locks_of s) 1 [] s) with
              | (Ret (Some i), s2) => (Ret (Some (i, to_UInt32 (capacity s2 - i))), s2)
              | (Ret None, s2) => (Ret None, s2)
              | (Throw e, s2) => (Throw e, s2)
              | (NoResult, s2) => (NoResult, s2)
              end
            else (Ret None, s)).
  { unfold acquireJob. unfold bind at 1. unfold isJobPoolReady, gets.
    destruct (job_pool_ready (st_pool s)); [|reflexivity].
    unfold bind at 1. rewrite distribution_step. unfold bind.
    destruct (acquire_loop _ _ _ _) as [[[i|]| |] s2]; reflexivity. }
  rewrite Hunfold. clear Hunfold.
  destruct (job_pool_ready (st_pool s)) eqn:Hready.
  - set (s1 := pool_step (locks_of s) 1 [] s). set (index := next_index s).
    assert (Hcall : step 0 CallAcquire {| shared := s; threads := [th] |} =
              Some {| shared := s1; threads := [at_point (AtLoopTest index 0) th] |}).
    { rewrite step_solo. unfold thread_step. rewrite Hpc. unfold bind at 1.
      unfold isJobPoolReady, gets. rewrite Hready. unfold bind.
      rewrite distribution_step. reflexivity. }
    intros Hres.
    destruct (solo_loop fuel index 0 s1 (at_point (AtLoopTest index 0) th) eq_refl)
      as (acts & th' & Hrun & Hout & Hheld).
    { destruct (acquire_loop fuel index 0 s1) as [[[i|]| |] s2]; try discriminate.
      now destruct Hres. }
    exists (CallAcquire :: acts), th'. cbn [List.map interleave]. rewrite Hcall, Hrun.
    destruct (acquire_loop fuel index 0 s1) as [[[i|]| |] s2]; cbn [fst snd] in *; auto.
  - intros _. exists [CallAcquire], th. split; [|split; [exact Hpc|reflexivity]].
    cbn [List.map interleave]. rewrite step_solo. unfold thread_step. rewrite Hpc.
    unfold bind, isJobPoolReady, gets. rewrite Hready. reflexivity.
Qed.

(** * The rest of the file: construction and teardown *)

Lemma insert_false_replicate n i : <[i := false]> (replicate n false) = replicate n false.
Proof.
  destruct (decide (i < n)%nat) as [Hlt|Hge].
  - apply list_insert_id. now apply lookup_replicate_2.
  - apply list_insert_ge. rewrite length_replicate. lia.
Qed.

Lemma initialised_le d count : forall index, (initialised d count index <= count)%nat.
Proof.
  induction count as [|count IH]; intros index; cbn [initialised]; [lia|].
  destruct (status_is_ok _); [specialize (IH (index + 1))|]; lia.
Qed.

Lemma initialised_all d count : forall index,
  initialised d count index = count <->
  (forall i, index <= i < index + Z.of_nat count -> status_is_ok (hw_init_status d i) = true).
Proof.
  induction count as [|count IH]; intros index; cbn [initialised].
  - split; [intros _ i Hi; lia|reflexivity].
  - destruct (status_is_ok (hw_init_status d index)) eqn:Hok.
    + split.
      * intros [= H]. pose proof (proj1 (IH (index + 1)) H) as Hall. intros i Hi.
        destruct (Z.eq_dec i index) as [->|Hne]; [exact Hok|apply Hall; lia].
      * intros H. f_equal. apply (proj2 (IH (index + 1))). intros i Hi. apply H. lia.
    + split; [discriminate|]. intros H. rewrite H in Hok by lia. discriminate.
Qed.

Lemma initialised_first_failure d count : forall index,
  (initialised d count index < count)%nat ->
  status_is_ok (hw_init_status d (index + Z.of_nat (initialised d count index))) = false.
Proof.
  induction count as [|count IH]; intros index; cbn [initialised]; [lia|].
  destruct (status_is_ok (hw_init_status d index)) eqn:Hok.
  - intros H. replace (index + Z.of_nat (S (initialised d count (index + 1))))
      with (index + 1 + Z.of_nat (initialised d count (index + 1))) by lia.
    apply IH. lia.
  - intros _. now rewrite Z.add_0_r.
Qed.

(** The loop of the constructor on clear flags: it leaves them clear, logs
    one [unLockJob] per initialised job, and marks the pool ready exactly
    when it initialised every job. *)
Lemma init_jobs_run d count : forall index s,
  (exists n, locks_of s = replicate n false) ->
  let k := initialised d count index in
  init_jobs d count index s =
    (Ret tt,
     with_pool (with_ready (k =? count)%nat (st_pool s))
               (pool_step (locks_of s) 0 (unlock_range index k) s)).
Proof.
  induction count as [|count IH]; intros index s [n Hlocks]; cbn [init_jobs initialised].
  - cbn [unlock_range Nat.eqb]. unfold set_ready, modify. rewrite pool_step_id. reflexivity.
  - destruct (status_is_ok (hw_init_status d index)) eqn:Hok; cbn [negb].
    + unfold bind. unfold unLockJob at 1.
      fold (locks_of s). rewrite Hlocks, insert_false_replicate, <- Hlocks.
      rewrite IH by (exists n; exact Hlocks).
      cbn [unlock_range Nat.eqb]. f_equal.
      destruct s as [m [] j a c t e tr]. unfold pool_step, with_pool, with_ready, log, locks_of.
      cbn. rewrite <- app_assoc. reflexivity.
    + cbn [unlock_range Nat.eqb]. unfold set_ready, modify. rewrite pool_step_id. reflexivity.
Qed.

Lemma total_wq_size_range devices : 0 <= total_wq_size devices < 2 ^ 32.
Proof.
  unfold total_wq_size.
  assert (Hinner : forall device acc, 0 <= acc < 2 ^ 32 ->
            0 <= fold_left (fun a size => to_UInt32 (a + size)) device acc < 2 ^ 32).
  { induction device as [|size device IH]; intros acc Hacc; cbn [fold_left]; [exact Hacc|].
    apply IH. unfold to_UInt32. apply Z.mod_pos_bound. lia. }
  assert (Houter : forall acc, 0 <= acc < 2 ^ 32 ->
            0 <= fold_left (fun acc device =>
                              fold_left (fun a size => to_UInt32 (a + size)) device acc)
                           devices acc < 2 ^ 32).
  { induction devices as [|device devices IH]; intros acc Hacc; cbn [fold_left]; [exact Hacc|].
    apply IH. now apply Hinner. }
  apply Houter. lia.
Qed.

Lemma pool_constructor_run d s :
  let total := total_wq_size (wq_sizes d) in
  let k := initialised d (Z.to_nat total) 0 in
  pool_constructor d s =
    (Ret tt,
     if ctx_status d =? 0 then
       if total =? 0 then with_pool (built_pool 0 false) s
       else with_pool (built_pool total (k =? Z.to_nat total)%nat)
                      (pool_step (locks_of s) 0 (unlock_range 0 k) s)
     else with_pool (built_pool 0 false) s).
Proof.
  cbv zeta. unfold pool_constructor, bind, modify, gets, set_ready.
  cbn [st_pool with_pool with_max max_hw_jobs].
  destruct (ctx_status d =? 0); [|reflexivity].
  destruct (total_wq_size (wq_sizes d) =? 0) eqn:Hzero.
  - apply Z.eqb_eq in Hzero. unfold modify. rewrite Hzero. reflexivity.
  - rewrite init_jobs_run by (eexists; reflexivity). reflexivity.
Qed.

Lemma total_wq_size_exact devices :
  Forall (fun size => 0 <= size) (concat devices) ->
  wq_sum devices < 2 ^ 32 ->
  total_wq_size devices = wq_sum devices.
Proof.
  unfold total_wq_size, wq_sum.
  assert (Hinner : forall device acc,
            0 <= acc -> Forall (fun size => 0 <= size) device ->
            acc + fold_right Z.add 0 device < 2 ^ 32 ->
            fold_left (fun a size => to_UInt32 (a + size)) device acc
            = acc + fold_right Z.add 0 device).
  { induction device as [|size device IH]; intros acc Hacc Hpos Hsum; cbn [fold_left fold_right].
    - lia.
    - apply List.Forall_cons_iff in Hpos as [Hsize Hpos]. cbn [fold_right] in Hsum.
      assert (0 <= fold_right Z.add 0 device).
      { clear -Hpos. induction Hpos; cbn [fold_right]; lia. }
      rewrite (to_UInt32_small (acc + size)) by lia.
      rewrite IH by (try assumption; lia). lia. }
  assert (Hsum_pos : forall l, Forall (fun size => 0 <= size) l -> 0 <= fold_right Z.add 0 l).
  { intros l Hl. induction Hl; cbn [fold_right]; lia. }
  assert (Houter : forall acc,
            0 <= acc -> Forall (fun size => 0 <= size) (concat devices) ->
            acc + fold_right Z.add 0 (concat devices) < 2 ^ 32 ->
            fold_left (fun acc device =>
                         fold_left (fun a size => to_UInt32 (a + size)) device acc)
                      devices acc
            = acc + fold_right Z.add 0 (concat devices)).
  { induction devices as [|device devices IH]; intros acc Hacc Hpos Hsum;
      cbn [fold_left concat fold_right] in *; [lia|].
    apply List.Forall_app in Hpos as [Hdev Hrest].
    rewrite fold_right_app in Hsum.
    assert (Hsplit : forall l x, fold_right Z.add x l = fold_right Z.add 0 l + x).
    { induction l as [|a l IHl]; intros x; cbn [fold_right]; [lia|]. rewrite IHl. lia. }
    rewrite fold_right_app, (Hsplit device).
    rewrite (Hsplit device) in Hsum.
    pose proof (Hsum_pos _ Hdev). pose proof (Hsum_pos _ Hrest).
    rewrite Hinner by (try assumption; lia).
    rewrite IH by (try assumption; lia). lia. }
  intros Hpos Hsum. rewrite Houter by (try assumption; lia). lia.
Qed.

(** The constructor of the pool always returns.  Without a configuration
    context the pool is empty and not ready.  With one, the capacity is the
    sum of the work queue sizes (in [UInt32]), there is one clear flag and
    one job per slot, and the pool is ready exactly when the capacity is not
    zero and every job could be initialised; when a job cannot be
    initialised the pool is not ready but keeps the full capacity.  The
    constructor logs one [unLockJob] per job it initialised and touches
    nothing but the pool.  The capacity is the plain sum of the sizes when
    these are not negative and their sum is below 2^32. *)
Theorem pool_constructor_outcome (d : Discovery) (s : State) :
  let total := total_wq_size (wq_sizes d) in
  let k := initialised d (Z.to_nat total) 0 in
  let r := pool_constructor d s in
  fst r = Ret tt /\
  (ctx_status d <> 0 -> snd r = with_pool (built_pool 0 false) s) /\
  (Forall (fun size => 0 <= size) (concat (wq_sizes d)) -> wq_sum (wq_sizes d) < 2 ^ 32 ->
   total = wq_sum (wq_sizes d)) /\
  (ctx_status d = 0 ->
   exists ready,
     st_pool (snd r) = built_pool total ready /\
     st_trace (snd r) = unlock_range 0 k ++ st_trace s /\
     (ready = true <-> total <> 0 /\ all_jobs_initialise d total) /\
     (ready = false -> total <> 0 ->
      Z.of_nat k < total /\ status_is_ok (hw_init_status d (Z.of_nat k)) = false)) /\
  st_mem (snd r) = st_mem s /\
  sw_job (snd r) = sw_job s /\
  decomp_async_job_map (snd r) = decomp_async_job_map s /\
  decompress_mode (snd r) = decompress_mode s /\
  st_clock (snd r) = st_clock s /\
  st_env (snd r) = st_env s.
Proof.
  cbv zeta. pose proof (total_wq_size_range (wq_sizes d)) as Hrange.
  rewrite pool_constructor_run.
  set (total := total_wq_size (wq_sizes d)) in *.
  set (k := initialised d (Z.to_nat total) 0).
  destruct (Z.eqb_spec (ctx_status d) 0) as [Hctx|Hctx].
  - destruct (Z.eqb_spec total 0) as [Hzero|Hpos]; cbn [fst snd].
    + split; [reflexivity|]. split; [contradiction|].
      split; [apply total_wq_size_exact|]. split; [|repeat split].
      intros _. exists false. subst k. rewrite Hzero. cbn.
      split; [reflexivity|]. split; [reflexivity|]. split; [|contradiction].
      split; [discriminate|]. now intros [].
    + split; [reflexivity|]. split; [contradiction|].
      split; [apply total_wq_size_exact|]. split; [|repeat split].
      intros _. exists (k =? Z.to_nat total)%nat.
      split; [reflexivity|]. split; [reflexivity|].
      pose proof (initialised_le d (Z.to_nat total) 0) as Hle. fold k in Hle.
      pose proof (initialised_all d (Z.to_nat total) 0) as Hall. fold k in Hall.
      rewrite Z2Nat.id in Hall by lia. cbn [Z.add] in Hall. split.
      * rewrite Nat.eqb_eq, Hall. unfold all_jobs_initialise. tauto.
      * intros Hnot _. apply Nat.eqb_neq in Hnot. split; [lia|].
        apply (initialised_first_failure d (Z.to_nat total) 0). fold k. lia.
  - cbn [fst snd]. split; [reflexivity|]. split; [reflexivity|].
    split; [apply total_wq_size_exact|]. split; [contradiction|]. repeat split.
Qed.

Lemma acquireJob_first_free fuel s :
  job_pool_ready (st_pool s) = true ->
  locks_of s !! Z.to_nat (next_index s) = Some false ->
  acquireJob (S fuel) s =
    (Ret (Some (next_index s, to_UInt32 (capacity s - next_index s))),
     pool_step (<[Z.to_nat (next_index s) := true]> (locks_of s)) 1
               [EvTryLock (next_index s) true] s).
Proof.
  intros Hready Hfree. unfold acquireJob. unfold bind at 1. unfold isJobPoolReady, gets.
  rewrite Hready. unfold bind at 1. rewrite distribution_step.
  unfold bind at 1. rewrite acquire_loop_free by exact Hfree.
  unfold bind, gets, ret. rewrite pool_step_compose. reflexivity.
Qed.

(** A pool that the constructor has marked ready is well formed when its
    capacity fits the [int] distribution, every slot is free, and the first
    [acquireJob] locks the first slot it draws and returns the handle
    [capacity - index]. *)
Theorem fresh_pool_first_acquire (d : Discovery) (fuel : nat) (s : State) :
  let total := total_wq_size (wq_sizes d) in
  let s1 := snd (pool_constructor d s) in
  let index := rng_raw (st_env s) 0 mod total in
  ctx_status d = 0 ->
  0 < total <= 2 ^ 31 ->
  all_jobs_initialise d total ->
  (0 < fuel)%nat ->
  job_pool_ready (st_pool s1) = true /\
  pool_wf (st_pool s1) /\
  locks_of s1 = replicate (Z.to_nat total) false /\
  exists s2,
    acquireJob fuel s1 = (Ret (Some (index, total - index)), s2) /\
    0 <= index < total /\
    locks_of s2 = <[Z.to_nat index := true]> (replicate (Z.to_nat total) false) /\
    st_trace s2 = EvTryLock index true :: st_trace s1.
Proof.
  intros total s1 index Hctx Htotal Hall Hfuel.
  assert (Hs1 : s1 = with_pool (built_pool total true)
                       (pool_step (locks_of s) 0
                          (unlock_range 0 (initialised d (Z.to_nat total) 0)) s)).
  { unfold s1. rewrite pool_constructor_run. cbv zeta. cbn [snd]. fold total.
    destruct (Z.eqb_spec (ctx_status d) 0); [|contradiction].
    destruct (Z.eqb_spec total 0); [lia|].
    assert (Hk : initialised d (Z.to_nat total) 0 = Z.to_nat total).
    { apply initialised_all. intros i Hi. apply Hall. lia. }
    rewrite Hk, Nat.eqb_refl. reflexivity. }
  assert (Hpool : st_pool s1 = built_pool total true) by (now rewrite Hs1).
  assert (Henv : st_env s1 = st_env s) by (now rewrite Hs1).
  assert (Hwf : pool_wf (st_pool s1)).
  { rewrite Hpool. unfold pool_wf, built_pool. cbn. rewrite !length_replicate. lia. }
  assert (Hindex : 0 <= index < total) by (apply mod_capacity_range; lia).
  assert (Hlocks : locks_of s1 = replicate (Z.to_nat total) false)
    by (unfold locks_of; now rewrite Hpool).
  assert (Hcap : capacity s1 = total) by (unfold capacity; now rewrite Hpool).
  split; [now rewrite Hpool|]. split; [exact Hwf|]. split; [exact Hlocks|].
  destruct fuel as [|fuel]; [lia|].
  assert (Hnext : next_index s1 = index).
  { unfold next_index. rewrite Hcap, Henv, Hpool. reflexivity. }
  assert (Hfree : locks_of s1 !! Z.to_nat (next_index s1) = Some false).
  { rewrite Hnext, Hlocks. apply lookup_replicate_2. lia. }
  eexists. split; [|split; [exact Hindex|]].
  - rewrite acquireJob_first_free; [|now rewrite Hpool|exact Hfree].
    rewrite Hnext, Hcap, (to_UInt32_small (total - index)) by lia. reflexivity.
  - split; [|reflexivity]. cbn -[s1]. fold (locks_of s1). now rewrite Hlocks.
Qed.

Lemma fresh_pool_first_acquire_witness :
  let d := example_discovery (-1) in
  let s := example_state (example_env 0 QPL_STS_OK []) false [] Synchronous in
  let s1 := snd (pool_constructor d s) in
  total_wq_size (wq_sizes d) = 4 /\
  job_pool_ready (st_pool s1) = true /\
  pool_wf (st_pool s1) /\
  fst (acquireJob 1 s1) = Ret (Some (0, 4)).
Proof.
  cbv zeta.
  assert (Hall : all_jobs_initialise (example_discovery (-1))
                   (total_wq_size (wq_sizes (example_discovery (-1))))).
  { intros i Hi. cbn [example_discovery hw_init_status].
    destruct (Z.eqb_spec i (-1)); [lia|reflexivity]. }
  destruct (fresh_pool_first_acquire (example_discovery (-1)) 1
              (example_state (example_env 0 QPL_STS_OK []) false [] Synchronous)
              eq_refl ltac:(split; [reflexivity|vm_compute; discriminate]) Hall
              ltac:(lia))
    as (Hready & Hwf & _ & s2 & Hacq & _).
  split; [reflexivity|]. split; [exact Hready|]. split; [exact Hwf|].
  rewrite Hacq. reflexivity.
Defined.

(** ** The destructor of the pool *)

Lemma log_pool_step e s : log e s = pool_step (locks_of s) 0 [e] s.
Proof. destruct s as [m [] j a c t env tr]; reflexivity. Qed.

Lemma spin_lock_free fuel i s :
  locks_of s !! Z.to_nat i = Some false ->
  spin_lock (S fuel) i s =
    (Ret tt, pool_step (<[Z.to_nat i := true]> (locks_of s)) 0 [EvTryLock i true] s).
Proof.
  intros H. cbn [spin_lock]. unfold bind. now rewrite (tryLockJob_free _ _ H).
Qed.

(** Nobody else runs: spinning on a held slot never ends. *)
Lemma spin_lock_held i fuel : forall s,
  locks_of s !! Z.to_nat i <> Some false ->
  exists evs, spin_lock fuel i s = (NoResult, pool_step (locks_of s) 0 evs s).
Proof.
  induction fuel as [|fuel IH]; intros s Hheld.
  - exists []. cbn [spin_lock]. unfold no_result. now rewrite pool_step_id.
  - cbn [spin_lock]. unfold bind. rewrite (tryLockJob_held _ _ Hheld).
    rewrite log_pool_step.
    destruct (IH (pool_step (locks_of s) 0 [EvTryLock i false] s)) as (evs & Hspin);
      [exact Hheld|].
    rewrite Hspin. eexists. rewrite pool_step_compose. reflexivity.
Qed.

(** One slot of the destructor's loop, on a free slot. *)
Lemma fini_jobs_free fuel count i s :
  locks_of s !! Z.to_nat i = Some false ->
  fini_jobs (S fuel) (S count) i s =
    fini_jobs (S fuel) count (i + 1)
      (pool_step (locks_of s) 0
                 [EvUnLock i; EvFini (Some (hw_job i s)); EvTryLock i true] s).
Proof.
  intros Hfree. cbn [fini_jobs]. unfold bind at 1. rewrite (spin_lock_free _ _ _ Hfree).
  unfold bind at 1. unfold gets at 1. unfold bind at 1. unfold modify at 1.
  unfold bind at 1. unfold unLockJob at 1.
  f_equal. destruct s as [m [mx rd lk jb en] j a c t env tr].
  unfold pool_step, log, with_pool, with_locks, with_engine, locks_of, hw_job in *. cbn in *.
  rewrite (insert_undo _ _ Hfree). reflexivity.
Qed.

Lemma fini_range_hw_job s evs i n :
  fini_range (pool_step (locks_of s) 0 evs s) i n = fini_range s i n.
Proof.
  revert i. induction n as [|n IH]; intros i; cbn [fini_range]; [reflexivity|].
  now rewrite IH.
Qed.

Lemma fini_jobs_idle fuel count : forall i s,
  (forall j, i <= j < i + Z.of_nat count -> locks_of s !! Z.to_nat j = Some false) ->
  fini_jobs (S fuel) count i s =
    (Ret tt, pool_step (locks_of s) 0 (fini_range s i count) s).
Proof.
  induction count as [|count IH]; intros i s Hfree.
  - cbn [fini_jobs fini_range]. unfold ret. now rewrite pool_step_id.
  - rewrite fini_jobs_free by (apply Hfree; lia).
    rewrite IH by (intros j Hj; apply Hfree; lia).
    cbn [fini_range]. rewrite pool_step_compose, fini_range_hw_job. reflexivity.
Qed.

Lemma fini_jobs_held fuel count : forall i s,
  (exists j, i <= j < i + Z.of_nat count /\ locks_of s !! Z.to_nat j <> Some false) ->
  exists evs, fini_jobs fuel count i s = (NoResult, pool_step (locks_of s) 0 evs s).
Proof.
  induction count as [|count IH]; intros i s (j & Hj & Hheld); [lia|].
  destruct (decide (locks_of s !! Z.to_nat i = Some false)) as [Hfree|Hbusy].
  - destruct fuel as [|fuel].
    + exists []. cbn [fini_jobs spin_lock]. unfold bind, no_result. now rewrite pool_step_id.
    + rewrite fini_jobs_free by exact Hfree.
      edestruct (IH (i + 1) (pool_step (locks_of s) 0
                    [EvUnLock i; EvFini (Some (hw_job i s)); EvTryLock i true] s))
        as (evs & Hrun).
      { exists j. split; [|exact Hheld].
        assert (j <> i) by (intros ->; contradiction). lia. }
      rewrite Hrun. eexists. rewrite pool_step_compose. reflexivity.
  - destruct (spin_lock_held i fuel s Hbusy) as (evs & Hspin).
    exists evs. cbn [fini_jobs]. unfold bind at 1. now rewrite Hspin.
Qed.

(** The destructor of a pool whose slots are all free: every slot is
    locked, its job finalised and the slot unlocked, in ascending order;
    the flags end as they were and the pool is marked not ready, so
    [acquireJob] answers [nullptr] from then on. *)
Theorem pool_destructor_idle (fuel : nat) (s : State) :
  (0 < fuel)%nat ->
  (forall j, 0 <= j < capacity s -> locks_of s !! Z.to_nat j = Some false) ->
  let s' := with_pool (with_ready false (st_pool s))
              (pool_step (locks_of s) 0 (fini_range s 0 (Z.to_nat (capacity s))) s) in
  pool_destructor fuel s = (Ret tt, s') /\
  locks_of s' = locks_of s /\
  length (List.filter (fun e => match e with EvFini _ => true | _ => false end)
                      (fini_range s 0 (Z.to_nat (capacity s)))) = Z.to_nat (capacity s) /\
  forall fuel', acquireJob fuel' s' = (Ret None, s').
Proof.
  intros Hfuel Hfree s'. destruct fuel as [|fuel]; [lia|].
  split; [|split; [|split]].
  - unfold pool_destructor, bind, gets. fold (capacity s).
    rewrite fini_jobs_idle by (intros j Hj; apply Hfree; lia).
    reflexivity.
  - reflexivity.
  - generalize 0. induction (Z.to_nat (capacity s)) as [|n IH]; intros i; [reflexivity|].
    cbn [fini_range]. rewrite List.filter_app, length_app, IH. cbn. lia.
  - intros fuel'. now apply acquireJob_unready.
Qed.

(** The destructor of a pool one of whose slots is held, when nobody
    releases it: the destructor never gets past that slot, whatever the
    fuel; the flags are as they were and the pool is still marked as
    before. *)
Theorem pool_destructor_waits (fuel : nat) (s : State) (k : Z) :
  0 <= k < capacity s ->
  locks_of s !! Z.to_nat k = Some true ->
  let r := pool_destructor fuel s in
  fst r = NoResult /\
  locks_of (snd r) = locks_of s /\
  job_pool_ready (st_pool (snd r)) = job_pool_ready (st_pool s).
Proof.
  intros Hk Hheld. cbv zeta.
  destruct (fini_jobs_held fuel (Z.to_nat (capacity s)) 0 s) as (evs & Hrun).
  { exists k. split; [lia|congruence]. }
  unfold pool_destructor, bind, gets. fold (capacity s). rewrite Hrun.
  split; [reflexivity|]. split; reflexivity.
Qed.

Lemma pool_destructor_idle_witness :
  let s := example_state (example_env 0 QPL_STS_OK []) true [false; false; false] Synchronous in
  fst (pool_destructor 1 s) = Ret tt /\
  job_pool_ready (st_pool (snd (pool_destructor 1 s))) = false /\
  locks_of (snd (pool_destructor 1 s)) = [false; false; false] /\
  st_trace (snd (pool_destructor 1 s)) =
    [EvUnLock 2; EvFini (Some blank_job); EvTryLock 2 true;
     EvUnLock 1; EvFini (Some blank_job); EvTryLock 1 true;
     EvUnLock 0; EvFini (Some blank_job); EvTryLock 0 true].
Proof.
  cbv zeta.
  assert (Hfree : forall j, 0 <= j < capacity (example_state (example_env 0 QPL_STS_OK []) true
                                                 [false; false; false] Synchronous) ->
            locks_of (example_state (example_env 0 QPL_STS_OK []) true
                                    [false; false; false] Synchronous) !! Z.to_nat j
            = Some false).
  { intros j Hj. change (capacity _) with 3 in Hj.
    assert (j = 0 \/ j = 1 \/ j = 2) as [->|[->| ->]] by lia; reflexivity. }
  destruct (pool_destructor_idle 1 _ ltac:(lia) Hfree) as (Hrun & _).
  rewrite Hrun. repeat split.
Defined.

Lemma pool_destructor_waits_witness :
  let s := example_state (example_env 0 QPL_STS_OK []) true [false; true; false] Synchronous in
  fst (pool_destructor 7 s) = NoResult /\
  locks_of (snd (pool_destructor 7 s)) = [false; true; false] /\
  job_pool_ready (st_pool (snd (pool_destructor 7 s))) = true.
Proof.
  cbv zeta.
  exact (pool_destructor_waits 7
           (example_state (example_env 0 QPL_STS_OK []) true [false; true; false] Synchronous)
           1 ltac:(split; [lia|reflexivity]) eq_refl).
Defined.

(** ** The destructor of the hardware engine *)

Lemma release_each_run s : job_pool_ready (st_pool s) = true ->
  forall m locks evs,
    release_each m (pool_step locks 0 evs s) =
      (Ret tt, pool_step (release_all s m locks) 0 (release_events s m ++ evs) s).
Proof.
  intros Hready. induction m as [|[id ptr] m IH]; intros locks evs.
  - reflexivity.
  - cbn [release_each]. unfold bind. rewrite releaseJob_ready by exact Hready.
    rewrite pool_step_compose. cbn [Nat.add]. rewrite IH.
    unfold release_events. cbn [List.map rev fst]. rewrite <- app_assoc.
    reflexivity.
Qed.

Lemma hw_destructor_run s :
  job_pool_ready (st_pool s) = true ->
  hw_destructor s =
    (Ret tt,
     with_map [] (pool_step (release_all s (decomp_async_job_map s) (locks_of s)) 0
                            (release_events s (decomp_async_job_map s)) s)).
Proof.
  intros Hready. unfold hw_destructor, bind, gets.
  destruct (decomp_async_job_map s) as [|e m] eqn:Hmap.
  - unfold ret. cbn [release_all fold_left]. unfold release_events. cbn [List.map rev].
    rewrite pool_step_id. destruct s; cbn in *; now subst.
  - rewrite <- (pool_step_id s) at 1. rewrite (release_each_run s Hready).
    rewrite app_nil_r. reflexivity.
Qed.

Lemma hw_destructor_drained s :
  job_pool_ready (st_pool s) = true ->
  drained s (decomp_async_job_map s) (snd (hw_destructor s)).
Proof.
  intros Hready. rewrite (hw_destructor_run s Hready). cbn [snd]. split.
  - split; try reflexivity.
    unfold locks_of at 1. cbn. apply release_all_length.
  - cbn. now rewrite app_nil_r.
  - reflexivity.
Qed.

(** Teardown of the hardware engine in a release build: every registered
    slot is released and the map emptied without consulting the device (no
    time passes, memory is untouched, the log gains one [unLockJob] per
    entry, in the order of the map), whether or not the jobs have finished;
    the slots held elsewhere stay held. *)
Theorem hw_destructor_releases (others : list nat) (s : State) :
  pool_balanced others s ->
  let s' := snd (hw_destructor s) in
  fst (hw_destructor s) = Ret tt /\
  decomp_async_job_map s' = [] /\
  (forall k, locks_of s' !! k = Some true <-> In k others) /\
  st_trace s' = release_events s (decomp_async_job_map s) ++ st_trace s /\
  st_clock s' = st_clock s /\
  st_mem s' = st_mem s /\
  hw_jobs_buffer (st_pool s') = hw_jobs_buffer (st_pool s) /\
  pool_balanced others s'.
Proof.
  intros Hinv. pose proof Hinv as (Hready & _).
  pose proof (pool_balanced_drained others _ _ _ (hw_destructor_drained s Hready) Hinv)
    as Hinv'.
  cbv zeta. revert Hinv'. rewrite (hw_destructor_run s Hready). cbn [fst snd]. intros Hinv'.
  split; [reflexivity|]. split; [reflexivity|]. split.
  - intros k. destruct Hinv' as (_ & _ & _ & [Hheld _]). rewrite Hheld. cbn. split.
    + intros [H|(id & ptr & [] & _)]. exact H.
    + intros H. now left.
  - repeat (split; [reflexivity|]). exact Hinv'.
Qed.

Lemma hw_destructor_releases_witness :
  let s := with_map [(2, 0)]
             (example_state (example_env 9 QPL_STS_OK []) true [true; true] Synchronous) in
  pool_balanced [1%nat] s /\
  hw_destructor s =
    (Ret tt,
     with_map [] (pool_step [false; true] 0 [EvUnLock 0] s)) /\
  pool_balanced [1%nat] (snd (hw_destructor s)).
Proof.
  cbv zeta.
  assert (Hinv : pool_balanced [1%nat]
                   (with_map [(2, 0)]
                      (example_state (example_env 9 QPL_STS_OK []) true [true; true]
                                     Synchronous))).
  { split; [reflexivity|]. split; [apply example_pool_wf; cbn; lia|].
    split; [split|split].
    - constructor; [|constructor]. split; cbn; lia.
    - apply NoDup_ListNoDup. repeat constructor. intros [].
    - intros k. cbn. split.
      + intros Hk. destruct k as [|[|k]]; cbn in Hk; try discriminate.
        * right. exists 2, 0. split; [now left|reflexivity].
        * left. now left.
      + intros [[<-|[]]|(id & ptr & [[= <- <-]|[]] & <-)]; reflexivity.
    - intros id ptr [[= <- <-]|[]]. cbn. intros [H|[]]. discriminate. }
  split; [exact Hinv|]. split; [reflexivity|].
  apply (hw_destructor_releases [1%nat] _ Hinv).
Defined.

(** ** Touching the destination *)

Lemma store_one m p b a : store m p [b] a = if a =? p then b else m a.
Proof. reflexivity. Qed.

Lemma touch_loop_spec limit page (Hpage : 0 < page) fuel : forall p m a,
  touch_loop fuel p limit page m a =
    if (p <=? a) && (a <? limit) && ((a - p) mod page =? 0)
       && ((a - p) / page <? Z.of_nat fuel)
    then 0 else m a.
Proof.
  induction fuel as [|fuel IH]; intros p m a; cbn [touch_loop].
  - destruct (Z.leb_spec p a); cbn [andb]; [|reflexivity].
    assert (0 <= (a - p) / page) by (apply Z.div_pos; lia).
    destruct (Z.ltb_spec ((a - p) / page) (Z.of_nat 0)); [lia|].
    now rewrite !andb_false_r.
  - destruct (Z.ltb_spec p limit) as [Hin|Hout].
    + rewrite IH, store_one.
      assert (Hmod : (a - (p + page)) mod page = (a - p) mod page).
      { replace (a - (p + page)) with (a - p + (-1) * page) by lia. apply Z.mod_add. lia. }
      assert (Hdiv : (a - (p + page)) / page = (a - p) / page - 1).
      { replace (a - (p + page)) with (a - p + (-1) * page) by lia.
        rewrite Z.div_add by lia. lia. }
      rewrite Hmod, Hdiv.
      destruct (Z.eqb_spec a p) as [->|Hne].
      * rewrite Z.sub_diag, Z.mod_0_l, Z.div_0_l by lia.
        rewrite Z.leb_refl. destruct (Z.ltb_spec p limit); [|lia].
        cbn [andb Z.eqb]. destruct (Z.ltb_spec 0 (Z.of_nat (S fuel))); [|lia].
        destruct (_ && _ && _ && _); reflexivity.
      * destruct (Z.leb_spec (p + page) a) as [Hge|Hlt].
        -- destruct (Z.leb_spec p a); [|lia]. cbn [andb].
           destruct (a <? limit); cbn [andb]; [|reflexivity].
           destruct ((a - p) mod page =? 0); cbn [andb]; [|reflexivity].
           destruct (Z.ltb_spec ((a - p) / page - 1) (Z.of_nat fuel));
             destruct (Z.ltb_spec ((a - p) / page) (Z.of_nat (S fuel))); try lia; reflexivity.
        -- cbn [andb]. destruct (Z.leb_spec p a) as [Hpa|]; cbn [andb]; [|reflexivity].
           destruct (a <? limit); cbn [andb]; [|reflexivity].
           destruct (Z.eqb_spec ((a - p) mod page) 0) as [Hzero|]; cbn [andb]; [|reflexivity].
           exfalso. rewrite Z.mod_small in Hzero by lia. lia.
    + destruct (Z.leb_spec p a); cbn [andb]; [|reflexivity].
      destruct (Z.ltb_spec a limit); [lia|reflexivity].
Qed.

Lemma touched_mem buffer buffer_size s :
  0 <= buffer_size ->
  forall a, st_mem (touched buffer buffer_size s) a =
            if (buffer <=? a) && (a <? buffer + buffer_size)
               && ((a - buffer) mod Z.pos (page_size (st_env s)) =? 0)
            then 0 else st_mem s a.
Proof.
  intros Hsize a. unfold touched. cbn [st_mem with_mem].
  rewrite touch_loop_spec by reflexivity.
  destruct (Z.leb_spec buffer a) as [Hle|]; cbn [andb]; [|reflexivity].
  destruct (Z.ltb_spec a (buffer + buffer_size)) as [Hlt|]; cbn [andb]; [|reflexivity].
  destruct ((a - buffer) mod _ =? 0); cbn [andb]; [|reflexivity].
  assert ((a - buffer) / Z.pos (page_size (st_env s)) <= a - buffer).
  { apply Z.div_le_upper_bound; [reflexivity|]. nia. }
  destruct (Z.ltb_spec ((a - buffer) / Z.pos (page_size (st_env s)))
                       (Z.of_nat (Z.to_nat buffer_size))); [reflexivity|lia].
Qed.

(** [touchBufferWithZeroFilling] writes a zero at the first byte of the
    buffer and then at every page size from there while inside the buffer,
    and changes no other byte of memory and nothing else of the state; on
    an empty buffer it writes nothing. *)
Theorem touch_zero_fills (buffer buffer_size : Z) (s : State) :
  0 <= buffer_size ->
  let page := Z.pos (page_size (st_env s)) in
  let r := touchBufferWithZeroFilling buffer buffer_size s in
  fst r = Ret tt /\
  (forall a, st_mem (snd r) a =
             if (buffer <=? a) && (a <? buffer + buffer_size) && ((a - buffer) mod page =? 0)
             then 0 else st_mem s a) /\
  snd r = with_mem (st_mem (snd r)) s /\
  (buffer_size = 0 -> snd r = s).
Proof.
  intros Hsize page r. split; [reflexivity|]. split; [|split].
  - exact (touched_mem buffer buffer_size s Hsize).
  - reflexivity.
  - intros ->. subst r. unfold touchBufferWithZeroFilling, modify. cbn [snd].
    cbn [Z.to_nat touch_loop]. destruct s; reflexivity.
Qed.

(** ** The bound on the compressed size *)

Lemma shiftr_as_div n : 
  Z.shiftr n 12 = n / 4096 /\ Z.shiftr n 14 = n / 16384 /\ Z.shiftr n 25 = n / 33554432.
Proof. rewrite !Z.shiftr_div_pow2 by lia. repeat split. Qed.

(** [getMaxCompressedDataSize] is computed in [UInt32].  Up to the size
    4293656835 the sum does not wrap: the bound exceeds the size by at
    least 13 and grows with it.  Above that size the sum wraps: the bound
    is smaller than the size, at most 1310857, and it is 0 for the size
    4293656836. *)
Theorem max_compressed_size_wraps (n : Z) :
  0 <= n < 2 ^ 32 ->
  let exact := n + n / 4096 + n / 16384 + n / 33554432 + 13 in
  (n <= 4293656835 ->
   getMaxCompressedDataSize n = exact /\
   n + 13 <= getMaxCompressedDataSize n /\
   forall m, 0 <= m <= n -> getMaxCompressedDataSize m <= getMaxCompressedDataSize n) /\
  (4293656835 < n ->
   getMaxCompressedDataSize n = exact - 2 ^ 32 /\
   getMaxCompressedDataSize n <= 1310857 /\
   getMaxCompressedDataSize n < n) /\
  getMaxCompressedDataSize 4293656836 = 0.
Proof.
  intros Hn exact.
  assert (Hexact : forall m, 0 <= m <= 4293656835 ->
            getMaxCompressedDataSize m = m + m / 4096 + m / 16384 + m / 33554432 + 13).
  { intros m Hm. apply getMaxCompressedDataSize_exact; [lia|].
    change (2 ^ 32) with 4294967296. Z.to_euclidean_division_equations. lia. }
  split; [|split].
  - intros Hsmall. split; [apply Hexact; lia|]. split.
    + rewrite Hexact by lia. Z.to_euclidean_division_equations. lia.
    + intros m Hm. rewrite !Hexact by lia.
      pose proof (Z.div_le_mono m n 4096 ltac:(lia) ltac:(lia)).
      pose proof (Z.div_le_mono m n 16384 ltac:(lia) ltac:(lia)).
      pose proof (Z.div_le_mono m n 33554432 ltac:(lia) ltac:(lia)).
      lia.
  - intros Hlarge.
    assert (Hwrap : getMaxCompressedDataSize n = exact - 2 ^ 32).
    { unfold getMaxCompressedDataSize, to_UInt32.
      destruct (shiftr_as_div n) as (-> & -> & ->). fold exact.
      symmetry. apply Z.mod_unique with (q := 1); [left|lia].
      subst exact. change (2 ^ 32) with 4294967296 in *.
      Z.to_euclidean_division_equations. lia. }
    split; [exact Hwrap|]. rewrite Hwrap. subst exact.
    change (2 ^ 32) with 4294967296 in *.
    split; Z.to_euclidean_division_equations; lia.
  - reflexivity.
Qed.

Lemma max_compressed_size_wraps_witness :
  getMaxCompressedDataSize 4294967295 = 1310857 /\
  getMaxCompressedDataSize 4294967295 < 4294967295.
Proof.
  destruct (max_compressed_size_wraps 4294967295 ltac:(split; [lia|reflexivity]))
    as (_ & Hlarge & _).
  destruct (Hlarge ltac:(reflexivity)) as (_ & _ & Hlt).
  split; [reflexivity|exact Hlt].
Defined.

(** ** The software engine's resource *)

(** A software engine whose resource cannot be initialised: the first
    call, compress or decompress, throws CANNOT_COMPRESS from the
    initialisation without running the engine or writing memory, and leaves
    the resource pointer set.  The next call therefore does not initialise
    again: it runs the engine on the resource that was never initialised,
    and its outcome is that of the execution. *)
Theorem sw_init_failure_is_not_retried (src n dst dst_size src2 n2 dst2 dst_size2 : Z)
    (s : State) :
  sw_init_fails s = true ->
  let failure := {| exn_code := CANNOT_COMPRESS; exn_site := SwInitFailed;
                    exn_status := sw_init_status (st_env s) |} in
  let s1 := log (EvSwInit (sw_init_status (st_env s))) (with_sw_job (Some blank_job) s) in
  let j2 := configure_decompress src2 n2 dst2 dst_size2 blank_job in
  let r := sw_decompress_reply src2 n2 dst2 dst_size2 s1 in
  sw_doCompressData src n dst dst_size s = (Throw failure, s1) /\
  sw_doDecompressData src n dst dst_size s = (Throw failure, s1) /\
  st_mem s1 = st_mem s /\
  sw_doDecompressData src2 n2 dst2 dst_size2 s1 =
    (if status_is_ok (fst r) then Ret tt
     else Throw {| exn_code := CANNOT_DECOMPRESS; exn_site := SwExecutionFailed;
                   exn_status := fst r |},
     sw_ran j2 (fst r) (snd r) s1) /\
  st_trace (sw_ran j2 (fst r) (snd r) s1) =
    EvSwExecute j2 (fst r) :: EvSwInit (sw_init_status (st_env s)) :: st_trace s.
Proof.
  intros Hfails. cbv zeta.
  rewrite sw_doCompressData_run, sw_doDecompressData_run, Hfails.
  split; [reflexivity|]. split; [reflexivity|]. split; [reflexivity|].
  rewrite sw_doDecompressData_run. split; reflexivity.
Qed.

(** An environment whose software path cannot be initialised. *)
Lemma sw_init_failure_is_not_retried_witness :
  let e := {| rng_raw := rng_raw example_failing_env;
              hw_submit_status := hw_submit_status example_failing_env;
              hw_reply := hw_reply example_failing_env;
              sw_init_status := QPL_STS_ERROR 2;
              sw_engine := sw_engine example_failing_env;
              page_size := page_size example_failing_env |} in
  let s := example_state e false [] SoftwareFallback in
  fst (sw_doDecompressData 10 4 100 4 s) =
    Throw {| exn_code := CANNOT_COMPRESS; exn_site := SwInitFailed;
             exn_status := QPL_STS_ERROR 2 |} /\
  fst (sw_doDecompressData 10 4 100 4 (snd (sw_doDecompressData 10 4 100 4 s))) = Ret tt.
Proof.
  cbv zeta.
  match goal with
  | |- fst (sw_doDecompressData _ _ _ _ ?s) = _ /\ _ =>
      destruct (sw_init_failure_is_not_retried 10 4 100 4 10 4 100 4 s eq_refl)
        as (_ & Hfirst & _ & Hsecond & _)
  end.
  rewrite Hfirst. split; [reflexivity|]. cbn [snd]. rewrite Hsecond. reflexivity.
Defined.

(** ** The software-only mode *)

(** In the mode SoftwareFallback a decompress call is the touch of the
    destination followed by the software decompress, also on a ready pool
    with free slots: the pool, the pending map and the clock are as before,
    and the log gains software events only. *)
Theorem software_fallback_mode (fuel : nat) (src n dst dst_size : Z) (s : State) :
  decompress_mode s = SoftwareFallback ->
  let run := doDecompressData fuel src n dst dst_size s in
  run = sw_doDecompressData src n dst dst_size (touched dst dst_size s) /\
  fst run <> NoResult /\
  st_pool (snd run) = st_pool s /\
  decomp_async_job_map (snd run) = decomp_async_job_map s /\
  decompress_mode (snd run) = SoftwareFallback /\
  st_clock (snd run) = st_clock s /\
  exists evs, st_trace (snd run) = evs ++ st_trace s /\
              Forall (fun e => is_sw_event e = true) evs.
Proof.
  intros Hmode run. subst run. rewrite doDecompressData_unfold, Hmode. cbv zeta.
  split; [reflexivity|].
  destruct (sw_doDecompressData_frame src n dst dst_size (touched dst dst_size s))
    as (Hpool & Hmap & Hm & _ & Hres). cbv zeta in Hpool, Hmap, Hm.
  split; [exact Hres|]. split; [exact Hpool|]. split; [exact Hmap|].
  split; [now rewrite Hm|].
  rewrite sw_doDecompressData_run. cbv zeta.
  destruct (sw_init_fails (touched dst dst_size s)) eqn:Hinit.
  - split; [reflexivity|]. eexists [_]. split; [reflexivity|]. now constructor.
  - split; [reflexivity|]. cbn [snd sw_ran st_trace].
    exists (EvSwExecute
              (configure_decompress src n dst dst_size (the_sw_job (touched dst dst_size s)))
              (fst (sw_decompress_reply src n dst dst_size (touched dst dst_size s)))
              :: sw_init_events (touched dst dst_size s)).
    split; [reflexivity|]. constructor; [reflexivity|].
    unfold sw_init_events. destruct (sw_job _); constructor; [reflexivity|constructor].
Qed.

Lemma software_fallback_mode_witness :
  let s := example_state (example_env 0 QPL_STS_OK [1; 2; 3; 4]) true [false; false]
                         SoftwareFallback in
  let run := doDecompressData 5 10 4 100 4 s in
  fst run = Ret tt /\
  st_pool (snd run) = st_pool s /\
  load (st_mem (snd run)) 100 4 = [10; 11; 12; 13].
Proof.
  cbv zeta.
  match goal with
  | |- fst (doDecompressData _ _ _ _ _ ?s) = _ /\ _ =>
      destruct (software_fallback_mode 5 10 4 100 4 s eq_refl) as (_ & _ & Hpool & _)
  end.
  split; [vm_compute; reflexivity|]. split; [exact Hpool|vm_compute; reflexivity].
Defined.

(** ** Which slot [acquireJob] returns *)

Lemma draw_after_failed index s k : draw (after_failed_lock index s) k = draw s (S k).
Proof.
  unfold draw, after_failed_lock, capacity. cbn. f_equal. f_equal. lia.
Qed.

Lemma nth_try_after_failed index s k :
  nth_try (next_index s) (after_failed_lock index s) k = nth_try index s (S k).
Proof.
  destruct k as [|k]; cbn [nth_try].
  - unfold draw, next_index. reflexivity.
  - apply draw_after_failed.
Qed.

Lemma failed_tries_ext f g k :
  (forall j, (j < k)%nat -> f j = g j) -> failed_tries f k = failed_tries g k.
Proof.
  induction k as [|k IH]; intros H; cbn [failed_tries]; [reflexivity|].
  rewrite H by lia. rewrite IH by (intros j Hj; apply H; lia). reflexivity.
Qed.

Lemma failed_tries_shift f k :
  failed_tries f (S k) = failed_tries (fun j => f (S j)) k ++ [EvTryLock (f O) false].
Proof.
  induction k as [|k IH]; [reflexivity|].
  change (failed_tries f (S (S k))) with (EvTryLock (f (S k)) false :: failed_tries f (S k)).
  rewrite IH. reflexivity.
Qed.

(** The retry loop locks the first free slot among the indices it
    tests. *)
Lemma acquire_loop_first_free k : forall fuel index retry s,
  pool_wf (st_pool s) ->
  (k < fuel)%nat ->
  0 <= retry -> retry + Z.of_nat k <= capacity s ->
  (forall j, (j < k)%nat -> locks_of s !! Z.to_nat (nth_try index s j) <> Some false) ->
  locks_of s !! Z.to_nat (nth_try index s k) = Some false ->
  acquire_loop fuel index retry s =
    (Ret (Some (nth_try index s k)),
     pool_step (<[Z.to_nat (nth_try index s k) := true]> (locks_of s)) k
               (EvTryLock (nth_try index s k) true :: failed_tries (nth_try index s) k) s).
Proof.
  induction k as [|k IH]; intros fuel index retry s Hwf Hfuel Hretry Hbound Hheld Hfree;
    (destruct fuel as [|fuel]; [lia|]).
  - now apply acquire_loop_free.
  - rewrite acquire_loop_held by (apply (Hheld O); lia).
    pose proof Hwf as (Hcap & _). fold (capacity s) in Hcap.
    rewrite (to_UInt32_small (retry + 1)) by lia.
    destruct (Z.gtb_spec (retry + 1) (capacity s)) as [Hgt|_]; [lia|].
    rewrite (IH fuel (next_index s) (retry + 1) (after_failed_lock index s)).
    + rewrite !nth_try_after_failed. rewrite pool_step_after_failed.
      f_equal. f_equal. cbn [app].
      rewrite (failed_tries_shift (nth_try index s) k). cbn [nth_try].
      f_equal. f_equal. apply failed_tries_ext. intros j _. apply nth_try_after_failed.
    + exact Hwf.
    + lia.
    + lia.
    + change (capacity (after_failed_lock index s)) with (capacity s). lia.
    + intros j Hj. rewrite nth_try_after_failed. apply (Hheld (S j)). lia.
    + rewrite nth_try_after_failed. exact Hfree.
Qed.

(** The retry loop gives up after [max_hw_jobs + 1 - retry] failed
    attempts. *)
Lemma acquire_loop_none_free n : forall fuel index retry s,
  pool_wf (st_pool s) ->
  (n < fuel)%nat ->
  0 <= retry -> retry + Z.of_nat n = capacity s ->
  (forall j, (j <= n)%nat -> locks_of s !! Z.to_nat (nth_try index s j) <> Some false) ->
  acquire_loop fuel index retry s =
    (Ret None, pool_step (locks_of s) (S n) (failed_tries (nth_try index s) (S n)) s).
Proof.
  induction n as [|n IH]; intros fuel index retry s Hwf Hfuel Hretry Hbound Hheld;
    (destruct fuel as [|fuel]; [lia|]);
    rewrite acquire_loop_held by (apply (Hheld O); lia);
    pose proof Hwf as (Hcap & _); fold (capacity s) in Hcap;
    rewrite (to_UInt32_small (retry + 1)) by lia.
  - destruct (Z.gtb_spec (retry + 1) (capacity s)) as [_|Hle]; [|lia].
    now rewrite after_failed_lock_step.
  - destruct (Z.gtb_spec (retry + 1) (capacity s)) as [Hgt|_]; [lia|].
    rewrite (IH fuel (next_index s) (retry + 1) (after_failed_lock index s)).
    + rewrite pool_step_after_failed. f_equal. f_equal.
      rewrite (failed_tries_shift (nth_try index s) (S n)). cbn [nth_try].
      f_equal. apply failed_tries_ext. intros j _. apply nth_try_after_failed.
    + exact Hwf.
    + lia.
    + lia.
    + change (capacity (after_failed_lock index s)) with (capacity s). lia.
    + intros j Hj. rewrite nth_try_after_failed. apply (Hheld (S j)). lia.
Qed.

Lemma nth_try_entry s j :
  nth_try (next_index s) (pool_step (locks_of s) 1 [] s) j = draw s j.
Proof.
  destruct j as [|j]; cbn [nth_try].
  - reflexivity.
  - unfold draw, capacity. cbn. f_equal. f_equal. lia.
Qed.

Lemma acquireJob_ready_run fuel s :
  job_pool_ready (st_pool s) = true ->
  acquireJob fuel s =
    match acquire_loop fuel (next_index s) 0 (pool_step (locks_of s) 1 [] s) with
    | (Ret (Some i), s2) => (Ret (Some (i, to_UInt32 (capacity s2 - i))), s2)
    | (Ret None, s2) => (Ret None, s2)
    | (Throw e, s2) => (Throw e, s2)
    | (NoResult, s2) => (NoResult, s2)
    end.
Proof.
  intros Hready. unfold acquireJob. unfold bind at 1. unfold isJobPoolReady, gets.
  rewrite Hready. unfold bind at 1. rewrite distribution_step. unfold bind.
  destruct (acquire_loop _ _ _ _) as [[[i|]| |] s2]; reflexivity.
Qed.

Lemma draw_range s k : pool_wf (st_pool s) -> 0 <= draw s k < capacity s.
Proof. intros (Hcap & _). apply mod_capacity_range. apply Hcap. Qed.

(** [acquireJob] probes the slots that the random engine draws, in the
    order of the draws, at most [max_hw_jobs + 1] of them: it locks and
    returns the first drawn slot that is free, consuming one draw per probe;
    when none of the first [max_hw_jobs + 1] draws is free it returns
    [nullptr], whatever the state of the slots that were not drawn. *)
Theorem acquireJob_first_free_draw (fuel : nat) (s : State) :
  job_pool_ready (st_pool s) = true ->
  pool_wf (st_pool s) ->
  (Z.to_nat (capacity s) < fuel)%nat ->
  (forall k,
      Z.of_nat k <= capacity s ->
      (forall j, (j < k)%nat -> locks_of s !! Z.to_nat (draw s j) <> Some false) ->
      locks_of s !! Z.to_nat (draw s k) = Some false ->
      acquireJob fuel s =
        (Ret (Some (draw s k, capacity s - draw s k)),
         pool_step (<[Z.to_nat (draw s k) := true]> (locks_of s)) (S k)
                   (EvTryLock (draw s k) true :: failed_tries (draw s) k) s)) /\
  ((forall j, Z.of_nat j <= capacity s ->
              locks_of s !! Z.to_nat (draw s j) <> Some false) ->
   acquireJob fuel s =
     (Ret None,
      pool_step (locks_of s) (Z.to_nat (capacity s) + 2)
                (failed_tries (draw s) (Z.to_nat (capacity s) + 1)) s)).
Proof.
  intros Hready Hwf Hfuel. pose proof Hwf as (Hcap & _). fold (capacity s) in Hcap.
  set (s1 := pool_step (locks_of s) 1 [] s).
  assert (Hwf1 : pool_wf (st_pool s1)) by exact Hwf.
  split.
  - intros k Hk Hheld Hfree. rewrite (acquireJob_ready_run _ _ Hready). fold s1.
    rewrite (acquire_loop_first_free k fuel (next_index s) 0 s1 Hwf1);
      [|lia|lia|change (capacity s1) with (capacity s); lia| |].
    + unfold s1. rewrite !nth_try_entry.
      change (capacity (pool_step _ _ _ _)) with (capacity s).
      pose proof (draw_range s k Hwf).
      rewrite (to_UInt32_small (capacity s - draw s k)) by lia.
      rewrite pool_step_compose, app_nil_r, Nat.add_1_r.
      f_equal. f_equal. f_equal. apply failed_tries_ext. intros j _. apply nth_try_entry.
    + intros j Hj. unfold s1. rewrite nth_try_entry. now apply Hheld.
    + unfold s1. rewrite nth_try_entry. exact Hfree.
  - intros Hheld. rewrite (acquireJob_ready_run _ _ Hready). fold s1.
    rewrite (acquire_loop_none_free (Z.to_nat (capacity s)) fuel (next_index s) 0 s1 Hwf1);
      [|lia|lia|change (capacity s1) with (capacity s); lia|].
    + unfold s1. rewrite pool_step_compose, app_nil_r.
      change (locks_of (pool_step _ _ _ _)) with (locks_of s).
      f_equal. f_equal; [lia|].
      rewrite Nat.add_1_r. apply failed_tries_ext. intros j _. apply nth_try_entry.
    + intros j Hj. unfold s1. rewrite nth_try_entry. apply Hheld. lia.
Qed.

(** Slot 1 is free, but every draw gives the held slot 0. *)
Lemma acquireJob_first_free_draw_witness :
  let s := example_state example_stuck_env true [true; false] Synchronous in
  locks_of s !! 1%nat = Some false /\
  acquireJob 3 s =
    (Ret None,
     pool_step [true; false] 4
               [EvTryLock 0 false; EvTryLock 0 false; EvTryLock 0 false] s).
Proof.
  cbv zeta. split; [reflexivity|].
  destruct (acquireJob_first_free_draw 3
              (example_state example_stuck_env true [true; false] Synchronous)
              eq_refl ltac:(apply example_pool_wf; cbn; lia) ltac:(cbn; lia))
    as (_ & Hnone).
  rewrite Hnone; [reflexivity|].
  intros j _. cbn. discriminate.
Defined.

(** ** An accepted asynchronous submission returns without waiting *)

Lemma hw_decompress_async_with_frame src n dst dst_size ptr id s :
  let s' := snd (hw_decompress_async_with src n dst dst_size ptr id s) in
  st_clock s' = S (st_clock s) /\ sw_job s' = sw_job s.
Proof.
  hw_exec. destruct (status_is_ok _); [split; reflexivity|].
  change (job_pool_ready (st_pool (log _ (tick (with_pool (with_jobs _ (st_pool s)) s)))))
    with (job_pool_ready (st_pool s)).
  destruct (job_pool_ready (st_pool s)); split; reflexivity.
Qed.

(** In Asynchronous mode, when the hardware engine accepts the submission
    (it returns a handle, not the error value), the call returns without
    waiting for the job: after the attempts to lock a slot, the submission
    is its only call into the device and the last event of the call; it
    makes no check and no pause, and the software engine is not used. *)
Theorem async_returns_without_waiting (fuel : nat) (src n dst dst_size : Z) (s : State) :
  decompress_mode s = Asynchronous ->
  job_pool_ready (st_pool s) = true ->
  pool_wf (st_pool s) ->
  let s0 := touched dst dst_size s in
  forall res s1,
    hw_doDecompressDataAsynchronous fuel src n dst dst_size s0 = (Ret res, s1) ->
    res <> RET_ERROR ->
    doDecompressData fuel src n dst dst_size s = (Ret tt, s1) /\
    st_clock s1 = S (st_clock s) /\
    sw_job s1 = sw_job s /\
    exists i j evs,
      st_trace s1 = EvHwSubmit i j QPL_STS_OK :: evs ++ st_trace s /\
      Forall (fun e => exists index locked, e = EvTryLock index locked) evs.
Proof.
  intros Hmode Hready Hwf s0 res s1 Hrun Hres.
  assert (Hready0 : job_pool_ready (st_pool s0) = true) by exact Hready.
  assert (Hwf0 : pool_wf (st_pool s0)) by exact Hwf.
  split.
  { rewrite doDecompressData_unfold, Hmode, Hready. cbv zeta. fold s0. rewrite Hrun.
    destruct (Z.eqb_spec res RET_ERROR); [contradiction|reflexivity]. }
  revert Hrun. rewrite hw_doDecompressDataAsynchronous_unfold.
  destruct (hw_entry_cases fuel (hw_decompress_async_with src n dst dst_size) s0 Hready0 Hwf0)
    as [(evs & d & _ & Hcall)|[(evs & d & i & Hev & Hi & Hfree & Hcall)|(_ & Hno)]];
    cbv zeta in *.
  - rewrite Hcall. intros Heq. assert (res = RET_ERROR) by congruence. contradiction.
  - rewrite Hcall. clear Hcall.
    set (s2 := pool_step (<[Z.to_nat i := true]> (locks_of s0)) d (EvTryLock i true :: evs) s0).
    pose proof Hwf0 as (_ & _ & Hjobs).
    destruct (hw_decompress_async_with_spec src n dst dst_size i (capacity s0 - i) s2)
      as (s3 & Hwith & _ & _ & Hcases); [exact Hready0| |].
    { change (hw_jobs_buffer (st_pool s2)) with (hw_jobs_buffer (st_pool s0)).
      rewrite Hjobs. change (max_hw_jobs (st_pool s0)) with (capacity s0). lia. }
    cbv zeta in Hwith, Hcases. rewrite Hwith. intros [= Hr <-].
    change (st_env s2) with (st_env s) in *. change (st_clock s2) with (st_clock s) in *.
    destruct (hw_submit_status (st_env s) (st_clock s) i) eqn:Hst; cbn [status_is_ok] in *;
      try congruence.
    destruct Hcases as (_ & _ & Htrace).
    destruct (hw_decompress_async_with_frame src n dst dst_size i (capacity s0 - i) s2)
      as [Hclock Hsw]. rewrite Hwith in Hclock, Hsw. cbn [snd] in Hclock, Hsw.
    split; [exact Hclock|]. split; [exact Hsw|].
    eexists i, _, (EvTryLock i true :: evs). split; [rewrite Htrace; reflexivity|].
    constructor; [eauto|]. eapply Forall_impl; [exact Hev|].
    intros [index [|]| | | | | | | |] H; try discriminate. eauto.
  - intros Hrun. rewrite Hrun in Hno. discriminate.
Qed.

Lemma async_returns_without_waiting_witness :
  let s := example_state (example_env 2 QPL_STS_OK [7; 8; 9; 6]) true [false; false]
                         Asynchronous in
  let r := doDecompressData 5 10 4 100 4 s in
  fst r = Ret tt /\
  st_clock (snd r) = 1%nat /\
  sw_job (snd r) = None /\
  st_trace (snd r) =
    [EvHwSubmit 0 (configure_decompress 10 4 100 4 blank_job) QPL_STS_OK; EvTryLock 0 true] /\
  decomp_async_job_map (snd r) = [(2, 0)].
Proof.
  cbv zeta.
  destruct (hw_doDecompressDataAsynchronous 5 10 4 100 4
              (touched 100 4 (example_state (example_env 2 QPL_STS_OK [7; 8; 9; 6]) true
                                            [false; false] Asynchronous)))
    as [res s1] eqn:Hrun.
  assert (Hres : res = Ret 2).
  { change res with (fst (res, s1)). rewrite <- Hrun. vm_compute. reflexivity. }
  subst res.
  destruct (async_returns_without_waiting 5 10 4 100 4
              (example_state (example_env 2 QPL_STS_OK [7; 8; 9; 6]) true [false; false]
                             Asynchronous)
              eq_refl eq_refl ltac:(apply example_pool_wf; cbn; lia)
              2 s1 Hrun ltac:(discriminate))
    as (Hcall & Hclock & Hsw & _).
  rewrite Hcall. cbn [fst snd]. split; [reflexivity|].
  split; [exact Hclock|]. split; [exact Hsw|].
  assert (Hs1 : s1 = snd (hw_doDecompressDataAsynchronous 5 10 4 100 4
              (touched 100 4 (example_state (example_env 2 QPL_STS_OK [7; 8; 9; 6]) true
                                            [false; false] Asynchronous))))
    by (now rewrite Hrun).
  rewrite Hs1. split; vm_compute; reflexivity.
Defined.

Lemma touch_zero_fills_witness :
  let s := example_state (example_env 0 QPL_STS_OK []) false [] Synchronous in
  let m := st_mem (snd (touchBufferWithZeroFilling 100 5000 s)) in
  st_mem s 100 = 100 /\ st_mem s 4196 = 100 /\
  m 100 = 0 /\ m 4196 = 0 /\ m 101 = 101 /\ m 8292 = 100.
Proof.
  cbv zeta.
  destruct (touch_zero_fills 100 5000
              (example_state (example_env 0 QPL_STS_OK []) false [] Synchronous)
              ltac:(lia)) as (_ & Hmem & _).
  rewrite !Hmem. repeat split.
Defined.

(** ** Flushing twice *)

(** A flush that returned has nothing left to do: a second flush, with any
    fuel, returns at once and changes nothing; the mode is Synchronous
    and, on a ready pool, the pending map is empty. *)
Theorem flush_twice (fuel fuel' : nat) (s s1 : State) :
  (job_pool_ready (st_pool s) = true -> map_wf s) ->
  flushAsynchronousDecompressRequests fuel s = (Ret tt, s1) ->
  flushAsynchronousDecompressRequests fuel' s1 = (Ret tt, s1) /\
  decompress_mode s1 = Synchronous /\
  (job_pool_ready (st_pool s) = true -> decomp_async_job_map s1 = []).
Proof.
  intros Hwf. destruct (job_pool_ready (st_pool s)) eqn:Hready.
  - rewrite (flush_ready _ _ Hready).
    destruct (hw_flush_spec fuel s Hready (Hwf eq_refl)) as (resolved & Hdr & Hret & _).
    cbv zeta in Hdr, Hret.
    destruct (hw_flushAsynchronousDecompressRequests fuel s) as [[[]| |] s0] eqn:Hflush;
      try discriminate.
    cbn [fst snd] in Hdr, Hret. destruct (Hret eq_refl) as [Hempty _].
    intros [= <-].
    assert (Hready0 : job_pool_ready (st_pool (with_mode Synchronous s0)) = true).
    { cbn. rewrite (df_ready _ _ (dr_frame _ _ _ Hdr)). exact Hready. }
    split; [|split; [reflexivity|intros _; exact Hempty]].
    rewrite (flush_ready _ _ Hready0), hw_flush_nothing_pending by exact Hempty.
    reflexivity.
  - rewrite (flush_unready _ _ Hready). intros [= <-].
    split; [|split; [reflexivity|discriminate]].
    now rewrite flush_unready by exact Hready.
Qed.

Lemma flush_twice_witness :
  let s0 := example_state (example_env 2 QPL_STS_OK [7; 8; 9; 6]) true [false; false]
                          Asynchronous in
  let s := snd (doDecompressData 5 10 4 100 4 s0) in
  let s1 := snd (flushAsynchronousDecompressRequests 5 s) in
  decomp_async_job_map s = [(2, 0)] /\
  flushAsynchronousDecompressRequests 5 s = (Ret tt, s1) /\
  flushAsynchronousDecompressRequests 0 s1 = (Ret tt, s1) /\
  load (st_mem s1) 100 4 = [7; 8; 9; 6].
Proof.
  intros s0 s s1.
  assert (Hmap : decomp_async_job_map s = [(2, 0)]) by (vm_compute; reflexivity).
  assert (Hcap : capacity s = 2) by (vm_compute; reflexivity).
  assert (Hwf : map_wf s).
  { unfold map_wf, entry_wf. rewrite Hmap, Hcap. split.
    - repeat constructor; cbn; lia.
    - cbn. apply NoDup_ListNoDup. repeat constructor; cbn; intuition lia. }
  assert (Hrun : flushAsynchronousDecompressRequests 5 s = (Ret tt, s1)).
  { subst s1. destruct (flushAsynchronousDecompressRequests 5 s) as [r s2] eqn:E.
    assert (Hr : r = Ret tt) by (change r with (fst (r, s2)); rewrite <- E; vm_compute; reflexivity).
    now subst r. }
  split; [exact Hmap|]. split; [exact Hrun|].
  split; [exact (proj1 (flush_twice 5 0 s s1 (fun _ => Hwf) Hrun))|].
  vm_compute. reflexivity.
Defined.

(** ** The hardware paths when the device succeeds *)

Lemma to_Int32_error x : 0 <= x < 2 ^ 32 -> to_Int32 x = RET_ERROR -> x = 2 ^ 32 - 1.
Proof.
  unfold to_Int32, RET_ERROR. change (2 ^ 32) with 4294967296. change (2 ^ 31) with 2147483648.
  intros Hx H. Z.to_euclidean_division_equations. lia.
Qed.

Lemma to_UInt32_range z : 0 <= to_UInt32 z < 2 ^ 32.
Proof. unfold to_UInt32. apply Z.mod_pos_bound. lia. Qed.

(** The state in which a hardware entry point runs after [acquireJob] has
    locked the first slot it drew. *)
Lemma hw_entry_first_free fuel (body : Z -> Z -> M Z) s :
  job_pool_ready (st_pool s) = true ->
  pool_wf (st_pool s) ->
  locks_of s !! Z.to_nat (draw s 0) = Some false ->
  (r <- acquireJob (S fuel);
   match r with
   | None => ret RET_ERROR
   | Some (job_ptr, job_id) => body job_ptr job_id
   end) s =
  body (draw s 0) (capacity s - draw s 0)
       (pool_step (<[Z.to_nat (draw s 0) := true]> (locks_of s)) 1
                  [EvTryLock (draw s 0) true] s).
Proof.
  intros Hready Hwf Hfree. unfold bind.
  change (draw s 0) with (next_index s) in *.
  rewrite (acquireJob_first_free fuel s Hready Hfree).
  pose proof (next_index_range s Hwf). pose proof Hwf as (Hcap & _). fold (capacity s) in Hcap.
  rewrite (to_UInt32_small (capacity s - next_index s)) by lia. reflexivity.
Qed.

(** Compression on cooperative hardware: when the first slot drawn is
    free and the device executes the job successfully, the codec returns
    the number of bytes the device produced, these bytes are at the
    destination and nothing else in memory changed, the slot is free again,
    and the software engine was not used.  (A byte count of 2^32 - 1 would
    read as the error value.) *)
Theorem hardware_compress_success (fuel : nat) (src n dst : Z) (s : State) :
  job_pool_ready (st_pool s) = true ->
  pool_wf (st_pool s) ->
  (0 < fuel)%nat ->
  let i := draw s 0 in
  let j := configure_compress src n dst (getMaxCompressedDataSize n) (hw_job i s) in
  let r := hw_reply (st_env s) (st_clock s) i j in
  let size := to_UInt32 (Z.of_nat (length (snd r))) in
  locks_of s !! Z.to_nat i = Some false ->
  fst r = QPL_STS_OK ->
  size <> 2 ^ 32 - 1 ->
  exists s',
    doCompressData fuel src n dst s = (Ret size, s') /\
    st_mem s' = store (st_mem s) dst (snd r) /\
    locks_of s' = locks_of s /\
    decomp_async_job_map s' = decomp_async_job_map s /\
    sw_job s' = sw_job s /\
    st_trace s' = EvUnLock i :: EvHwExecute i j QPL_STS_OK :: EvTryLock i true :: st_trace s.
Proof.
  intros Hready Hwf Hfuel i j r size Hfree Hok Hsize.
  destruct fuel as [|fuel]; [lia|].
  pose proof (draw_range s 0 Hwf) as Hi. fold i in Hi.
  pose proof Hwf as (Hcap & _ & Hjobs). fold (capacity s) in Hcap.
  set (s2 := pool_step (<[Z.to_nat i := true]> (locks_of s)) 1 [EvTryLock i true] s).
  destruct (hw_compress_with_spec src n dst (getMaxCompressedDataSize n) i (capacity s - i) s2)
    as (s' & Hwith & Htouched & Hmap & Hlocks & Htrace & Hmem); [exact Hready| |].
  { change (hw_jobs_buffer (st_pool s2)) with (hw_jobs_buffer (st_pool s)).
    rewrite Hjobs. fold (capacity s). lia. }
  cbv zeta in Hwith, Hlocks, Htrace, Hmem.
  change (hw_job i s2) with (hw_job i s) in *. change (st_env s2) with (st_env s) in *.
  change (st_clock s2) with (st_clock s) in *. change (capacity s2) with (capacity s) in *.
  fold j in Hwith, Htrace, Hmem. fold r in Hwith, Htrace, Hmem. fold size in Hwith.
  rewrite Hok in Hwith, Htrace, Hmem. cbn [status_is_ok] in Hwith, Hmem.
  rewrite (slot_of_handle i s Hwf Hi) in Hlocks, Htrace.
  exists s'. split; [|split; [|split; [|split; [|split]]]].
  - rewrite doCompressData_unfold, Hready, hw_doCompressData_unfold.
    rewrite (hw_entry_first_free fuel _ s Hready Hwf Hfree). fold i s2. rewrite Hwith.
    pose proof (to_UInt32_range (Z.of_nat (length (snd r)))) as Hrange. fold size in Hrange.
    destruct (Z.eqb_spec (to_Int32 size) RET_ERROR) as [Herr|_].
    + apply to_Int32_error in Herr; [contradiction|exact Hrange].
    + now rewrite to_UInt32_to_Int32.
  - now apply Hmem.
  - rewrite Hlocks. apply insert_undo. exact Hfree.
  - exact Hmap.
  - exact (ht_sw_job _ _ _ _ Htouched).
  - exact Htrace.
Qed.

Lemma hardware_compress_success_witness :
  let s := example_state (example_env 0 QPL_STS_OK [1; 2; 3]) true [false; false] Synchronous in
  let r := doCompressData 1 10 4 100 s in
  fst r = Ret 3 /\
  load (st_mem (snd r)) 100 3 = [1; 2; 3] /\
  locks_of (snd r) = [false; false] /\
  sw_job (snd r) = None.
Proof.
  cbv zeta.
  destruct (hardware_compress_success 1 10 4 100
              (example_state (example_env 0 QPL_STS_OK [1; 2; 3]) true [false; false] Synchronous)
              eq_refl ltac:(apply example_pool_wf; cbn; lia) ltac:(lia)
              eq_refl eq_refl ltac:(vm_compute; discriminate))
    as (s' & Hrun & Hmem & Hlocks & _ & Hsw & _).
  rewrite Hrun. cbn [fst snd]. split; [reflexivity|].
  rewrite Hmem, Hlocks, Hsw. split; [vm_compute; reflexivity|]. split; reflexivity.
Defined.

Lemma status_in_progress_true st :
  status_in_progress st = true -> st = QPL_STS_BEING_PROCESSED.
Proof. destruct st; [discriminate|reflexivity|discriminate]. Qed.

(** What rounds of waiting change: the clock and the log. *)
Lemma busy_polls_frame ptr k : forall s,
  let s' := busy_polls ptr k s in
  st_mem s' = st_mem s /\ st_pool s' = st_pool s /\ sw_job s' = sw_job s /\
  decomp_async_job_map s' = decomp_async_job_map s /\
  decompress_mode s' = decompress_mode s /\ st_env s' = st_env s /\
  st_clock s' = (st_clock s + k)%nat /\
  st_trace s' = busy_poll_events ptr k ++ st_trace s.
Proof.
  induction k as [|k IH]; intros s; cbn [busy_polls busy_poll_events].
  - cbn. rewrite Nat.add_0_r. repeat split.
  - destruct (IH (log (EvHwCheck ptr QPL_STS_BEING_PROCESSED) (tick (log EvPause s))))
      as (H1 & H2 & H3 & H4 & H5 & H6 & H7 & H8).
    cbv zeta. rewrite H1, H2, H3, H4, H5, H6, H7, H8. cbn. rewrite <- app_assoc.
    repeat split. lia.
Qed.

Lemma busy_drains_frame ptr k : forall s,
  let s' := busy_drains ptr k s in
  st_mem s' = st_mem s /\ st_pool s' = st_pool s /\ sw_job s' = sw_job s /\
  decomp_async_job_map s' = decomp_async_job_map s /\
  decompress_mode s' = decompress_mode s /\ st_env s' = st_env s /\
  st_clock s' = (st_clock s + k)%nat /\
  st_trace s' = busy_drain_events ptr k ++ st_trace s.
Proof.
  induction k as [|k IH]; intros s; cbn [busy_drains busy_drain_events].
  - cbn. rewrite Nat.add_0_r. repeat split.
  - destruct (IH (log EvPause (log (EvHwCheck ptr QPL_STS_BEING_PROCESSED) (tick s))))
      as (H1 & H2 & H3 & H4 & H5 & H6 & H7 & H8).
    cbv zeta. rewrite H1, H2, H3, H4, H5, H6, H7, H8. cbn. rewrite <- app_assoc.
    repeat split. lia.
Qed.

(** The synchronous wait: [k] rounds find the job in progress, the next
    one finds it finished. *)
Lemma poll_loop_done ptr k : forall fuel s,
  (k < fuel)%nat ->
  (forall m, (m < k)%nat ->
     status_in_progress (fst (hw_reply (st_env s) (st_clock s + m) ptr (hw_job ptr s))) = true) ->
  let r := hw_reply (st_env s) (st_clock s + k) ptr (hw_job ptr s) in
  status_in_progress (fst r) = false ->
  poll_loop fuel ptr s =
    (Ret (fst r),
     log (EvHwCheck ptr (fst r))
         (device_done ptr (snd r) (tick (log EvPause (busy_polls ptr k s))))).
Proof.
  induction k as [|k IH]; intros fuel s Hfuel Hbusy r Hdone;
    (destruct fuel as [|fuel]; [lia|]); subst r;
    cbn [poll_loop]; unfold bind at 1; unfold tpause, modify; unfold bind at 1;
    rewrite hw_check_job_run; cbv zeta;
    change (st_env (log EvPause s)) with (st_env s);
    change (st_clock (log EvPause s)) with (st_clock s);
    change (hw_job ptr (log EvPause s)) with (hw_job ptr s).
  - rewrite Nat.add_0_r in Hdone |- *. rewrite Hdone. reflexivity.
  - pose proof (Hbusy O ltac:(lia)) as Hfirst. rewrite Nat.add_0_r in Hfirst.
    rewrite Hfirst. rewrite (status_in_progress_true _ Hfirst).
    set (s1 := log (EvHwCheck ptr QPL_STS_BEING_PROCESSED) (tick (log EvPause s))).
    assert (Hclock : forall m, (st_clock s1 + m = st_clock s + S m)%nat) by (intros m; cbn; lia).
    specialize (IH fuel s1 ltac:(lia)). cbv zeta in IH.
    change (st_env s1) with (st_env s) in IH. change (hw_job ptr s1) with (hw_job ptr s) in IH.
    rewrite IH.
    + rewrite Hclock. reflexivity.
    + intros m Hm. rewrite Hclock. apply Hbusy. lia.
    + rewrite Hclock. exact Hdone.
Qed.

Lemma hw_decompress_sync_with_unfold fuel src n dst dst_size ptr id s :
  hw_decompress_sync_with fuel src n dst dst_size ptr id s =
    let j := configure_decompress src n dst dst_size (hw_job ptr s) in
    let sA := with_pool (with_jobs (<[Z.to_nat ptr := j]> (hw_jobs_buffer (st_pool s)))
                                   (st_pool s)) s in
    let status := hw_submit_status (st_env s) (st_clock s) ptr in
    let sB := log (EvHwSubmit ptr (hw_job ptr sA) status) (tick sA) in
    if negb (status_is_ok status) then (releaseJob id;; ret RET_ERROR) sB
    else
      match poll_loop fuel ptr sB with
      | (Ret st, sC) =>
          if negb (status_is_ok st) then (releaseJob id;; ret RET_ERROR) sC
          else (releaseJob id;; ret (to_Int32 (total_out (hw_job ptr sC)))) sC
      | (Throw e, sC) => (Throw e, sC)
      | (NoResult, sC) => (NoResult, sC)
      end.
Proof.
  unfold hw_decompress_sync_with. unfold bind at 1. unfold update_hw_job at 1, modify at 1.
  unfold bind at 1. unfold hw_submit_job at 1. cbv zeta.
  destruct (negb (status_is_ok _)); [reflexivity|].
  unfold bind at 1. destruct (poll_loop _ _ _) as [[st| |] sC]; try reflexivity.
  destruct (negb (status_is_ok st)); reflexivity.
Qed.

(** Synchronous decompression on a locked slot when the device accepts
    the job, is found in progress [k] times and then reports success with
    the bytes [out]. *)
Lemma hw_decompress_sync_with_done fuel k src n dst dst_size ptr id s out :
  job_pool_ready (st_pool s) = true ->
  (Z.to_nat ptr < length (hw_jobs_buffer (st_pool s)))%nat ->
  let j := configure_decompress src n dst dst_size (hw_job ptr s) in
  let slot := to_UInt32 (capacity s - id) in
  hw_submit_status (st_env s) (st_clock s) ptr = QPL_STS_OK ->
  (forall m, (m < k)%nat ->
     status_in_progress (fst (hw_reply (st_env s) (S (st_clock s) + m) ptr j)) = true) ->
  hw_reply (st_env s) (S (st_clock s) + k) ptr j = (QPL_STS_OK, out) ->
  (k < fuel)%nat ->
  exists s',
    hw_decompress_sync_with fuel src n dst dst_size ptr id s =
      (Ret (to_Int32 (to_UInt32 (Z.of_nat (length out)))), s') /\
    st_mem s' = store (st_mem s) dst out /\
    locks_of s' = <[Z.to_nat slot := false]> (locks_of s) /\
    decomp_async_job_map s' = decomp_async_job_map s /\
    sw_job s' = sw_job s /\
    st_clock s' = (st_clock s + k + 2)%nat /\
    st_trace s' =
      EvUnLock slot :: EvHwCheck ptr QPL_STS_OK :: EvPause
        :: busy_poll_events ptr k ++ EvHwSubmit ptr j QPL_STS_OK :: st_trace s.
Proof.
  intros Hready Hrange j slot Hsubmit Hbusy Hdone Hfuel.
  rewrite hw_decompress_sync_with_unfold. cbv zeta. fold j. rewrite Hsubmit. cbn [negb status_is_ok].
  set (sA := with_pool (with_jobs (<[Z.to_nat ptr := j]> (hw_jobs_buffer (st_pool s)))
                                  (st_pool s)) s).
  assert (HjA : hw_job ptr sA = j) by (apply hw_job_insert; exact Hrange).
  rewrite HjA. set (sB := log (EvHwSubmit ptr j QPL_STS_OK) (tick sA)).
  assert (HjB : hw_job ptr sB = j) by exact HjA.
  pose proof (poll_loop_done ptr k fuel sB Hfuel) as Hpoll. cbv zeta in Hpoll.
  change (st_env sB) with (st_env s) in Hpoll.
  change (st_clock sB) with (S (st_clock s)) in Hpoll.
  rewrite HjB, Hdone in Hpoll. rewrite Hpoll by (auto || reflexivity). clear Hpoll.
  cbn [fst snd negb status_is_ok].
  destruct (busy_polls_frame ptr k sB) as (Hm & Hp & Hsw & Hmap & _ & _ & Hclock & Htrace).
  cbv zeta in Hm, Hp, Hsw, Hmap, Hclock, Htrace.
  set (sP := busy_polls ptr k sB) in *.
  set (sX := tick (log EvPause sP)).
  assert (HjX : hw_job ptr sX = j).
  { unfold hw_job. change (st_pool sX) with (st_pool sP). rewrite Hp. exact HjA. }
  set (sC := log (EvHwCheck ptr QPL_STS_OK) (device_done ptr out sX)).
  assert (Hready_C : job_pool_ready (st_pool sC) = true).
  { unfold sC, device_done. cbn. change (st_pool sX) with (st_pool sP). rewrite Hp. exact Hready. }
  assert (Hcap_C : capacity sC = capacity s).
  { unfold sC, device_done, capacity. cbn. change (st_pool sX) with (st_pool sP).
    now rewrite Hp. }
  assert (Htotal : total_out (hw_job ptr sC) = to_UInt32 (Z.of_nat (length out))).
  { unfold sC, device_done. unfold hw_job at 1. cbn [st_pool log with_pool with_jobs hw_jobs_buffer].
    change (hw_jobs_buffer (st_pool (with_mem _ sX))) with (hw_jobs_buffer (st_pool sX)).
    rewrite (hw_job_insert ptr _ sX); [reflexivity|].
    change (st_pool sX) with (st_pool sP). rewrite Hp. cbn. now rewrite length_insert. }
  unfold bind. rewrite (releaseJob_ready _ _ Hready_C), Hcap_C, Htotal. fold slot.
  eexists. split; [reflexivity|].
  split; [|split; [|split; [|split; [|split]]]].
  - cbn. rewrite HjX. change (st_mem sX) with (st_mem sP). now rewrite Hm.
  - cbn. change (st_pool sX) with (st_pool sP). now rewrite Hp.
  - cbn. change (decomp_async_job_map sX) with (decomp_async_job_map sP). now rewrite Hmap.
  - cbn. change (sw_job sX) with (sw_job sP). now rewrite Hsw.
  - cbn. change (st_clock sX) with (S (st_clock sP)). rewrite Hclock. cbn. lia.
  - cbn. change (st_trace sX) with (EvPause :: st_trace sP). rewrite Htrace. reflexivity.
Qed.

(** Synchronous decompression on cooperative hardware: when the first
    slot drawn is free, the device accepts the job, is found in progress
    [k] times and then reports success with the bytes [out], the call
    returns after [k + 1] pauses and checks; [out] is at the destination
    (over the zero-touched memory), the slot is free again, the pending map
    is as before and the software engine was not used. *)
Theorem synchronous_decompress_success (fuel k : nat) (src n dst dst_size : Z)
    (s : State) (out : list Z) :
  decompress_mode s = Synchronous ->
  job_pool_ready (st_pool s) = true ->
  pool_wf (st_pool s) ->
  let i := draw s 0 in
  let j := configure_decompress src n dst dst_size (hw_job i s) in
  locks_of s !! Z.to_nat i = Some false ->
  hw_submit_status (st_env s) (st_clock s) i = QPL_STS_OK ->
  (forall m, (m < k)%nat ->
     status_in_progress (fst (hw_reply (st_env s) (S (st_clock s) + m) i j)) = true) ->
  hw_reply (st_env s) (S (st_clock s) + k) i j = (QPL_STS_OK, out) ->
  (k < fuel)%nat ->
  to_UInt32 (Z.of_nat (length out)) <> 2 ^ 32 - 1 ->
  exists s',
    doDecompressData fuel src n dst dst_size s = (Ret tt, s') /\
    st_mem s' = store (st_mem (touched dst dst_size s)) dst out /\
    locks_of s' = locks_of s /\
    decomp_async_job_map s' = decomp_async_job_map s /\
    sw_job s' = sw_job s /\
    st_clock s' = (st_clock s + k + 2)%nat /\
    st_trace s' =
      EvUnLock i :: EvHwCheck i QPL_STS_OK :: EvPause
        :: busy_poll_events i k
        ++ EvHwSubmit i j QPL_STS_OK :: EvTryLock i true :: st_trace s.
Proof.
  intros Hmode Hready Hwf i j Hfree Hsubmit Hbusy Hdone Hfuel Hsize.
  destruct fuel as [|fuel]; [lia|].
  set (s0 := touched dst dst_size s).
  pose proof (draw_range s 0 Hwf) as Hi. fold i in Hi.
  pose proof Hwf as (Hcap & _ & Hjobs). fold (capacity s) in Hcap.
  set (s2 := pool_step (<[Z.to_nat i := true]> (locks_of s0)) 1 [EvTryLock i true] s0).
  destruct (hw_decompress_sync_with_done (S fuel) k src n dst dst_size i (capacity s - i) s2 out)
    as (s' & Hwith & Hmem & Hlocks & Hmap & Hsw & Hclock & Htrace);
    try assumption.
  { change (hw_jobs_buffer (st_pool s2)) with (hw_jobs_buffer (st_pool s)).
    rewrite Hjobs. fold (capacity s). lia. }
  cbv zeta in Hlocks, Htrace. change (capacity s2) with (capacity s) in *.
  rewrite (slot_of_handle i s Hwf Hi) in Hlocks, Htrace.
  exists s'. split; [|split; [|split; [|split; [|split; [|split]]]]].
  - rewrite doDecompressData_unfold, Hmode, Hready. cbv zeta. fold s0.
    rewrite hw_doDecompressDataSynchronous_unfold.
    rewrite (hw_entry_first_free fuel _ s0 Hready Hwf Hfree).
    change (draw s0 0) with i. change (capacity s0) with (capacity s). fold s2. rewrite Hwith.
    destruct (Z.eqb_spec (to_Int32 (to_UInt32 (Z.of_nat (length out)))) RET_ERROR) as [Herr|_];
      [|reflexivity].
    apply to_Int32_error in Herr; [contradiction|apply to_UInt32_range].
  - exact Hmem.
  - rewrite Hlocks. apply insert_undo. exact Hfree.
  - exact Hmap.
  - exact Hsw.
  - exact Hclock.
  - exact Htrace.
Qed.

Lemma synchronous_decompress_success_witness :
  let s := example_state (example_env 3 QPL_STS_OK [7; 8; 9; 6]) true [false; false]
                         Synchronous in
  let r := doDecompressData 5 10 4 100 4 s in
  fst r = Ret tt /\
  load (st_mem (snd r)) 100 4 = [7; 8; 9; 6] /\
  locks_of (snd r) = [false; false] /\
  st_clock (snd r) = 4%nat /\
  sw_job (snd r) = None.
Proof.
  cbv zeta.
  destruct (synchronous_decompress_success 5 2 10 4 100 4
              (example_state (example_env 3 QPL_STS_OK [7; 8; 9; 6]) true [false; false]
                             Synchronous) [7; 8; 9; 6]
              eq_refl eq_refl ltac:(apply example_pool_wf; cbn; lia) eq_refl eq_refl)
    as (s' & Hrun & Hmem & Hlocks & _ & Hsw & Hclock & _).
  - intros m Hm. assert (m = 0 \/ m = 1)%nat as [-> | ->] by lia; reflexivity.
  - reflexivity.
  - lia.
  - vm_compute. discriminate.
  - rewrite Hrun. cbn [fst snd]. rewrite Hmem, Hlocks, Hsw, Hclock.
    split; [reflexivity|]. split; [vm_compute; reflexivity|]. repeat split.
Defined.

(** ** An asynchronous request and the drain that resolves it *)

Lemma handle_not_error id : 1 <= id <= 2 ^ 31 -> to_Int32 id <> RET_ERROR.
Proof.
  unfold to_Int32, RET_ERROR. change (2 ^ 32) with 4294967296. change (2 ^ 31) with 2147483648.
  intros Hid H. Z.to_euclidean_division_equations. lia.
Qed.

Lemma hw_decompress_async_with_accepted src n dst dst_size ptr id s :
  (Z.to_nat ptr < length (hw_jobs_buffer (st_pool s)))%nat ->
  let j := configure_decompress src n dst dst_size (hw_job ptr s) in
  hw_submit_status (st_env s) (st_clock s) ptr = QPL_STS_OK ->
  hw_decompress_async_with src n dst dst_size ptr id s =
    (Ret (to_Int32 id),
     with_map (map_insert id ptr (decomp_async_job_map s))
       (log (EvHwSubmit ptr j QPL_STS_OK)
          (tick (with_pool (with_jobs (<[Z.to_nat ptr := j]> (hw_jobs_buffer (st_pool s)))
                                      (st_pool s)) s)))).
Proof.
  intros Hrange j Hsubmit.
  unfold hw_decompress_async_with. unfold bind at 1. unfold update_hw_job at 1, modify at 1.
  unfold bind at 1. unfold hw_submit_job at 1. cbv zeta.
  change (hw_submit_status (st_env _) (st_clock _) ptr)
    with (hw_submit_status (st_env s) (st_clock s) ptr).
  rewrite Hsubmit. cbn [status_is_ok]. unfold bind, modify, ret.
  fold j.
  assert (HjA : hw_job ptr (with_pool (with_jobs (<[Z.to_nat ptr := j]>
                                         (hw_jobs_buffer (st_pool s))) (st_pool s)) s) = j)
    by (apply hw_job_insert; exact Hrange).
  rewrite HjA. reflexivity.
Qed.

(** The drain over a single pending entry whose job is found in progress
    [k] times and then finished with success. *)
Lemma flush_loop_single ptr id out k : forall fuel s,
  job_pool_ready (st_pool s) = true ->
  decomp_async_job_map s = [(id, ptr)] ->
  (k < fuel)%nat ->
  (forall m, (m < k)%nat ->
     status_in_progress (fst (hw_reply (st_env s) (st_clock s + m) ptr (hw_job ptr s))) = true) ->
  hw_reply (st_env s) (st_clock s + k) ptr (hw_job ptr s) = (QPL_STS_OK, out) ->
  let sC := log (EvHwCheck ptr QPL_STS_OK) (device_done ptr out (tick (busy_drains ptr k s))) in
  flush_loop fuel 1 0 s =
    (Ret tt,
     pool_step (<[Z.to_nat (slot_of s id) := false]> (locks_of sC)) 0
               [EvUnLock (slot_of s id)]
               (with_map (delete 0%nat (decomp_async_job_map sC)) sC)).
Proof.
  induction k as [|k IH]; intros fuel s Hready Hmap Hfuel Hbusy Hdone;
    (destruct fuel as [|fuel]; [lia|]);
    rewrite flush_loop_iter;
    rewrite (flush_iter_run 0 0 s id ptr Hready) by (rewrite Hmap; reflexivity); cbv zeta.
  - rewrite Nat.add_0_r in Hdone. rewrite Hdone. cbn [fst snd status_in_progress status_is_ok].
    reflexivity.
  - pose proof (Hbusy O ltac:(lia)) as Hfirst. rewrite Nat.add_0_r in Hfirst.
    rewrite Hfirst, Hmap. cbn [length Nat.eqb]. cbn [loop_after].
    rewrite (status_in_progress_true _ Hfirst).
    set (s1 := log EvPause (log (EvHwCheck ptr QPL_STS_BEING_PROCESSED) (tick s))).
    assert (Hclock : forall m, (st_clock s1 + m = st_clock s + S m)%nat) by (intros m; cbn; lia).
    rewrite (IH fuel s1); [reflexivity|exact Hready|exact Hmap|lia| |].
    + intros m Hm. rewrite Hclock. apply Hbusy. lia.
    + rewrite Hclock. exact Hdone.
Qed.

(** An asynchronous request and its flush on cooperative hardware, with
    nothing else pending: when the first slot drawn is free and the device
    accepts the job, the decompress call returns with the job registered
    under the handle [capacity - index] and the slot held; a following
    flush that finds the job in progress [k] times and then finished with
    the bytes [out] returns with [out] at the destination, the map empty,
    the slot free again, the mode Synchronous and the software engine
    unused. *)
Theorem asynchronous_round_trip (fuel k : nat) (src n dst dst_size : Z)
    (s : State) (out : list Z) :
  decompress_mode s = Asynchronous ->
  job_pool_ready (st_pool s) = true ->
  pool_wf (st_pool s) ->
  decomp_async_job_map s = [] ->
  let i := draw s 0 in
  let j := configure_decompress src n dst dst_size (hw_job i s) in
  locks_of s !! Z.to_nat i = Some false ->
  hw_submit_status (st_env s) (st_clock s) i = QPL_STS_OK ->
  (forall m, (m < k)%nat ->
     status_in_progress (fst (hw_reply (st_env s) (S (st_clock s) + m) i j)) = true) ->
  hw_reply (st_env s) (S (st_clock s) + k) i j = (QPL_STS_OK, out) ->
  (k < fuel)%nat ->
  exists s1 s2,
    doDecompressData fuel src n dst dst_size s = (Ret tt, s1) /\
    decomp_async_job_map s1 = [(capacity s - i, i)] /\
    locks_of s1 = <[Z.to_nat i := true]> (locks_of s) /\
    flushAsynchronousDecompressRequests fuel s1 = (Ret tt, s2) /\
    st_mem s2 = store (st_mem (touched dst dst_size s)) dst out /\
    decomp_async_job_map s2 = [] /\
    locks_of s2 = locks_of s /\
    decompress_mode s2 = Synchronous /\
    sw_job s2 = sw_job s /\
    st_trace s2 =
      EvUnLock i :: EvHwCheck i QPL_STS_OK :: busy_drain_events i k
        ++ EvHwSubmit i j QPL_STS_OK :: EvTryLock i true :: st_trace s.
Proof.
  intros Hmode Hready Hwf Hempty i j Hfree Hsubmit Hbusy Hdone Hfuel.
  destruct fuel as [|fuel]; [lia|].
  set (s0 := touched dst dst_size s).
  pose proof (draw_range s 0 Hwf) as Hi. fold i in Hi.
  pose proof Hwf as (Hcap & _ & Hjobs). fold (capacity s) in Hcap.
  set (s2 := pool_step (<[Z.to_nat i := true]> (locks_of s0)) 1 [EvTryLock i true] s0).
  assert (Hrange : (Z.to_nat i < length (hw_jobs_buffer (st_pool s2)))%nat).
  { change (hw_jobs_buffer (st_pool s2)) with (hw_jobs_buffer (st_pool s)).
    rewrite Hjobs. fold (capacity s). lia. }
  pose proof (hw_decompress_async_with_accepted src n dst dst_size i (capacity s - i) s2
                Hrange Hsubmit) as Hwith. cbv zeta in Hwith.
  change (hw_job i s2) with (hw_job i s) in Hwith. fold j in Hwith.
  change (decomp_async_job_map s2) with (decomp_async_job_map s) in Hwith.
  rewrite Hempty in Hwith. cbn [map_insert] in Hwith.
  set (sA := with_pool (with_jobs (<[Z.to_nat i := j]> (hw_jobs_buffer (st_pool s2)))
                                  (st_pool s2)) s2) in *.
  set (s1 := with_map [(capacity s - i, i)] (log (EvHwSubmit i j QPL_STS_OK) (tick sA))) in *.
  assert (Hj1 : hw_job i s1 = j) by (apply (hw_job_insert i j s2); exact Hrange).
  assert (Hready1 : job_pool_ready (st_pool s1) = true) by exact Hready.
  pose proof (flush_loop_single i (capacity s - i) out k (S fuel) s1 Hready1 eq_refl Hfuel)
    as Hflush.
  cbv zeta in Hflush. change (st_env s1) with (st_env s) in Hflush.
  change (st_clock s1) with (S (st_clock s)) in Hflush. rewrite Hj1 in Hflush.
  specialize (Hflush Hbusy Hdone).
  assert (Hslot : slot_of s1 (capacity s - i) = i) by (apply (slot_of_handle i s Hwf Hi)).
  rewrite Hslot in Hflush.
  destruct (busy_drains_frame i k s1) as (Hm & Hp & Hsw & Hmap & Hmd & _ & _ & Htrace).
  cbv zeta in Hm, Hp, Hsw, Hmap, Hmd, Htrace.
  set (sP := busy_drains i k s1) in *.
  assert (HjP : hw_job i (tick sP) = j).
  { unfold hw_job. change (st_pool (tick sP)) with (st_pool sP). rewrite Hp. exact Hj1. }
  eexists s1, _. split; [|split; [|split; [|split]]].
  - rewrite doDecompressData_unfold, Hmode, Hready. cbv zeta. fold s0.
    rewrite hw_doDecompressDataAsynchronous_unfold.
    rewrite (hw_entry_first_free fuel _ s0 Hready Hwf Hfree).
    change (draw s0 0) with i. change (capacity s0) with (capacity s). fold s2. rewrite Hwith.
    destruct (Z.eqb_spec (to_Int32 (capacity s - i)) RET_ERROR) as [Herr|_]; [|reflexivity].
    exfalso. revert Herr. apply handle_not_error. lia.
  - reflexivity.
  - reflexivity.
  - rewrite (flush_ready _ _ Hready1). unfold hw_flushAsynchronousDecompressRequests, bind, gets.
    change (length (decomp_async_job_map s1)) with 1%nat. rewrite Hflush. reflexivity.
  - split; [|split; [|split; [|split; [|split]]]].
    + cbn. rewrite HjP. change (st_mem (tick sP)) with (st_mem sP). now rewrite Hm.
    + cbn. change (decomp_async_job_map (tick sP)) with (decomp_async_job_map sP).
      now rewrite Hmap.
    + cbn. change (st_pool (tick sP)) with (st_pool sP). rewrite Hp. cbn.
      apply insert_undo. exact Hfree.
    + reflexivity.
    + cbn. change (sw_job (tick sP)) with (sw_job sP). now rewrite Hsw.
    + cbn. change (st_trace (tick sP)) with (st_trace sP). rewrite Htrace. reflexivity.
Qed.

Lemma asynchronous_round_trip_witness :
  let s := example_state (example_env 3 QPL_STS_OK [7; 8; 9; 6]) true [false; false]
                         Asynchronous in
  let s1 := snd (doDecompressData 5 10 4 100 4 s) in
  let s2 := snd (flushAsynchronousDecompressRequests 5 s1) in
  decomp_async_job_map s1 = [(2, 0)] /\
  locks_of s1 = [true; false] /\
  fst (flushAsynchronousDecompressRequests 5 s1) = Ret tt /\
  load (st_mem s2) 100 4 = [7; 8; 9; 6] /\
  locks_of s2 = [false; false] /\
  decomp_async_job_map s2 = [].
Proof.
  cbv zeta.
  destruct (asynchronous_round_trip 5 2 10 4 100 4
              (example_state (example_env 3 QPL_STS_OK [7; 8; 9; 6]) true [false; false]
                             Asynchronous) [7; 8; 9; 6]
              eq_refl eq_refl ltac:(apply example_pool_wf; cbn; lia) eq_refl eq_refl eq_refl)
    as (s1 & s2 & Hcall & Hmap1 & Hlocks1 & Hflush & Hmem2 & Hmap & Hlocks & _).
  - intros m Hm. assert (m = 0 \/ m = 1)%nat as [-> | ->] by lia; reflexivity.
  - reflexivity.
  - lia.
  - rewrite Hcall. cbn [snd]. rewrite Hflush. cbn [fst snd].
    rewrite Hmap1, Hlocks1, Hmem2, Hmap, Hlocks.
    split; [reflexivity|]. split; [reflexivity|]. split; [reflexivity|].
    split; [vm_compute; reflexivity|]. split; reflexivity.
Defined.

(** The drain over a single pending entry whose job is found in progress
    [k] times and then finished with a failure status. *)
Lemma flush_loop_single_failed ptr id code out k : forall fuel s,
  job_pool_ready (st_pool s) = true ->
  decomp_async_job_map s = [(id, ptr)] ->
  (k < fuel)%nat ->
  (forall m, (m < k)%nat ->
     status_in_progress (fst (hw_reply (st_env s) (st_clock s + m) ptr (hw_job ptr s))) = true) ->
  hw_reply (st_env s) (st_clock s + k) ptr (hw_job ptr s) = (QPL_STS_ERROR code, out) ->
  let sC := log (EvHwCheck ptr (QPL_STS_ERROR code))
                (device_done ptr out (tick (busy_drains ptr k s))) in
  let jC := hw_job ptr sC in
  flush_loop fuel 1 0 s =
    match sw_doDecompressData (next_in_ptr jC) (available_in jC)
                              (next_out_ptr jC) (available_out jC) sC with
    | (Ret _, s2) =>
        (Ret tt,
         pool_step (<[Z.to_nat (slot_of s id) := false]> (locks_of s2)) 0
                   [EvUnLock (slot_of s id)]
                   (with_map (delete 0%nat (decomp_async_job_map s2)) s2))
    | (Throw e, s2) => (Throw e, s2)
    | (NoResult, s2) => (NoResult, s2)
    end.
Proof.
  induction k as [|k IH]; intros fuel s Hready Hmap Hfuel Hbusy Hdone;
    (destruct fuel as [|fuel]; [lia|]);
    rewrite flush_loop_iter;
    rewrite (flush_iter_run 0 0 s id ptr Hready) by (rewrite Hmap; reflexivity); cbv zeta.
  - rewrite Nat.add_0_r in Hdone. rewrite Hdone. cbn [fst snd status_in_progress status_is_ok].
    cbn [busy_drains].
    destruct (sw_doDecompressData _ _ _ _ _) as [[[]| |] s2]; reflexivity.
  - pose proof (Hbusy O ltac:(lia)) as Hfirst. rewrite Nat.add_0_r in Hfirst.
    rewrite Hfirst, Hmap. cbn [length Nat.eqb]. cbn [loop_after].
    rewrite (status_in_progress_true _ Hfirst).
    set (s1 := log EvPause (log (EvHwCheck ptr QPL_STS_BEING_PROCESSED) (tick s))).
    assert (Hclock : forall m, (st_clock s1 + m = st_clock s + S m)%nat) by (intros m; cbn; lia).
    rewrite (IH fuel s1); [reflexivity|exact Hready|exact Hmap|lia| |].
    + intros m Hm. rewrite Hclock. apply Hbusy. lia.
    + rewrite Hclock. exact Hdone.
Qed.

(** An asynchronous request whose job the device fails, with nothing else
    pending: the flush re-runs the request on the software engine, on the
    buffers recorded on the job.  When the software engine succeeds the
    flush returns with the software output at the destination, the map
    empty, the slot free and the mode Synchronous.  When it fails the flush
    throws CANNOT_DECOMPRESS and the entry stays registered, its slot held
    and the mode Asynchronous. *)
Theorem asynchronous_substitution (fuel k : nat) (src n dst dst_size code : Z)
    (s : State) (hw_out : list Z) :
  decompress_mode s = Asynchronous ->
  job_pool_ready (st_pool s) = true ->
  pool_wf (st_pool s) ->
  decomp_async_job_map s = [] ->
  sw_init_fails s = false ->
  let i := draw s 0 in
  let j := configure_decompress src n dst dst_size (hw_job i s) in
  let m1 := store (st_mem (touched dst dst_size s)) dst hw_out in
  let sw := sw_engine (st_env s)
              (configure_decompress src n dst dst_size (the_sw_job s))
              (load m1 src (Z.to_nat n)) in
  locks_of s !! Z.to_nat i = Some false ->
  hw_submit_status (st_env s) (st_clock s) i = QPL_STS_OK ->
  (forall m, (m < k)%nat ->
     status_in_progress (fst (hw_reply (st_env s) (S (st_clock s) + m) i j)) = true) ->
  hw_reply (st_env s) (S (st_clock s) + k) i j = (QPL_STS_ERROR code, hw_out) ->
  (k < fuel)%nat ->
  exists s1 s2,
    doDecompressData fuel src n dst dst_size s = (Ret tt, s1) /\
    snd (flushAsynchronousDecompressRequests fuel s1) = s2 /\
    (status_is_ok (fst sw) = true ->
     fst (flushAsynchronousDecompressRequests fuel s1) = Ret tt /\
     st_mem s2 = store m1 dst (snd sw) /\
     decomp_async_job_map s2 = [] /\
     locks_of s2 = locks_of s /\
     decompress_mode s2 = Synchronous) /\
    (status_is_ok (fst sw) = false ->
     fst (flushAsynchronousDecompressRequests fuel s1) =
       Throw {| exn_code := CANNOT_DECOMPRESS; exn_site := SwExecutionFailed;
                exn_status := fst sw |} /\
     decomp_async_job_map s2 = [(capacity s - i, i)] /\
     locks_of s2 = <[Z.to_nat i := true]> (locks_of s) /\
     decompress_mode s2 = Asynchronous).
Proof.
  intros Hmode Hready Hwf Hempty Hinit i j m1 sw Hfree Hsubmit Hbusy Hdone Hfuel.
  destruct fuel as [|fuel]; [lia|].
  set (s0 := touched dst dst_size s).
  pose proof (draw_range s 0 Hwf) as Hi. fold i in Hi.
  pose proof Hwf as (Hcap & _ & Hjobs). fold (capacity s) in Hcap.
  set (s2 := pool_step (<[Z.to_nat i := true]> (locks_of s0)) 1 [EvTryLock i true] s0).
  assert (Hrange : (Z.to_nat i < length (hw_jobs_buffer (st_pool s2)))%nat).
  { change (hw_jobs_buffer (st_pool s2)) with (hw_jobs_buffer (st_pool s)).
    rewrite Hjobs. fold (capacity s). lia. }
  pose proof (hw_decompress_async_with_accepted src n dst dst_size i (capacity s - i) s2
                Hrange Hsubmit) as Hwith. cbv zeta in Hwith.
  change (hw_job i s2) with (hw_job i s) in Hwith. fold j in Hwith.
  change (decomp_async_job_map s2) with (decomp_async_job_map s) in Hwith.
  rewrite Hempty in Hwith. cbn [map_insert] in Hwith.
  set (sA := with_pool (with_jobs (<[Z.to_nat i := j]> (hw_jobs_buffer (st_pool s2)))
                                  (st_pool s2)) s2) in *.
  set (s1 := with_map [(capacity s - i, i)] (log (EvHwSubmit i j QPL_STS_OK) (tick sA))) in *.
  assert (Hj1 : hw_job i s1 = j) by (apply (hw_job_insert i j s2); exact Hrange).
  assert (Hready1 : job_pool_ready (st_pool s1) = true) by exact Hready.
  pose proof (flush_loop_single_failed i (capacity s - i) code hw_out k (S fuel) s1
                Hready1 eq_refl Hfuel) as Hflush.
  cbv zeta in Hflush. change (st_env s1) with (st_env s) in Hflush.
  change (st_clock s1) with (S (st_clock s)) in Hflush. rewrite Hj1 in Hflush.
  specialize (Hflush Hbusy Hdone).
  assert (Hslot : slot_of s1 (capacity s - i) = i) by (apply (slot_of_handle i s Hwf Hi)).
  rewrite Hslot in Hflush.
  destruct (busy_drains_frame i k s1) as (Hm & Hp & Hsw & Hmap & Hmd & He & _ & _).
  cbv zeta in Hm, Hp, Hsw, Hmap, Hmd, He.
  set (sP := busy_drains i k s1) in *.
  assert (HjP : hw_job i (tick sP) = j).
  { unfold hw_job. change (st_pool (tick sP)) with (st_pool sP). rewrite Hp. exact Hj1. }
  set (sC := log (EvHwCheck i (QPL_STS_ERROR code)) (device_done i hw_out (tick sP))) in *.
  assert (HjC : hw_job i sC = set_total_out (to_UInt32 (Z.of_nat (length hw_out))) j).
  { unfold sC, device_done. unfold hw_job at 1.
    cbn [st_pool log with_pool with_jobs hw_jobs_buffer].
    change (hw_jobs_buffer (st_pool (with_mem _ (tick sP))))
      with (hw_jobs_buffer (st_pool (tick sP))).
    rewrite (hw_job_insert i _ (tick sP)); [now rewrite HjP|].
    change (st_pool (tick sP)) with (st_pool sP). rewrite Hp. cbn. now rewrite length_insert. }
  rewrite HjC in Hflush. cbn [set_total_out next_in_ptr available_in next_out_ptr available_out
                              j configure_decompress] in Hflush.
  assert (HmemC : st_mem sC = m1).
  { unfold sC, device_done. cbn. rewrite HjP. change (st_mem (tick sP)) with (st_mem sP).
    now rewrite Hm. }
  assert (HswC : sw_job sC = sw_job s).
  { unfold sC, device_done. cbn. change (sw_job (tick sP)) with (sw_job sP). now rewrite Hsw. }
  assert (HenvC : st_env sC = st_env s).
  { unfold sC, device_done. cbn. change (st_env (tick sP)) with (st_env sP). now rewrite He. }
  assert (Hreply : sw_decompress_reply src n dst dst_size sC = sw).
  { unfold sw_decompress_reply, the_sw_job. now rewrite HenvC, HswC, HmemC. }
  assert (HinitC : sw_init_fails sC = false).
  { unfold sw_init_fails in *. now rewrite HswC, HenvC. }
  rewrite sw_doDecompressData_run in Hflush. cbv zeta in Hflush.
  rewrite HinitC, Hreply in Hflush.
  assert (Hcall : doDecompressData (S fuel) src n dst dst_size s = (Ret tt, s1)).
  { rewrite doDecompressData_unfold, Hmode, Hready. cbv zeta. fold s0.
    rewrite hw_doDecompressDataAsynchronous_unfold.
    rewrite (hw_entry_first_free fuel _ s0 Hready Hwf Hfree).
    change (draw s0 0) with i. change (capacity s0) with (capacity s). fold s2. rewrite Hwith.
    destruct (Z.eqb_spec (to_Int32 (capacity s - i)) RET_ERROR) as [Herr|_]; [|reflexivity].
    exfalso. revert Herr. apply handle_not_error. lia. }
  assert (Hrun : flushAsynchronousDecompressRequests (S fuel) s1 =
            match flush_loop (S fuel) 1 0 s1 with
            | (Ret _, s3) => (Ret tt, with_mode Synchronous s3)
            | (Throw e, s3) => (Throw e, s3)
            | (NoResult, s3) => (NoResult, s3)
            end).
  { rewrite (flush_ready _ _ Hready1). reflexivity. }
  assert (HmapC : decomp_async_job_map sC = [(capacity s - i, i)]).
  { unfold sC, device_done. cbn.
    change (decomp_async_job_map (tick sP)) with (decomp_async_job_map sP). now rewrite Hmap. }
  assert (HlocksC : locks_of sC = <[Z.to_nat i := true]> (locks_of s)).
  { unfold sC, device_done, locks_of. cbn. change (st_pool (tick sP)) with (st_pool sP).
    now rewrite Hp. }
  assert (HmodeC : decompress_mode sC = Asynchronous).
  { unfold sC, device_done. cbn.
    change (decompress_mode (tick sP)) with (decompress_mode sP). rewrite Hmd. exact Hmode. }
  clearbody sC.
  exists s1, (snd (flushAsynchronousDecompressRequests (S fuel) s1)).
  split; [exact Hcall|]. split; [reflexivity|].
  rewrite Hrun, Hflush. split; intros Hok; rewrite Hok; cbn [fst snd].
  - split; [reflexivity|]. split; [|split; [|split]].
    + cbn. now rewrite HmemC.
    + cbn. now rewrite HmapC.
    + unfold locks_of in HlocksC, Hfree |- *. cbn. rewrite HlocksC.
      apply insert_undo. exact Hfree.
    + reflexivity.
  - split; [reflexivity|]. split; [|split].
    + cbn. exact HmapC.
    + exact HlocksC.
    + cbn. exact HmodeC.
Qed.

Lemma asynchronous_substitution_witness :
  let s := example_state (example_env 1 (QPL_STS_ERROR 7) []) true [false; false]
                         Asynchronous in
  let s1 := snd (doDecompressData 5 10 4 100 4 s) in
  let r := flushAsynchronousDecompressRequests 5 s1 in
  fst r = Ret tt /\
  load (st_mem (snd r)) 100 4 = [10; 11; 12; 13] /\
  decomp_async_job_map (snd r) = [] /\
  locks_of (snd r) = [false; false].
Proof.
  cbv zeta.
  destruct (asynchronous_substitution 5 0 10 4 100 4 7
              (example_state (example_env 1 (QPL_STS_ERROR 7) []) true [false; false]
                             Asynchronous) []
              eq_refl eq_refl ltac:(apply example_pool_wf; cbn; lia) eq_refl eq_refl
              eq_refl eq_refl)
    as (s1 & s2 & Hcall & Hs2 & Hok & _).
  - intros m Hm. lia.
  - reflexivity.
  - lia.
  - rewrite Hcall. cbn [snd]. rewrite Hs2.
    destruct (Hok ltac:(vm_compute; reflexivity)) as (Hret & Hmem & Hmap & Hlocks & _).
    rewrite Hret, Hmem, Hmap, Hlocks.
    split; [reflexivity|]. split; [vm_compute; reflexivity|]. split; reflexivity.
Defined.

(** ** The slot balance under the calls of the codec *)

Lemma pool_balanced_frame others s s' :
  st_pool s' = st_pool s ->
  decomp_async_job_map s' = decomp_async_job_map s ->
  pool_balanced others s -> pool_balanced others s'.
Proof.
  unfold pool_balanced, map_wf, entry_wf, slot_balance, capacity, locks_of.
  intros -> ->. auto.
Qed.

Lemma sw_compress_call_frame src n dst s :
  let r := sw_compress_call src n dst s in
  st_pool (snd r) = st_pool s /\
  decomp_async_job_map (snd r) = decomp_async_job_map s /\
  fst r <> NoResult.
Proof.
  cbv zeta. unfold sw_compress_call, bind.
  destruct (sw_doCompressData_frame src n dst (getMaxCompressedDataSize n) s)
    as (Hpool & Hmap & _ & _ & Hres). cbv zeta in Hpool, Hmap.
  destruct (sw_doCompressData src n dst (getMaxCompressedDataSize n) s) as [[r| |] s1];
    cbn [fst snd] in *; repeat split; try assumption; discriminate.
Qed.

(** Every call of the codec that ends, by returning or by throwing, keeps
    the slot balance: afterwards the held slots of the pool are those held
    elsewhere and those registered in the pending map.  Compression, and
    decompression outside the Asynchronous mode, leave flags and map as
    they were. *)
Theorem codec_keeps_slot_balance (others : list nat) (fuel : nat) (src n dst dst_size : Z)
    (s : State) :
  pool_balanced others s ->
  (let r := doCompressData fuel src n dst s in
   fst r <> NoResult ->
   pool_balanced others (snd r) /\
   locks_of (snd r) = locks_of s /\
   decomp_async_job_map (snd r) = decomp_async_job_map s) /\
  (let r := doDecompressData fuel src n dst dst_size s in
   fst r <> NoResult ->
   pool_balanced others (snd r) /\
   (decompress_mode s <> Asynchronous ->
    locks_of (snd r) = locks_of s /\
    decomp_async_job_map (snd r) = decomp_async_job_map s)) /\
  (let r := flushAsynchronousDecompressRequests fuel s in
   fst r <> NoResult ->
   pool_balanced others (snd r)).
Proof.
  intros Hinv. pose proof Hinv as (Hready & Hpool & Hwf & Hbal).
  cbv zeta. split; [|split].
  - rewrite doCompressData_unfold, Hready.
    destruct (hw_doCompressData_spec fuel src n dst (getMaxCompressedDataSize n) s Hready Hpool)
      as [(res & s1 & -> & Hc & Hmap & Hlocks & _)|(_ & Hno)].
    + pose proof (pool_balanced_same others _ _ _ Hc Hlocks Hmap Hinv) as Hinv1.
      destruct (res =? RET_ERROR).
      * intros _. destruct (sw_compress_call_frame src n dst s1) as (Hp & Hm & _).
        cbv zeta in Hp, Hm. split; [|split].
        -- eapply pool_balanced_frame; eauto.
        -- unfold locks_of. now rewrite Hp.
        -- now rewrite Hm.
      * intros _. cbn [snd]. auto.
    + destruct (hw_doCompressData _ _ _ _ _ s) as [[r| |] s1]; try discriminate.
      intros H. now destruct H.
  - rewrite doDecompressData_unfold. cbv zeta. rewrite Hready.
    set (s0 := touched dst dst_size s).
    assert (Hinv0 : pool_balanced others s0) by (apply (pool_balanced_frame others s); auto).
    assert (Hsw : forall s1, pool_balanced others s1 ->
              pool_balanced others (snd (sw_doDecompressData src n dst dst_size s1)) /\
              locks_of (snd (sw_doDecompressData src n dst dst_size s1)) = locks_of s1 /\
              decomp_async_job_map (snd (sw_doDecompressData src n dst dst_size s1))
                = decomp_async_job_map s1).
    { intros s1 H1. destruct (sw_doDecompressData_frame src n dst dst_size s1)
        as (Hp & Hm & _). cbv zeta in Hp, Hm.
      split; [eapply pool_balanced_frame; eauto|]. split; [unfold locks_of; now rewrite Hp|].
      exact Hm. }
    destruct (decompress_mode s) eqn:Hmode.
    + destruct (hw_doDecompressDataSynchronous_spec fuel src n dst dst_size s0 Hready Hpool)
        as [(res & s1 & -> & Hc & Hmap & Hlocks & _)|(Hno & _)].
      * pose proof (pool_balanced_same others _ _ _ Hc Hlocks Hmap Hinv0) as Hinv1.
        intros _. destruct (res =? RET_ERROR).
        -- destruct (Hsw s1 Hinv1) as (H1 & H2 & H3). split; [exact H1|].
           intros _. rewrite H2, H3. auto.
        -- cbn [snd]. auto.
      * destruct (hw_doDecompressDataSynchronous _ _ _ _ _ s0) as [[r| |] s1]; try discriminate.
        intros H. now destruct H.
    + destruct (hw_doDecompressDataAsynchronous_spec fuel src n dst dst_size s0 Hready Hpool)
        as [(res & s1 & -> & Hc & _ & Hcases)|(_ & Hno)].
      * intros _.
        assert (Hinv1 : pool_balanced others s1).
        { destruct Hcases as [(_ & Hmap & Hlocks & _)
                             |(i & j & Hi & _ & _ & Hfree & Hlocks & Hmap & _)].
          - eapply pool_balanced_same; eauto.
          - eapply pool_balanced_registers; eauto. }
        split; [|intros H; now destruct H].
        destruct (res =? RET_ERROR); [apply (Hsw s1 Hinv1)|exact Hinv1].
      * destruct (hw_doDecompressDataAsynchronous _ _ _ _ _ s0) as [[r| |] s1];
          try discriminate.
        intros H. now destruct H.
    + intros _. destruct (Hsw s0 Hinv0) as (H1 & H2 & H3). split; [exact H1|].
      intros _. rewrite H2, H3. auto.
  - rewrite (flush_ready _ _ Hready).
    destruct (hw_flush_spec fuel s Hready Hwf) as (resolved & Hdr & _). cbv zeta in Hdr.
    pose proof (pool_balanced_drained others _ _ _ Hdr Hinv) as Hinv1.
    destruct (hw_flushAsynchronousDecompressRequests fuel s) as [[[]| |] s1];
      cbn [fst snd] in *; intros H; exact Hinv1.
Qed.

Lemma codec_keeps_slot_balance_witness :
  let s := example_state (example_env 2 QPL_STS_OK [7; 8]) true
                         [false; true; false] Asynchronous in
  let r := doDecompressData 5 10 4 100 4 s in
  pool_balanced [1%nat] s /\
  fst r = Ret tt /\
  locks_of (snd r) = [true; true; false] /\
  pool_balanced [1%nat] (snd r).
Proof.
  cbv zeta.
  split; [apply example_pool_balanced|].
  split; [vm_compute; reflexivity|].
  split; [vm_compute; reflexivity|].
  destruct (codec_keeps_slot_balance [1%nat] 5 10 4 100 4 _
              (example_pool_balanced (example_env 2 QPL_STS_OK [7; 8]) Asynchronous))
    as (_ & Hdec & _).
  apply Hdec. vm_compute. discriminate.
Defined.

(** ** Where the codec writes *)

Lemma hw_called_outside src n dst dst_size s s1 :
  env_respects_capacity (st_env s) ->
  0 <= dst_size ->
  hw_called (src, n, dst, dst_size) s s1 ->
  forall a, ~ (dst <= a < dst + dst_size) -> st_mem s1 a = st_mem s a.
Proof.
  intros [Hcap _] Hd Hc a Ha.
  destruct (hc_mem _ _ _ Hc) as [->|(t & i & j & Hj & ->)]; [reflexivity|].
  apply store_outside. cbn [buffers_dest fst snd].
  specialize (Hcap t i j). assert (Hav : available_out j = dst_size) by (injection Hj; auto).
  rewrite Hav in Hcap. specialize (Hcap Hd). lia.
Qed.

Lemma sw_doDecompressData_outside src n dst dst_size s :
  env_respects_capacity (st_env s) ->
  0 <= dst_size ->
  forall a, ~ (dst <= a < dst + dst_size) ->
    st_mem (snd (sw_doDecompressData src n dst dst_size s)) a = st_mem s a.
Proof.
  intros [_ Hsw] Hd a Ha. rewrite sw_doDecompressData_run. cbv zeta.
  destruct (sw_init_fails s); [reflexivity|]. cbn [snd sw_ran st_mem].
  apply store_outside. cbn [next_out_ptr configure_decompress].
  pose proof (Hsw (configure_decompress src n dst dst_size (the_sw_job s))
                  (load (st_mem s) src (Z.to_nat n)) Hd) as Hle.
  unfold sw_decompress_reply. cbn [available_out configure_decompress] in Hle. lia.
Qed.

Lemma sw_compress_call_outside src n dst s :
  env_respects_capacity (st_env s) ->
  forall a, ~ (dst <= a < dst + getMaxCompressedDataSize n) ->
    st_mem (snd (sw_compress_call src n dst s)) a = st_mem s a.
Proof.
  intros [_ Hsw] a Ha. rewrite sw_compress_call_run. cbv zeta.
  destruct (sw_init_fails s); [reflexivity|]. cbn [snd sw_ran st_mem].
  apply store_outside. cbn [next_out_ptr configure_compress].
  pose proof (getMaxCompressedDataSize_range n) as Hrange.
  pose proof (Hsw (configure_compress src n dst (getMaxCompressedDataSize n) (the_sw_job s))
                  (load (st_mem s) src (Z.to_nat n)) (proj1 Hrange)) as Hle.
  unfold sw_compress_reply. cbn [available_out configure_compress] in Hle. lia.
Qed.

(** With engines that never produce more than [available_out] bytes, a
    call of the codec that ends writes only inside the destination buffer:
    compression inside the [getMaxCompressedDataSize] bytes at [dest],
    decompression inside the [uncompressed_size] bytes at [dest]; every
    other byte of memory is as before, whichever path ran and whether the
    call returned or threw. *)
Theorem codec_writes_inside_destination (fuel : nat) (src n dst dst_size : Z) (s : State) :
  env_respects_capacity (st_env s) ->
  (job_pool_ready (st_pool s) = true -> pool_wf (st_pool s)) ->
  (let r := doCompressData fuel src n dst s in
   fst r <> NoResult ->
   forall a, ~ (dst <= a < dst + getMaxCompressedDataSize n) ->
             st_mem (snd r) a = st_mem s a) /\
  (0 <= dst_size ->
   let r := doDecompressData fuel src n dst dst_size s in
   fst r <> NoResult ->
   forall a, ~ (dst <= a < dst + dst_size) -> st_mem (snd r) a = st_mem s a).
Proof.
  intros Henv Hwf. split.
  - cbv zeta. rewrite doCompressData_unfold.
    pose proof (getMaxCompressedDataSize_range n) as Hrange.
    destruct (job_pool_ready (st_pool s)) eqn:Hready.
    + destruct (hw_doCompressData_spec fuel src n dst (getMaxCompressedDataSize n) s Hready
                  (Hwf eq_refl)) as [(res & s1 & -> & Hc & _)|(_ & Hno)].
      * intros _ a Ha.
        pose proof (hw_called_outside _ _ _ _ _ _ Henv (proj1 Hrange) Hc a Ha) as Hhw.
        destruct (res =? RET_ERROR); [|exact Hhw].
        rewrite sw_compress_call_outside; [exact Hhw| |exact Ha].
        now rewrite (hc_env _ _ _ Hc).
      * destruct (hw_doCompressData _ _ _ _ _ s) as [[r| |] s1]; try discriminate.
        intros H. now destruct H.
    + intros _ a Ha. now apply sw_compress_call_outside.
  - intros Hd. cbv zeta. rewrite doDecompressData_retry. cbv zeta.
    set (s0 := touched dst dst_size s).
    assert (Htouch : forall a, ~ (dst <= a < dst + dst_size) -> st_mem s0 a = st_mem s a).
    { intros a Ha. unfold s0. rewrite (touched_mem dst dst_size s Hd).
      destruct (Z.leb_spec dst a); cbn [andb]; [|reflexivity].
      destruct (Z.ltb_spec a (dst + dst_size)); [lia|reflexivity]. }
    assert (Henv0 : env_respects_capacity (st_env s0)) by exact Henv.
    destruct (job_pool_ready (st_pool s)) eqn:Hready.
    + destruct (hw_decompress_entry (decompress_mode s) fuel src n dst dst_size s0)
        as [[res| |] s1] eqn:Hhw.
      * pose proof (hw_decompress_entry_called (decompress_mode s) fuel src n dst dst_size
                      s0 res s1 Hready (Hwf eq_refl) Hhw) as Hc.
        intros _ a Ha.
        pose proof (hw_called_outside _ _ _ _ _ _ Henv0 Hd Hc a Ha) as Hmem.
        destruct (res =? RET_ERROR); [|cbn [snd]; rewrite Hmem; now apply Htouch].
        rewrite sw_doDecompressData_outside; [rewrite Hmem; now apply Htouch| |exact Hd|exact Ha].
        now rewrite (hc_env _ _ _ Hc).
      * exfalso. apply (hw_decompress_entry_no_throw (decompress_mode s) fuel src n dst dst_size
                          s0 (fun _ => Hwf eq_refl) e). now rewrite Hhw.
      * intros H. now destruct H.
    + intros _ a Ha. rewrite sw_doDecompressData_outside by assumption. now apply Htouch.
Qed.

Lemma codec_writes_inside_destination_witness :
  let s := example_state example_failing_env true [false; false] Synchronous in
  let r := doDecompressData 5 10 4 100 4 s in
  fst r = Ret tt /\
  load (st_mem (snd r)) 100 4 = [10; 11; 12; 13] /\
  st_mem (snd r) 99 = st_mem s 99 /\
  st_mem (snd r) 104 = st_mem s 104.
Proof.
  cbv zeta.
  destruct (codec_writes_inside_destination 5 10 4 100 4
              (example_state example_failing_env true [false; false] Synchronous)
              example_failing_env_respects_capacity
              (fun _ => example_pool_wf [false; false] ltac:(cbn; lia) ltac:(cbn; lia)))
    as (_ & Hdec).
  specialize (Hdec ltac:(lia) ltac:(vm_compute; discriminate)).
  split; [vm_compute; reflexivity|]. split; [vm_compute; reflexivity|].
  split; apply Hdec; lia.
Defined.

(** ** Teardown after a construction that failed half-way *)

Lemma pool_destructor_run_idle fuel s :
  (forall j, 0 <= j < capacity s -> locks_of s !! Z.to_nat j = Some false) ->
  pool_destructor (S fuel) s =
    (Ret tt,
     with_pool (with_ready false (st_pool s))
       (pool_step (locks_of s) 0 (fini_range s 0 (Z.to_nat (capacity s))) s)).
Proof.
  intros Hfree. unfold pool_destructor, bind, gets. fold (capacity s).
  rewrite fini_jobs_idle by (intros j Hj; apply Hfree; lia).
  reflexivity.
Qed.

Lemma finalised_fini_range s n : forall i, finalised (fini_range s i n) = n.
Proof.
  unfold finalised. induction n as [|n IH]; intros i; [reflexivity|].
  cbn [fini_range]. rewrite List.filter_app, length_app, IH. cbn. lia.
Qed.

(** The destructor of the pool after any construction with a
    configuration context: it returns and finalises as many jobs as the
    capacity says, although the constructor initialised only those before
    the first failure.  When a job failed to initialise, the destructor
    therefore finalises jobs that were never initialised. *)
Theorem teardown_finalises_every_slot (d : Discovery) (fuel : nat) (s : State) :
  ctx_status d = 0 ->
  (0 < fuel)%nat ->
  let total := total_wq_size (wq_sizes d) in
  let k := initialised d (Z.to_nat total) 0 in
  let s1 := snd (pool_constructor d s) in
  exists evs s2,
    pool_destructor fuel s1 = (Ret tt, s2) /\
    st_trace s2 = evs ++ unlock_range 0 k ++ st_trace s /\
    finalised evs = Z.to_nat total /\
    (k <= Z.to_nat total)%nat /\
    (~ all_jobs_initialise d total -> (k < finalised evs)%nat) /\
    job_pool_ready (st_pool s2) = false.
Proof.
  intros Hctx Hfuel total k s1. destruct fuel as [|fuel]; [lia|].
  pose proof (total_wq_size_range (wq_sizes d)) as Hrange. fold total in Hrange.
  pose proof (initialised_le d (Z.to_nat total) 0) as Hle. fold k in Hle.
  assert (Hs1 : s1 = with_pool (built_pool total (negb (total =? 0) && (k =? Z.to_nat total)%nat))
                       (pool_step (locks_of s) 0 (unlock_range 0 k) s)).
  { unfold s1. rewrite pool_constructor_run. cbv zeta. cbn [snd]. fold total. fold k.
    destruct (Z.eqb_spec (ctx_status d) 0); [|contradiction].
    destruct (Z.eqb_spec total 0) as [Hzero|Hpos]; cbn [negb andb]; [|reflexivity].
    assert (k = O) as -> by (subst k; rewrite Hzero; reflexivity).
    rewrite Hzero. cbn [unlock_range]. now rewrite pool_step_id. }
  assert (Hcap : capacity s1 = total) by (now rewrite Hs1).
  assert (Hfree : forall j, 0 <= j < capacity s1 -> locks_of s1 !! Z.to_nat j = Some false).
  { intros j Hj. rewrite Hs1 in *. cbn in *. apply lookup_replicate_2. lia. }
  exists (fini_range s1 0 (Z.to_nat total)). eexists.
  split; [rewrite (pool_destructor_run_idle fuel s1 Hfree), Hcap; reflexivity|].
  split; [cbn; rewrite Hs1; reflexivity|].
  split; [apply finalised_fini_range|]. split; [exact Hle|]. split; [|reflexivity].
  intros Hnot. rewrite finalised_fini_range.
  destruct (Nat.eq_dec k (Z.to_nat total)) as [Heq|Hne]; [|lia].
  exfalso. apply Hnot. intros i Hi.
  apply (proj1 (initialised_all d (Z.to_nat total) 0) Heq). lia.
Qed.

Lemma teardown_finalises_every_slot_witness :
  let d := example_discovery 1 in
  let s := example_state (example_env 0 QPL_STS_OK []) false [] Synchronous in
  let s1 := snd (pool_constructor d s) in
  let r := pool_destructor 1 s1 in
  max_hw_jobs (st_pool s1) = 4 /\
  job_pool_ready (st_pool s1) = false /\
  st_trace s1 = [EvUnLock 0] /\
  fst r = Ret tt /\
  finalised (st_trace (snd r)) = 4%nat.
Proof.
  cbv zeta.
  destruct (teardown_finalises_every_slot (example_discovery 1) 1
              (example_state (example_env 0 QPL_STS_OK []) false [] Synchronous)
              eq_refl ltac:(lia))
    as (evs & s2 & Hrun & _).
  rewrite Hrun. cbn [fst snd].
  split; [reflexivity|]. split; [reflexivity|]. split; [reflexivity|].
  split; [reflexivity|].
  assert (Hs2 : s2 = snd (pool_destructor 1
                     (snd (pool_constructor (example_discovery 1)
                        (example_state (example_env 0 QPL_STS_OK []) false [] Synchronous)))))
    by (now rewrite Hrun).
  rewrite Hs2. vm_compute. reflexivity.
Defined.

(** ** Failures of the hardware attempt, by its log *)

Lemma last_device_status_failed_locks evs rest :
  Forall (fun e => is_failed_lock e = true) evs ->
  last_device_status (evs ++ rest) = last_device_status rest.
Proof.
  induction 1 as [|e evs He _ IH]; [reflexivity|].
  cbn [app last_device_status]. destruct e as [i [|]| | | | | | | |]; try discriminate.
  exact IH.
Qed.

Lemma release_then_ret (res : Z) job_id s :
  job_pool_ready (st_pool s) = true ->
  (releaseJob job_id;; ret res) s =
    (Ret res,
     pool_step (<[Z.to_nat (to_UInt32 (capacity s - job_id)) := false]> (locks_of s)) 0
               [EvUnLock (to_UInt32 (capacity s - job_id))] s).
Proof. intros H. unfold bind. now rewrite releaseJob_ready. Qed.

(** The log of the synchronous decompression on a locked slot: the release
    of the slot, preceded by the calls into the device, the last of which
    decides the result. *)
Lemma hw_decompress_sync_with_log fuel src n dst dst_size ptr id s res s1 :
  job_pool_ready (st_pool s) = true ->
  (Z.to_nat ptr < length (hw_jobs_buffer (st_pool s)))%nat ->
  hw_decompress_sync_with fuel src n dst dst_size ptr id s = (Ret res, s1) ->
  exists evs st,
    st_trace s1 = EvUnLock (to_UInt32 (capacity s - id)) :: evs ++ st_trace s /\
    last_device_status evs = Some st /\
    (status_is_ok st = false -> res = RET_ERROR).
Proof.
  intros Hready Hrange. rewrite hw_decompress_sync_with_unfold. cbv zeta.
  set (j := configure_decompress src n dst dst_size (hw_job ptr s)).
  set (sA := with_pool (with_jobs (<[Z.to_nat ptr := j]> (hw_jobs_buffer (st_pool s)))
                                  (st_pool s)) s).
  set (status := hw_submit_status (st_env s) (st_clock s) ptr).
  set (sB := log (EvHwSubmit ptr (hw_job ptr sA) status) (tick sA)).
  assert (HreadyB : job_pool_ready (st_pool sB) = true) by exact Hready.
  destruct (status_is_ok status) eqn:Hok; cbn [negb].
  - destruct (poll_loop_spec ptr fuel sB)
      as [(st & sC & Heq & _ & _ & Ht & _ & _ & evs & Htr & _)|(Hno & _)].
    { cbn. now rewrite length_insert. }
    + rewrite Heq.
      assert (HreadyC : job_pool_ready (st_pool sC) = true)
        by (rewrite (ht_ready _ _ _ _ Ht); exact HreadyB).
      assert (HcapC : capacity sC = capacity s) by (rewrite (ht_capacity _ _ _ _ Ht); reflexivity).
      destruct (status_is_ok st) eqn:Hst; cbn [negb];
        rewrite release_then_ret by exact HreadyC; intros [= <- <-];
        exists (EvHwCheck ptr st :: evs ++ [EvHwSubmit ptr (hw_job ptr sA) status]), st;
        (split; [|split; [reflexivity|]]).
      * cbn [st_trace pool_step app]. rewrite Htr, HcapC. cbn [app].
        rewrite <- app_assoc. reflexivity.
      * congruence.
      * cbn [st_trace pool_step app]. rewrite Htr, HcapC. cbn [app].
        rewrite <- app_assoc. reflexivity.
      * reflexivity.
    + destruct (poll_loop fuel ptr sB) as [[st| |] sC]; cbn in Hno; try discriminate.
  - rewrite release_then_ret by exact HreadyB. intros [= <- <-].
    exists [EvHwSubmit ptr (hw_job ptr sA) status], status.
    split; [reflexivity|split; [reflexivity|reflexivity]].
Qed.

(** A hardware compression that returned left a log from which its result
    can be told: when the log shows a failure, the result is [RET_ERROR]. *)
Lemma hw_doCompressData_log fuel src n dst dst_size s res s1 :
  job_pool_ready (st_pool s) = true -> pool_wf (st_pool s) ->
  hw_doCompressData fuel src n dst dst_size s = (Ret res, s1) ->
  exists evs, st_trace s1 = evs ++ st_trace s /\
              (hw_attempt_failed evs = true -> res = RET_ERROR).
Proof.
  intros Hready Hwf. rewrite hw_doCompressData_unfold.
  destruct (hw_entry_cases fuel (hw_compress_with src n dst dst_size) s Hready Hwf)
    as [(evs & d & Hevs & Heq)|[(evs & d & i & Hevs & Hi & Hfree & Heq)|(Hf & Heq)]].
  - rewrite Heq. intros [= <- <-]. exists evs. split; reflexivity.
  - rewrite Heq.
    destruct (hw_compress_with_spec src n dst dst_size i (capacity s - i)
                 (pool_step (<[Z.to_nat i := true]> (locks_of s)) d (EvTryLock i true :: evs) s))
      as (s' & Hrun & _ & _ & _ & Htr & _).
    { exact Hready. }
    { apply (pool_step_jobs_len i d (EvTryLock i true :: evs) s Hwf Hi). }
    cbv zeta in Hrun, Htr. rewrite Hrun. intros [= <- <-].
    eexists (EvUnLock _ :: EvHwExecute i _ _ :: EvTryLock i true :: evs).
    split; [rewrite Htr; reflexivity|].
    unfold hw_attempt_failed. cbn [last_device_status device_status].
    destruct (status_is_ok _); cbn [negb]; intros Hfailed; [discriminate Hfailed|reflexivity].
  - intros H. rewrite H in Heq. discriminate.
Qed.

(** The same for the hardware attempt of a decompression, in each mode. *)
Lemma hw_decompress_entry_log mode fuel src n dst dst_size s res s1 :
  job_pool_ready (st_pool s) = true -> pool_wf (st_pool s) ->
  hw_decompress_entry mode fuel src n dst dst_size s = (Ret res, s1) ->
  exists evs, st_trace s1 = evs ++ st_trace s /\
              (hw_attempt_failed evs = true -> res = RET_ERROR).
Proof.
  intros Hready Hwf. destruct mode; cbn [hw_decompress_entry].
  - rewrite hw_doDecompressDataSynchronous_unfold.
    destruct (hw_entry_cases fuel (hw_decompress_sync_with fuel src n dst dst_size) s Hready Hwf)
      as [(evs & d & Hevs & Heq)|[(evs & d & i & Hevs & Hi & Hfree & Heq)|(Hf & Heq)]].
    + rewrite Heq. intros [= <- <-]. exists evs. split; reflexivity.
    + rewrite Heq. intros Hrun.
      destruct (hw_decompress_sync_with_log fuel src n dst dst_size i (capacity s - i)
                  (pool_step (<[Z.to_nat i := true]> (locks_of s)) d (EvTryLock i true :: evs) s)
                  res s1 Hready (pool_step_jobs_len i d (EvTryLock i true :: evs) s Hwf Hi) Hrun)
        as (evs' & st & Htr & Hlast & Hres).
      exists (EvUnLock (to_UInt32 (capacity s - (capacity s - i)))
                :: evs' ++ EvTryLock i true :: evs).
      split.
      * rewrite Htr. cbn [st_trace pool_step app]. rewrite <- app_assoc. reflexivity.
      * unfold hw_attempt_failed. cbn [last_device_status device_status].
        assert (Hl : last_device_status (evs' ++ EvTryLock i true :: evs) = Some st).
        { clear -Hlast. induction evs' as [|e evs' IH]; [discriminate|].
          cbn [app last_device_status] in *. destruct (device_status e); [exact Hlast|auto]. }
        rewrite Hl. intros Hfailed. apply negb_true_iff in Hfailed. auto.
    + intros H. rewrite H in Heq. discriminate.
  - rewrite hw_doDecompressDataAsynchronous_unfold.
    destruct (hw_entry_cases fuel (hw_decompress_async_with src n dst dst_size) s Hready Hwf)
      as [(evs & d & Hevs & Heq)|[(evs & d & i & Hevs & Hi & Hfree & Heq)|(Hf & Heq)]].
    + rewrite Heq. intros [= <- <-]. exists evs. split; reflexivity.
    + rewrite Heq.
      destruct (hw_decompress_async_with_spec src n dst dst_size i (capacity s - i)
                 (pool_step (<[Z.to_nat i := true]> (locks_of s)) d (EvTryLock i true :: evs) s))
        as (s' & Hrun & _ & _ & Hcase).
      { exact Hready. }
      { apply (pool_step_jobs_len i d (EvTryLock i true :: evs) s Hwf Hi). }
      rewrite Hrun. intros [= <- <-]. cbv zeta in Hcase.
      destruct (status_is_ok _) eqn:Hok.
      * destruct Hcase as (_ & _ & Htr).
        eexists (EvHwSubmit i _ _ :: EvTryLock i true :: evs).
        split; [rewrite Htr; reflexivity|].
        unfold hw_attempt_failed. cbn [last_device_status device_status].
        cbn [st_env st_clock pool_step] in Hok |- *. rewrite Hok. discriminate.
      * destruct Hcase as (_ & _ & Htr).
        eexists (EvUnLock _ :: EvHwSubmit i _ _ :: EvTryLock i true :: evs).
        split; [rewrite Htr; reflexivity|]. reflexivity.
    + intros H. rewrite H in Heq. discriminate.
  - intros [= <- <-]. exists []. split; reflexivity.
Qed.

(** Synchronous decompression on a locked slot when the device accepts
    the job, is found in progress [k] times and then answers the check with
    an error: the slot is released and the result is [RET_ERROR]. *)
Lemma hw_decompress_sync_with_poll_failed fuel k src n dst dst_size ptr id s c :
  job_pool_ready (st_pool s) = true ->
  (Z.to_nat ptr < length (hw_jobs_buffer (st_pool s)))%nat ->
  let j := configure_decompress src n dst dst_size (hw_job ptr s) in
  let slot := to_UInt32 (capacity s - id) in
  hw_submit_status (st_env s) (st_clock s) ptr = QPL_STS_OK ->
  (forall m, (m < k)%nat ->
     status_in_progress (fst (hw_reply (st_env s) (S (st_clock s) + m) ptr j)) = true) ->
  fst (hw_reply (st_env s) (S (st_clock s) + k) ptr j) = QPL_STS_ERROR c ->
  (k < fuel)%nat ->
  exists s',
    hw_decompress_sync_with fuel src n dst dst_size ptr id s = (Ret RET_ERROR, s') /\
    st_trace s' =
      EvUnLock slot :: EvHwCheck ptr (QPL_STS_ERROR c) :: EvPause
        :: busy_poll_events ptr k ++ EvHwSubmit ptr j QPL_STS_OK :: st_trace s.
Proof.
  intros Hready Hrange j slot Hsubmit Hbusy Hdone Hfuel.
  rewrite hw_decompress_sync_with_unfold. cbv zeta. fold j. rewrite Hsubmit. cbn [negb status_is_ok].
  set (sA := with_pool (with_jobs (<[Z.to_nat ptr := j]> (hw_jobs_buffer (st_pool s)))
                                  (st_pool s)) s).
  assert (HjA : hw_job ptr sA = j) by (apply hw_job_insert; exact Hrange).
  rewrite HjA. set (sB := log (EvHwSubmit ptr j QPL_STS_OK) (tick sA)).
  assert (HjB : hw_job ptr sB = j) by exact HjA.
  pose proof (poll_loop_done ptr k fuel sB Hfuel) as Hpoll. cbv zeta in Hpoll.
  change (st_env sB) with (st_env s) in Hpoll.
  change (st_clock sB) with (S (st_clock s)) in Hpoll.
  rewrite HjB, Hdone in Hpoll. rewrite Hpoll by (auto || reflexivity). clear Hpoll.
  cbn [negb status_is_ok].
  destruct (busy_polls_frame ptr k sB) as (_ & Hp & _ & _ & _ & _ & _ & Htrace).
  cbv zeta in Hp, Htrace.
  set (sP := busy_polls ptr k sB) in *.
  set (sX := tick (log EvPause sP)).
  set (out := snd (hw_reply (st_env s) (S (st_clock s) + k) ptr j)).
  set (sC := log (EvHwCheck ptr (QPL_STS_ERROR c)) (device_done ptr out sX)).
  assert (Hready_C : job_pool_ready (st_pool sC) = true).
  { unfold sC, device_done. cbn. change (st_pool sX) with (st_pool sP). rewrite Hp. exact Hready. }
  assert (Hcap_C : capacity sC = capacity s).
  { unfold sC, device_done, capacity. cbn. change (st_pool sX) with (st_pool sP).
    now rewrite Hp. }
  rewrite (release_then_ret _ _ _ Hready_C), Hcap_C. fold slot.
  eexists. split; [reflexivity|].
  cbn. change (st_trace sX) with (EvPause :: st_trace sP). rewrite Htrace. reflexivity.
Qed.

(** C1 (fallback transparency).  For a codec whose pool, if ready, is well
    formed:
    - no hardware entry point ever throws;
    - on a pool that is not ready, compress and decompress are the software
      compress and decompress of the same arguments;
    - on a ready pool, a hardware attempt that returned left a log of its
      own events; when that log shows a failure (no slot was acquired, so
      the device was never reached, or the last answer of the device, to
      the submission, to the execution or to the check that ended the
      wait, was not [QPL_STS_OK]), the attempt answered [RET_ERROR]; and
      whenever it answered [RET_ERROR], the call is the software operation
      with the same arguments, run in the state the attempt left, and it
      completes: it returns or it throws the software engine's exception;
      for a decompress, when moreover the engines respect [available_out]
      and source and destination do not overlap, the call has the same
      outcome as the run of the same call with the pool marked not ready,
      leaves the same software resource behind, and the bytes at the
      destination are in both runs the output of the software engine;
    - when every hardware submission and execution fails (and the retry
      loop of [acquireJob] has the fuel for its bound), the hardware attempt
      does answer [RET_ERROR];
    - a failing check: in the synchronous mode, when the first slot drawn
      is free, the device accepts the job, is found in progress [k] times
      and then answers the check with an error, the hardware attempt
      answers [RET_ERROR] after releasing the slot, and the call is the
      software decompression in the state that attempt left;
    - an exception of a call is the exception of the software operation
      with the same arguments. *)
Theorem fallback_transparency (fuel : nat) (src n dst dst_size : Z) (s : State) :
  (job_pool_ready (st_pool s) = true -> pool_wf (st_pool s)) ->
  let s0 := touched dst dst_size s in
  let mode := decompress_mode s in
  let bound := getMaxCompressedDataSize n in
  (forall e, fst (hw_doCompressData fuel src n dst bound s) <> Throw e /\
             fst (hw_decompress_entry mode fuel src n dst dst_size s0) <> Throw e) /\
  (job_pool_ready (st_pool s) = false ->
   doCompressData fuel src n dst s = sw_compress_call src n dst s /\
   doDecompressData fuel src n dst dst_size s = sw_doDecompressData src n dst dst_size s0) /\
  (job_pool_ready (st_pool s) = true ->
   (forall res s1, hw_doCompressData fuel src n dst bound s = (Ret res, s1) ->
      exists evs,
        st_trace s1 = evs ++ st_trace s /\
        (hw_attempt_failed evs = true -> res = RET_ERROR) /\
        (res = RET_ERROR ->
         doCompressData fuel src n dst s = sw_compress_call src n dst s1 /\
         fst (doCompressData fuel src n dst s) <> NoResult)) /\
   (forall res s1, hw_decompress_entry mode fuel src n dst dst_size s0 = (Ret res, s1) ->
      exists evs,
        st_trace s1 = evs ++ st_trace s /\
        (hw_attempt_failed evs = true -> res = RET_ERROR) /\
        (res = RET_ERROR ->
         doDecompressData fuel src n dst dst_size s =
           sw_doDecompressData src n dst dst_size s1 /\
         fst (doDecompressData fuel src n dst dst_size s) <> NoResult /\
         (env_respects_capacity (st_env s) ->
          buffers_disjoint src n dst dst_size ->
          let out := snd (sw_decompress_reply src n dst dst_size s0) in
          let run := doDecompressData fuel src n dst dst_size s in
          let sw_run := doDecompressData fuel src n dst dst_size (software_only s) in
          fst run = fst sw_run /\
          sw_job (snd run) = sw_job (snd sw_run) /\
          (sw_init_fails s = false ->
           load (st_mem (snd run)) dst (length out) = out /\
           load (st_mem (snd sw_run)) dst (length out) = out))))) /\
  (job_pool_ready (st_pool s) = true ->
   (Z.to_nat (capacity s) < fuel)%nat ->
   hardware_fails (st_env s) ->
   (exists s1, hw_doCompressData fuel src n dst bound s = (Ret RET_ERROR, s1)) /\
   (exists s1, hw_decompress_entry mode fuel src n dst dst_size s0 = (Ret RET_ERROR, s1))) /\
  (job_pool_ready (st_pool s) = true ->
   mode = Synchronous ->
   let i := draw s 0 in
   let j := configure_decompress src n dst dst_size (hw_job i s) in
   forall (k : nat) (c : Z),
     locks_of s !! Z.to_nat i = Some false ->
     hw_submit_status (st_env s) (st_clock s) i = QPL_STS_OK ->
     (forall m, (m < k)%nat ->
        status_in_progress (fst (hw_reply (st_env s) (S (st_clock s) + m) i j)) = true) ->
     fst (hw_reply (st_env s) (S (st_clock s) + k) i j) = QPL_STS_ERROR c ->
     (k < fuel)%nat ->
     exists s1,
       hw_decompress_entry mode fuel src n dst dst_size s0 = (Ret RET_ERROR, s1) /\
       st_trace s1 =
         EvUnLock i :: EvHwCheck i (QPL_STS_ERROR c) :: EvPause
           :: busy_poll_events i k
           ++ EvHwSubmit i j QPL_STS_OK :: EvTryLock i true :: st_trace s /\
       doDecompressData fuel src n dst dst_size s =
         sw_doDecompressData src n dst dst_size s1) /\
  (forall e s',
     (doCompressData fuel src n dst s = (Throw e, s') ->
      exists s1, sw_compress_call src n dst s1 = (Throw e, s')) /\
     (doDecompressData fuel src n dst dst_size s = (Throw e, s') ->
      exists s1, sw_doDecompressData src n dst dst_size s1 = (Throw e, s'))).
Proof.
  intros Hwf s0 mode bound.
  destruct (fallback_on_error_value fuel src n dst dst_size s Hwf)
    as (Hthrow & Hunready & Herror & Hfails & Hsame).
  fold s0 mode bound in Hthrow, Hunready, Herror, Hfails, Hsame.
  split; [exact Hthrow|]. split; [exact Hunready|].
  split; [|split; [exact Hfails|split]].
  - intros Hready. destruct (Herror Hready) as (Hcomp & Hdecomp). split; intros res s1 Hhw.
    + destruct (hw_doCompressData_log _ _ _ _ _ _ _ _ Hready (Hwf Hready) Hhw)
        as (evs & Htr & Hres).
      exists evs. split; [exact Htr|]. split; [exact Hres|].
      intros ->. now apply Hcomp.
    + destruct (hw_decompress_entry_log mode fuel src n dst dst_size s0 res s1
                  Hready (Hwf Hready) Hhw) as (evs & Htr & Hres).
      exists evs. split; [exact Htr|]. split; [exact Hres|].
      intros ->. destruct (Hdecomp s1 Hhw) as (Hcall & Hdone).
      split; [exact Hcall|]. split; [exact Hdone|].
      intros Henv Hdis. exact (Hsame Hready Henv Hdis s1 Hhw).
  - intros Hready Hmode i j k c Hfree Hsubmit Hbusy Hdone Hfuel.
    destruct fuel as [|fuel']; [lia|].
    pose proof (Hwf Hready) as Hpool.
    pose proof (draw_range s 0 Hpool) as Hi. fold i in Hi.
    pose proof Hpool as (Hcap & _ & Hjobs). fold (capacity s) in Hcap.
    set (s2 := pool_step (<[Z.to_nat i := true]> (locks_of s0)) 1 [EvTryLock i true] s0).
    destruct (hw_decompress_sync_with_poll_failed (S fuel') k src n dst dst_size i
                (capacity s - i) s2 c) as (s1 & Hwith & Htrace); try assumption.
    { change (hw_jobs_buffer (st_pool s2)) with (hw_jobs_buffer (st_pool s)).
      rewrite Hjobs. fold (capacity s). lia. }
    cbv zeta in Htrace. change (capacity s2) with (capacity s) in Htrace.
    rewrite (slot_of_handle i s Hpool Hi) in Htrace.
    assert (Hhw : hw_decompress_entry mode (S fuel') src n dst dst_size s0 = (Ret RET_ERROR, s1)).
    { rewrite Hmode. cbn [hw_decompress_entry]. rewrite hw_doDecompressDataSynchronous_unfold.
      rewrite (hw_entry_first_free fuel' _ s0 Hready Hpool Hfree).
      change (draw s0 0) with i. change (capacity s0) with (capacity s). fold s2. exact Hwith. }
    exists s1. split; [exact Hhw|]. split; [exact Htrace|].
    destruct (Herror Hready) as (_ & Hdecomp). now apply Hdecomp.
  - intros e s'. split; intros Hcall.
    + rewrite doCompressData_unfold in Hcall.
      destruct (job_pool_ready (st_pool s)); [|now exists s].
      fold bound in Hcall. specialize (Hthrow e). destruct Hthrow as (Hc & _).
      destruct (hw_doCompressData fuel src n dst bound s) as [[res|e'|] s1];
        [|injection Hcall as -> _; now elim Hc|discriminate].
      destruct (res =? RET_ERROR); [now exists s1|discriminate].
    + rewrite doDecompressData_retry in Hcall. cbv zeta in Hcall. fold s0 mode in Hcall.
      destruct (job_pool_ready (st_pool s)); [|now exists s0].
      specialize (Hthrow e). destruct Hthrow as (_ & Hd).
      destruct (hw_decompress_entry mode fuel src n dst dst_size s0) as [[res|e'|] s1];
        [|injection Hcall as -> _; now elim Hd|discriminate].
      destruct (res =? RET_ERROR); [now exists s1|discriminate].
Qed.

Lemma fallback_transparency_witness :
  let s := example_state (example_env 2 (QPL_STS_ERROR 7) []) true [false; false] Synchronous in
  let s0 := touched 100 4 s in
  let j := configure_decompress 10 4 100 4 blank_job in
  let hw := hw_decompress_entry Synchronous 5 10 4 100 4 s0 in
  let run := doDecompressData 5 10 4 100 4 s in
  let sw_run := doDecompressData 5 10 4 100 4 (software_only s) in
  pool_wf (st_pool s) /\
  env_respects_capacity (st_env s) /\
  buffers_disjoint 10 4 100 4 /\
  hw_submit_status (st_env s) 0 0 = QPL_STS_OK /\
  fst (hw_reply (st_env s) 1 0 j) = QPL_STS_BEING_PROCESSED /\
  fst (hw_reply (st_env s) 2 0 j) = QPL_STS_ERROR 7 /\
  fst hw = Ret RET_ERROR /\
  st_trace (snd hw) =
    [EvUnLock 0; EvHwCheck 0 (QPL_STS_ERROR 7); EvPause;
     EvHwCheck 0 QPL_STS_BEING_PROCESSED; EvPause;
     EvHwSubmit 0 j QPL_STS_OK; EvTryLock 0 true] /\
  hw_attempt_failed (st_trace (snd hw)) = true /\
  run = sw_doDecompressData 10 4 100 4 (snd hw) /\
  fst run = Ret tt /\
  fst run = fst sw_run /\
  load (st_mem (snd run)) 100 4 = [10; 11; 12; 13] /\
  load (st_mem (snd sw_run)) 100 4 = [10; 11; 12; 13].
Proof.
  intros s s0 j hw run sw_run.
  assert (Hwf : pool_wf (st_pool s)) by (apply example_pool_wf; cbn; lia).
  assert (Henv : env_respects_capacity (st_env s)) by apply example_env_respects_capacity.
  assert (Hdis : buffers_disjoint 10 4 100 4) by (unfold buffers_disjoint; lia).
  assert (Hbusy : forall m, (m < 1)%nat ->
            status_in_progress (fst (hw_reply (st_env s) (S (st_clock s) + m) 0 j)) = true).
  { intros m Hm. destruct m as [|m]; [reflexivity|lia]. }
  destruct (fallback_transparency 5 10 4 100 4 s (fun _ => Hwf))
    as (_ & _ & Hattempt & _ & Hpoll & _).
  destruct (Hpoll eq_refl eq_refl 1%nat 7 eq_refl eq_refl Hbusy eq_refl ltac:(lia))
    as (s1 & Hhw & Htrace & Hcall).
  destruct (Hattempt eq_refl) as (_ & Hdecomp).
  destruct (Hdecomp RET_ERROR s1 Hhw) as (evs & Hlog & _ & Hsw).
  destruct (Hsw eq_refl) as (_ & _ & Hsame).
  destruct (Hsame Henv Hdis) as (Hfst & _ & Hbytes).
  destruct (Hbytes eq_refl) as (Hout & Hout').
  change (hw = (Ret RET_ERROR, s1)) in Hhw.
  assert (Hs1 : snd hw = s1) by now rewrite Hhw.
  split; [exact Hwf|]. split; [exact Henv|]. split; [exact Hdis|].
  split; [reflexivity|]. split; [reflexivity|]. split; [reflexivity|].
  split; [now rewrite Hhw|].
  split; [rewrite Hs1; exact Htrace|].
  split; [rewrite Hs1, Htrace; reflexivity|].
  split; [rewrite Hs1; exact Hcall|].
  split; [vm_compute; reflexivity|].
  split; [exact Hfst|].
  split; [exact Hout|exact Hout'].
Defined.
